(** * TaskWeaver Code Execution Service: a shallow embedding

    The development follows the Python sources:

    - [Compaction]    taskweaver/memory/compaction.py
    - [Verifier]      taskweaver/code_interpreter/code_verification.py
    - [Posix], [Fs]   the parts of [os.path] and of the file system the
                      server touches
    - [Server]        taskweaver/ces/server/session_manager.py and routes.py
    - [Context]       taskweaver/ces/runtime/context.py
    - [Client]        taskweaver/ces/client/execution_client.py
    - [Streaming]     routes.py, [_execute_streaming] and [stream_execution]
    - [Execution]     session_manager.py, [execute_code] and the inline
                      artifacts; models.py
    - [Artifacts]     context.py, the artifacts and the output

    The models come first; the properties follow, one module of proofs
    for each ([CompactionProofs], [VerifierProofs], ...).

    Python [int] is [Z]; [str] is [string], read as a sequence of
    characters; dictionaries keyed by strings are [gmap string _] where
    order is irrelevant and association lists where it is observable.
    Raised exceptions are values of a sum type; a [try]/[except] is a
    [match] on it. *)

From Stdlib Require Import ZArith Ascii String List Bool Lia DecimalString.
From stdpp Require Import gmap strings list sorting.

Local Open Scope string_scope.
Local Open Scope list_scope.
Local Open Scope Z_scope.

(** ** Python preliminaries *)

Module Py.

(** Outcome of a call that may raise: [Raise e] or [Ok a]. *)
Inductive result (E A : Type) : Type :=
| Ok (a : A)
| Raise (e : E).
Arguments Ok {E A} a.
Arguments Raise {E A} e.

(** A computation over a mutable object of type [S] that may raise: what
    it did to the object before raising stays done. *)
Definition M (S E A : Type) : Type := S -> result E A * S.

Definition ret {S E A} (a : A) : M S E A := fun s => (Ok a, s).

Definition raise {S E A} (e : E) : M S E A := fun s => (Raise e, s).

Definition bind {S E A B} (m : M S E A) (k : A -> M S E B) : M S E B :=
  fun s =>
    match m s with
    | (Ok a, s') => k a s'
    | (Raise e, s') => (Raise e, s')
    end.

(** [try: m except Exception as e: handler e]. *)
Definition try_except {S E A} (m : M S E A) (handler : E -> M S E A) : M S E A :=
  fun s =>
    match m s with
    | (Ok a, s') => (Ok a, s')
    | (Raise e, s') => handler e s'
    end.

(** Lifts a call that does not touch the object. *)
Definition lift {S E A} (r : result E A) : M S E A := fun s => (r, s).

Definition get {S E} : M S E S := fun s => (Ok s, s).

Definition modify {S E} (f : S -> S) : M S E unit := fun s => (Ok tt, f s).

Notation "'let!' x ':=' m 'in' k" := (bind m (fun x => k))
  (at level 10, x name, m at level 100, k at level 200).
Notation "m ';;' k" := (bind m (fun _ => k))
  (at level 100, k at level 200, right associativity).

(** [l[i]] for a Python list: negative indices count from the end and an
    index out of range raises [IndexError] (here [None]). *)
Definition getitem {A} (l : list A) (i : Z) : option A :=
  let n := Z.of_nat (length l) in
  if (0 <=? i) && (i <? n) then nth_error l (Z.to_nat i)
  else if (- n <=? i) && (i <? 0) then nth_error l (Z.to_nat (i + n))
  else None.

(** [range(a, b)]. *)
Definition range (a b : Z) : list Z :=
  map (fun k => a + Z.of_nat k) (seq 0 (Z.to_nat (b - a))).

(** [str(n)] for an [int]. *)
Definition str_of_int (n : Z) : string :=
  NilZero.string_of_int (Z.to_int n).

(** [sep.join(parts)]. *)
Fixpoint join (sep : string) (parts : list string) : string :=
  match parts with
  | [] => ""
  | [p] => p
  | p :: rest => p +:+ sep +:+ join sep rest
  end.

(** [len(s)]. *)
Definition len (s : string) : Z := Z.of_nat (String.length s).

(** [s[:n]] for [0 <= n]. *)
Definition take (n : nat) (s : string) : string := substring 0 n s.

(** [s.startswith(p)]. *)
Definition startswith (p s : string) : bool := String.prefix p s.

(** [str.isspace] on one character (code points below 256). *)
Definition isspace (c : ascii) : bool :=
  let n := nat_of_ascii c in
  ((9 <=? n) && (n <=? 13) || (28 <=? n) && (n <=? 32)
   || (n =? 133) || (n =? 160))%nat.

Fixpoint lstrip (s : string) : string :=
  match s with
  | String c s' => if isspace c then lstrip s' else s
  | EmptyString => EmptyString
  end.

(** Drops trailing whitespace: a character is kept when something
    non-blank follows it or it is itself not whitespace. *)
Fixpoint rstrip (s : string) : string :=
  match s with
  | String c s' =>
      match rstrip s' with
      | EmptyString => if isspace c then EmptyString else String c EmptyString
      | r => String c r
      end
  | EmptyString => EmptyString
  end.

(** [s.strip()]. *)
Definition strip (s : string) : string := rstrip (lstrip s).

(** Truth value of a [str]: non-empty. *)
Definition truthy (s : string) : bool :=
  match s with
  | EmptyString => false
  | _ => true
  end.

End Py.

Import Py.

(** ** taskweaver/memory/compaction.py *)

Module Compaction.

Record CompactedMessage : Type := mkCompactedMessage {
  start_index : Z;
  end_index : Z;
  summary : string
}.

Record CompactorConfig : Type := mkCompactorConfig {
  threshold : Z;
  retain_recent : Z;
  prompt_template_path : string;
  enabled : bool
}.

Record Post : Type := mkPost {
  send_from : string;
  send_to : string;
  message : string
}.

Record Round : Type := mkRound {
  user_query : string;
  post_list : list Post
}.

(** The exceptions a pass can meet. *)
Inductive exn : Type :=
| IndexError
| ValueError (msg : string)
| ExternalError (msg : string).

Definition str_of_exn (e : exn) : string :=
  match e with
  | IndexError => "list index out of range"
  | ValueError m => m
  | ExternalError m => m
  end.

(** What [response.get("content", "")] finds: a [str] or something else;
    [None] when the key is absent. *)
Inductive py_content : Type :=
| ContentStr (s : string)
| ContentOther.

(** What one pass sees of the outside world. [rounds_getter] is the
    injected accessor. [chat_completion content previous_summary] stands for
    formatting the prompt template with the two strings and sending it
    through the LLM adapter, which lives outside this repository: it raises
    or returns a response dictionary, of which only the ["content"] entry
    is read. *)
Record world : Type := mkWorld {
  rounds_getter : result exn (list Round);
  chat_completion : string -> string -> result exn (option py_content)
}.

(** The compactor instance: the append-only queue, and the lines handed
    to [self.logger], oldest first. *)
Record ContextCompactor : Type := mkCompactor {
  compacted_queue : list CompactedMessage;
  logged : list string
}.

Definition init : ContextCompactor := mkCompactor [] [].

Definition log_line (line : string) (st : ContextCompactor) : ContextCompactor :=
  mkCompactor (compacted_queue st) (logged st ++ [line]).

(** [self.logger(line)]. *)
Definition logger (line : string) : M ContextCompactor exn unit :=
  modify (log_line line).

Definition get_compaction (st : ContextCompactor) : option CompactedMessage :=
  last (compacted_queue st).

(** [_call_llm_for_summary]: a non-[str] content yields [""]. *)
Definition _call_llm_for_summary (w : world) (content previous_summary : string)
  : M ContextCompactor exn string :=
  let! response := lift (chat_completion w content previous_summary) in
  match response with
  | None => ret ""
  | Some (ContentStr s) => ret s
  | Some ContentOther => ret ""
  end.

Definition msg_preview (p : Post) : string :=
  if 1024 <? len (message p) then take 1024 (message p) +:+ "..." else message p.

Definition post_line (p : Post) : string :=
  "  " +:+ send_from p +:+ " -> " +:+ send_to p +:+ ": " +:+ msg_preview p.

(** The [for i in range(start_from, new_end)] loop of [_do_compaction]. *)
Fixpoint content_loop (rounds : list Round) (idx : list Z) (content_parts : list string)
  : result exn (list string) :=
  match idx with
  | [] => Ok content_parts
  | i :: idx' =>
      match getitem rounds i with
      | None => Raise IndexError
      | Some round_obj =>
          let round_num := i + 1 in
          let parts1 := content_parts
            ++ [String "010" "--- Round " +:+ str_of_int round_num +:+ " ---"]
            ++ ["User Query: " +:+ user_query round_obj] in
          content_loop rounds idx' (parts1 ++ map post_line (post_list round_obj))
      end
  end.

Definition append_compacted (c : CompactedMessage) (st : ContextCompactor)
  : ContextCompactor :=
  mkCompactor (compacted_queue st ++ [c]) (logged st).

Definition _do_compaction (w : world) (rounds : list Round) (new_end : Z)
  : M ContextCompactor exn unit :=
  let! st := get in
  let prev_compacted := get_compaction st in
  let previous_summary :=
    match prev_compacted with Some p => summary p | None => "None" end in
  let start_from :=
    match prev_compacted with Some p => end_index p | None => 0 end in
  let! content_parts := lift (content_loop rounds (range start_from new_end) []) in
  let content := join (String "010" "") content_parts in
  let! summary := _call_llm_for_summary w content previous_summary in
  if negb (truthy summary) || negb (truthy (strip summary))
  then raise (ValueError "LLM returned empty summary")
  else
    let new_compacted := mkCompactedMessage 1 new_end summary in
    modify (append_compacted new_compacted) ;;
    logger ("ContextCompactor: Compaction complete (rounds 1-"
            +:+ str_of_int new_end +:+ ")").

(** The body of the [try] in [_try_compact]. *)
Definition try_body (cfg : CompactorConfig) (w : world)
  : M ContextCompactor exn unit :=
  let! rounds := lift (rounds_getter w) in
  let total := Z.of_nat (length rounds) in
  if total =? 0 then ret tt else
  let! st := get in
  let compacted := get_compaction st in
  let compacted_end :=
    match compacted with Some c => end_index c | None => 0 end in
  let uncompacted_count := total - compacted_end in
  if uncompacted_count <? threshold cfg then ret tt else
  let new_end := total - retain_recent cfg in
  if (new_end <=? 0) || (compacted_end >=? new_end) then ret tt else
  logger ("ContextCompactor: Compacting rounds 1-" +:+ str_of_int new_end
          +:+ " (uncompacted=" +:+ str_of_int uncompacted_count
          +:+ ", threshold=" +:+ str_of_int (threshold cfg) +:+ ")") ;;
  _do_compaction w rounds new_end.

(** [_try_compact]: the [except Exception] clause logs and returns. *)
Definition _try_compact (cfg : CompactorConfig) (w : world)
  : M ContextCompactor exn unit :=
  try_except (try_body cfg w)
    (fun e => logger ("ContextCompactor: Compaction failed: " +:+ str_of_exn e)).

(** The compactor after one pass. *)
Definition pass (cfg : CompactorConfig) (w : world) (st : ContextCompactor)
  : ContextCompactor :=
  snd (_try_compact cfg w st).

(** Whether the pass took the [except] branch. *)
Definition pass_failed (cfg : CompactorConfig) (w : world) (st : ContextCompactor)
  : bool :=
  match fst (try_body cfg w st) with
  | Ok _ => false
  | Raise _ => true
  end.

(** [_worker_loop]: one pass per wake-up, each seeing the world as it is
    at that time; an exception leaving a pass would end the loop. *)
Fixpoint _worker_loop (cfg : CompactorConfig) (ws : list world)
  : M ContextCompactor exn unit :=
  match ws with
  | [] => ret tt
  | w :: ws' => _try_compact cfg w ;; _worker_loop cfg ws'
  end.

(** The compactor after the wake-ups [ws]: [start] creates the worker and
    [notify_rounds_changed] wakes it only when the configuration enables
    compaction. *)
Definition worker (cfg : CompactorConfig) (ws : list world) : ContextCompactor :=
  if enabled cfg then snd (_worker_loop cfg ws init) else init.

(** [compacted.end_index if compacted else 0]. *)
Definition compacted_end (st : ContextCompactor) : Z :=
  match get_compaction st with
  | Some c => end_index c
  | None => 0
  end.

(** A summary that is empty or consists of whitespace only. *)
Definition blank (s : string) : bool :=
  forallb isspace (list_ascii_of_string s).

(** A world with [n] rounds in which the summary call answers [s]. *)
Definition scenario_world (n : nat) (s : string) : world :=
  mkWorld (Ok (repeat (mkRound "q" [mkPost "User" "Planner" "m"]) n))
          (fun _ _ => Ok (Some (ContentStr s))).

End Compaction.
(** ** taskweaver/code_interpreter/code_verification.py *)

Module Verifier.

Definition DANGEROUS_BUILTINS : list string :=
  [ "getattr"; "setattr"; "delattr"; "vars"; "globals"; "locals";
    "__getattribute__"; "__setattr__"; "__delattr__"; "__dict__";
    "__class__"; "__bases__"; "__subclasses__"; "__mro__"; "__builtins__" ].

(** The value of an [ast.Constant]: a [str] or anything else. *)
Inductive constant : Type :=
| CStr (s : string)
| COther.

#[local] Set Warnings "-register-all".

(** The syntax tree as the visitor sees it (the [ast] of Python 3.9 and
    later, where the slice of a subscript is the index expression itself).
    The node classes that have a [visit_*] method, or that such a method
    inspects, are kept apart with the fields it reads; every other class
    ([Module], [Expr], [BinOp], [Tuple], [keyword], ...) is [Other] with
    its child nodes in field order. Each located node carries its
    [lineno]. *)
Inductive node : Type :=
| Name (lineno : Z) (id : string)
| Constant (lineno : Z) (value : constant)
| Attribute (lineno : Z) (value : node) (attr : string)
| Subscript (lineno : Z) (value : node) (slice : node)
| Call (lineno : Z) (func : node) (args : list node) (keywords : list node)
| Import (lineno : Z) (names : list string)
| ImportFrom (lineno : Z) (module : option string)
| Assign (lineno : Z) (targets : list node) (value : node)
| Other (children : list node).

(** [ast.iter_child_nodes]. *)
Definition iter_child_nodes (n : node) : list node :=
  match n with
  | Name _ _ => []
  | Constant _ _ => []
  | Attribute _ value _ => [value]
  | Subscript _ value slice => [value; slice]
  | Call _ func args keywords => func :: args ++ keywords
  | Import _ _ => []
  | ImportFrom _ _ => []
  | Assign _ targets value => targets ++ [value]
  | Other children => children
  end.

Fixpoint size (n : node) : nat :=
  let sizes := fix sizes (l : list node) : nat :=
    match l with
    | [] => O
    | x :: r => (size x + sizes r)%nat
    end in
  match n with
  | Name _ _ => 1%nat
  | Constant _ _ => 1%nat
  | Attribute _ value _ => S (size value)
  | Subscript _ value slice => S (size value + size slice)
  | Call _ func args keywords => S (size func + sizes args + sizes keywords)
  | Import _ _ => 1%nat
  | ImportFrom _ _ => 1%nat
  | Assign _ targets value => S (sizes targets + size value)
  | Other children => S (sizes children)
  end.

(** [ast.walk]: breadth first, the queue being [todo]. *)
Fixpoint walk_queue (fuel : nat) (todo : list node) : list node :=
  match fuel, todo with
  | S fuel', n :: todo' => n :: walk_queue fuel' (todo' ++ iter_child_nodes n)
  | _, _ => []
  end.

Definition walk (n : node) : list node := walk_queue (size n) [n].

Inductive exn : Type :=
| IndexError
| AssertionError (msg : string).

Record FunctionCallValidator : Type := mkValidator {
  lines : list string;
  allowed_modules : option (list string);
  blocked_modules : option (list string);
  allowed_functions : option (list string);
  blocked_functions : option (list string);
  allowed_variables : option (list string)
}.

(** [x in l] for a list of strings. *)
Definition py_in (x : string) (l : list string) : bool :=
  existsb (String.eqb x) l.

Definition is_none {A} (o : option A) : bool :=
  match o with None => true | Some _ => false end.

(** [FunctionCallValidator.__init__] with its two assertions. *)
Definition FunctionCallValidator_init
  (lines : list string)
  (allowed_modules blocked_modules allowed_functions blocked_functions
     allowed_variables : option (list string))
  : result exn FunctionCallValidator :=
  if negb (is_none allowed_modules || is_none blocked_modules)
  then Raise (AssertionError
                "Only one of allowed_modules or blocked_modules can be set.")
  else if negb (is_none allowed_functions || is_none blocked_functions)
  then Raise (AssertionError
                "Only one of allowed_functions or blocked_functions can be set.")
  else Ok (mkValidator lines allowed_modules blocked_modules
             allowed_functions blocked_functions allowed_variables).

Section Visitor.

Variable self : FunctionCallValidator.

(** The visitor's mutable state is [self.errors]. *)
Definition V : Type := M (list string) exn unit.

Definition allow_block (allowed blocked : option (list string)) (name : string)
  : bool :=
  match allowed with
  | Some l => match l with [] => false | _ => py_in name l end
  | None =>
      match blocked with
      | Some l => match l with [] => true | _ => negb (py_in name l) end
      | None => true
      end
  end.

Definition _is_allowed_function_call (func_name : string) : bool :=
  allow_block (allowed_functions self) (blocked_functions self) func_name.

Definition _is_allowed_module_import (mod_name : string) : bool :=
  allow_block (allowed_modules self) (blocked_modules self) mod_name.

Definition _is_allowed_variable (var_name : string) : bool :=
  match allowed_variables self with
  | Some l => match l with [] => false | _ => py_in var_name l end
  | None => true
  end.

(** [f"Error on line {lineno}: {self.lines[lineno - 1]} => {what}"]. *)
Definition error_text (lineno : Z) (line what : string) : string :=
  "Error on line " +:+ str_of_int lineno +:+ ": " +:+ line +:+ " => " +:+ what.

(** [self.errors.append(...)]; the line lookup may raise [IndexError]. *)
Definition report (lineno : Z) (what : string) : V :=
  match getitem (lines self) (lineno - 1) with
  | Some line => modify (fun errors => errors ++ [error_text lineno line what])
  | None => raise IndexError
  end.

Definition when (b : bool) (m : V) : V := if b then m else ret tt.

Definition function_not_allowed (function_name : string) : string :=
  "Function '" +:+ function_name +:+ "' is not allowed.".

Definition function_blocked (function_name : string) : string :=
  "Function '" +:+ function_name
  +:+ "' is blocked as it can be used to bypass security checks.".

Definition subscript_call : string :=
  "Subscript-based function calls are not allowed for security reasons.".

Definition unrecognized_call : string :=
  "Unrecognized function call pattern is not allowed for security reasons.".

Definition subscript_blocked (key_value : string) : string :=
  "Subscript access to '" +:+ key_value +:+ "' is blocked for security reasons.".

Definition attribute_blocked (attr_name : string) : string :=
  "Attribute access to '" +:+ attr_name +:+ "' is blocked for security reasons.".

(** The part of [visit_Call] that runs once the callee has a name. *)
Definition check_function_name (lineno : Z) (function_name : string) : V :=
  when (negb (is_none (allowed_functions self))
        || negb (is_none (blocked_functions self)))
    (when (truthy function_name && negb (_is_allowed_function_call function_name))
       (report lineno (function_not_allowed function_name))) ;;
  when (py_in function_name DANGEROUS_BUILTINS)
    (report lineno (function_blocked function_name)).

(** The visit methods take [self.generic_visit(node)], the visit of the
    children of the node, as their last argument. *)
Definition visit_Call (lineno : Z) (func : node) (generic_visit : V) : V :=
  match func with
  | Name _ id => check_function_name lineno id ;; generic_visit
  | Attribute _ _ attr => check_function_name lineno attr ;; generic_visit
  | Subscript _ _ _ => report lineno subscript_call ;; generic_visit
  | Call _ _ _ _ => generic_visit
  | _ => report lineno unrecognized_call ;; generic_visit
  end.

(** [name.split(".")[0]]. *)
Fixpoint before_dot (s : string) : string :=
  match s with
  | EmptyString => EmptyString
  | String c s' => if Ascii.eqb c "." then EmptyString else String c (before_dot s')
  end.

Fixpoint has_dot (s : string) : bool :=
  match s with
  | EmptyString => false
  | String c s' => Ascii.eqb c "." || has_dot s'
  end.

Fixpoint for_each {A} (l : list A) (body : A -> V) : V :=
  match l with
  | [] => ret tt
  | x :: r => body x ;; for_each r body
  end.

Definition visit_Import (lineno : Z) (names : list string) (generic_visit : V)
  : V :=
  when (negb (is_none (allowed_modules self))
        || negb (is_none (blocked_modules self)))
    (for_each names (fun name =>
       let module_name := if has_dot name then before_dot name else name in
       when (negb (_is_allowed_module_import module_name))
         (report lineno
            ("Importing module '" +:+ module_name +:+ "' is not allowed. ")))) ;;
  generic_visit.

Definition visit_ImportFrom (lineno : Z) (module : option string)
  (generic_visit : V) : V :=
  when (negb (is_none (allowed_modules self))
        || negb (is_none (blocked_modules self)))
    (match module with
     | None => ret tt
     | Some m =>
         let module_name := if truthy m && has_dot m then before_dot m else m in
         when (truthy module_name && negb (_is_allowed_module_import module_name))
           (report lineno
              (" Importing from module '" +:+ m +:+ "' is not allowed."))
     end) ;;
  generic_visit.

Definition name_ids (ns : list node) : list string :=
  flat_map (fun n => match n with Name _ id => [id] | _ => [] end) ns.

Definition visit_Assign (lineno : Z) (targets : list node) (generic_visit : V)
  : V :=
  when (negb (is_none (allowed_variables self)))
    (for_each targets (fun target =>
       let variable_names :=
         match target with
         | Name _ id => [id]
         | _ => name_ids (walk target)
         end in
       for_each variable_names (fun variable_name =>
         when (negb (_is_allowed_variable variable_name))
           (report lineno
              ("Assigning to " +:+ variable_name +:+ " is not allowed."))))) ;;
  generic_visit.

Definition visit_Subscript (lineno : Z) (slice : node) (generic_visit : V) : V :=
  match slice with
  | Constant _ (CStr key_value) =>
      when (py_in key_value DANGEROUS_BUILTINS || startswith "__" key_value)
        (report lineno (subscript_blocked key_value))
  | _ => ret tt
  end ;;
  generic_visit.

Definition visit_Attribute (lineno : Z) (attr_name : string) (generic_visit : V)
  : V :=
  when (py_in attr_name DANGEROUS_BUILTINS)
    (report lineno (attribute_blocked attr_name)) ;;
  generic_visit.

(** [NodeVisitor.visit]: the method of the node's class, or
    [generic_visit] for a class without one; [generic_visit] visits the
    children in field order. *)
Fixpoint visit (n : node) : V :=
  let visit_all := fix visit_all (l : list node) : V :=
    match l with
    | [] => ret tt
    | x :: r => visit x ;; visit_all r
    end in
  match n with
  | Name _ _ => ret tt
  | Constant _ _ => ret tt
  | Attribute lineno value attr =>
      visit_Attribute lineno attr (visit value)
  | Subscript lineno value slice =>
      visit_Subscript lineno slice (visit value ;; visit slice)
  | Call lineno func args keywords =>
      visit_Call lineno func (visit func ;; visit_all args ;; visit_all keywords)
  | Import lineno names => visit_Import lineno names (ret tt)
  | ImportFrom lineno module => visit_ImportFrom lineno module (ret tt)
  | Assign lineno targets value =>
      visit_Assign lineno targets (visit_all targets ;; visit value)
  | Other children => visit_all children
  end.

End Visitor.

(** The nodes of a tree, the root first. *)
Fixpoint subnodes (n : node) : list node :=
  let subnodes_all := fix subnodes_all (l : list node) : list node :=
    match l with
    | [] => []
    | x :: r => subnodes x ++ subnodes_all r
    end in
  n :: match n with
       | Name _ _ => []
       | Constant _ _ => []
       | Attribute _ value _ => subnodes value
       | Subscript _ value slice => subnodes value ++ subnodes slice
       | Call _ func args keywords =>
           subnodes func ++ subnodes_all args ++ subnodes_all keywords
       | Import _ _ => []
       | ImportFrom _ _ => []
       | Assign _ targets value => subnodes_all targets ++ subnodes value
       | Other children => subnodes_all children
       end.

(** The line a node is reported on, for the classes that are located. *)
Definition lineno_of (n : node) : option Z :=
  match n with
  | Name l _ | Constant l _ | Attribute l _ _ | Subscript l _ _
  | Call l _ _ _ | Import l _ | ImportFrom l _ | Assign l _ _ => Some l
  | Other _ => None
  end.

(** Every located node of the tree lies on one of [nlines] lines, as it
    does in a tree parsed from a text of that many lines. *)
Definition located (nlines : nat) (tree : node) : Prop :=
  forall n l, In n (subnodes tree) -> lineno_of n = Some l ->
    1 <= l <= Z.of_nat nlines.

(** The name [visit_Call] extracts from the callee, if it has one. *)
Definition callee_name (func : node) : option string :=
  match func with
  | Name _ id => Some id
  | Attribute _ _ attr => Some attr
  | _ => None
  end.

(** A small program, with its lines and its tree:
[[
c = obj.__class__
x = d['__foo']
getattr(a, 'b')()
y = a[0](1)
]] *)
Definition example_lines : list string :=
  [ "c = obj.__class__"; "x = d['__foo']"; "getattr(a, 'b')()"; "y = a[0](1)" ].

Definition example_code : string := join (String "010" "") example_lines.

Definition example_tree : node :=
  Other
    [ Assign 1 [Name 1 "c"] (Attribute 1 (Name 1 "obj") "__class__");
      Assign 2 [Name 2 "x"]
        (Subscript 2 (Name 2 "d") (Constant 2 (CStr "__foo")));
      Other [Call 3 (Call 3 (Name 3 "getattr")
                       [Name 3 "a"; Constant 3 (CStr "b")] []) [] []];
      Assign 4 [Name 4 "y"]
        (Call 4 (Subscript 4 (Name 4 "a") (Constant 4 COther))
           [Constant 4 COther] []) ].

Section Verification.

(** [separate_magics_and_code], the parser [ast.parse] (a syntax error is
    its message), [str.splitlines] and the [repr] of a list of strings are
    taken as given. *)
Variable separate_magics_and_code : string -> list string * string * list string.
Variable ast_parse : string -> result string node.
Variable splitlines : string -> list string.
Variable repr_list : list string -> string.

Definition is_code_line (line : string) : bool :=
  negb (negb (truthy (strip line)) || startswith "#" (strip line)).

(** [code_snippet_verification]: [None] when verification is off,
    otherwise the list of violations; only [SyntaxError] is caught. *)
Definition code_snippet_verification
  (code_snippet : string) (code_verification_on : bool)
  (allowed_modules blocked_modules allowed_functions blocked_functions
     allowed_variables : option (list string))
  : result exn (option (list string)) :=
  if negb code_verification_on then Ok None else
  let '(magics, python_code, _) := separate_magics_and_code code_snippet in
  let errors :=
    if (0 <? Z.of_nat (length magics))
    then ["Magic commands except package install are not allowed. Details: "
          +:+ repr_list magics]
    else [] in
  match ast_parse python_code with
  | Raise e => Ok (Some ["Syntax error: " +:+ e])
  | Ok tree =>
      let processed_lines := List.filter is_code_line (splitlines python_code) in
      match FunctionCallValidator_init processed_lines
              allowed_modules blocked_modules allowed_functions
              blocked_functions allowed_variables with
      | Raise e => Raise e
      | Ok validator =>
          match visit validator tree [] with
          | (Ok _, validator_errors) => Ok (Some (errors ++ validator_errors))
          | (Raise e, _) => Raise e
          end
      end
  end.

End Verification.


(** *** [separate_magics_and_code] *)

(** The characters below 256 at which [str.splitlines] ends a line. *)
Definition is_linebreak (c : ascii) : bool :=
  let n := nat_of_ascii c in
  ((10 <=? n) && (n <=? 13) || (28 <=? n) && (n <=? 30) || (n =? 133))%nat.

(** [s.splitlines()]: the lines without their ends; a carriage return
    followed by a line feed ends one line, and the end of the last line
    does not open another. *)
Fixpoint splitlines (s : string) : list string :=
  match s with
  | EmptyString => []
  | String c s' =>
      if is_linebreak c then
        EmptyString ::
          (if Ascii.eqb c "013" then
             match s' with
             | String c' s'' =>
                 if Ascii.eqb c' "010" then splitlines s'' else splitlines s'
             | EmptyString => splitlines s'
             end
           else splitlines s')
      else
        match splitlines s' with
        | [] => [String c EmptyString]
        | line :: rest => String c line :: rest
        end
  end.

(** [needle in hay] for strings. *)
Fixpoint contains (needle hay : string) : bool :=
  match hay with
  | EmptyString => String.prefix needle hay
  | String _ hay' => String.prefix needle hay || contains needle hay'
  end.

(** The class [[a-zA-Z_]]. *)
Definition is_name_start (c : ascii) : bool :=
  let n := nat_of_ascii c in
  ((65 <=? n) && (n <=? 90) || (97 <=? n) && (n <=? 122) || (n =? 95))%nat.

(** Whether what follows is [\s*[a-zA-Z_]\w*]. *)
Definition name_follows (s : string) : bool :=
  match lstrip s with
  | String c _ => is_name_start c
  | EmptyString => false
  end.

(** [line_magic_pattern.match(line)], the pattern being
    [^\s*%\s*[a-zA-Z_]\w*]. *)
Definition line_magic_pattern (line : string) : bool :=
  match lstrip line with
  | String "%" rest => name_follows rest
  | _ => false
  end.

(** [cell_magic_pattern.match(line)], the pattern being
    [^\s*%%\s*[a-zA-Z_]\w*]. *)
Definition cell_magic_pattern (line : string) : bool :=
  match lstrip line with
  | String "%" (String "%" rest) => name_follows rest
  | _ => false
  end.

(** [shell_command_pattern.match(line)], the pattern being [^\s*!]. *)
Definition shell_command_pattern (line : string) : bool :=
  match lstrip line with
  | String "!" _ => true
  | _ => false
  end.

(** The variables of the loop of [separate_magics_and_code]. *)
Record separation : Type := mkSeparation {
  magics : list string;
  python_code : list string;
  package_install_commands : list string;
  inside_cell_magic : bool
}.

(** One turn of the loop. *)
Definition separate_line (st : separation) (line : string) : separation :=
  if negb (truthy (strip line)) || startswith "#" (strip line) then st
  else if inside_cell_magic st then
    mkSeparation (magics st ++ [line]) (python_code st)
      (package_install_commands st)
      (if negb (truthy (strip line)) then false else inside_cell_magic st)
  else if line_magic_pattern line || shell_command_pattern line then
    if contains "pip install" line || contains "conda install" line
    then mkSeparation (magics st) (python_code st)
           (package_install_commands st ++ [line]) (inside_cell_magic st)
    else mkSeparation (magics st ++ [line]) (python_code st)
           (package_install_commands st) (inside_cell_magic st)
  else if cell_magic_pattern line then
    mkSeparation (magics st ++ [line]) (python_code st)
      (package_install_commands st) true
  else
    mkSeparation (magics st) (python_code st ++ [line])
      (package_install_commands st) (inside_cell_magic st).

(** The loop over the lines. *)
Definition separate_lines (lines : list string) : separation :=
  fold_left separate_line lines (mkSeparation [] [] [] false).

Definition separate_magics_and_code (input_code : string)
  : list string * string * list string :=
  let st := separate_lines (splitlines input_code) in
  (magics st, join (String "010" "") (python_code st),
   package_install_commands st).

End Verifier.
(** ** os.path on POSIX, and the file system

    Paths are strings; the file system is a tree of directories and
    regular files without symbolic links, addressed by the list of names
    from the root. *)

Module Posix.

Definition sep : ascii := "/"%char.

(** [a.endswith("/")]. *)
Fixpoint endswith_sep (a : string) : bool :=
  match a with
  | EmptyString => false
  | String c EmptyString => Ascii.eqb c sep
  | String _ a' => endswith_sep a'
  end.

Definition startswith_sep (b : string) : bool :=
  match b with
  | String c _ => Ascii.eqb c sep
  | EmptyString => false
  end.

(** One step of [posixpath.join]: an absolute [b] restarts the path. *)
Definition join2 (path b : string) : string :=
  if startswith_sep b then b
  else if negb (truthy path) || endswith_sep path then path +:+ b
  else path +:+ "/" +:+ b.

(** [os.path.join(a, *p)]. *)
Definition join (a : string) (p : list string) : string :=
  fold_left join2 p a.

(** ["/" in p]. *)
Fixpoint has_sep (p : string) : bool :=
  match p with
  | EmptyString => false
  | String c p' => Ascii.eqb c sep || has_sep p'
  end.

(** [os.path.basename(p)]: what follows the last ["/"]. *)
Fixpoint basename (p : string) : string :=
  match p with
  | EmptyString => EmptyString
  | String c p' =>
      if Ascii.eqb c sep then basename p'
      else if has_sep p' then basename p' else p
  end.

(** The names between the separators: [split "a//b/"] is
    [["a"; ""; "b"; ""]]. *)
Fixpoint split (p : string) : list string :=
  match p with
  | EmptyString => [EmptyString]
  | String c p' =>
      if Ascii.eqb c sep then EmptyString :: split p'
      else
        match split p' with
        | h :: t => String c h :: t
        | [] => [String c EmptyString]
        end
  end.

End Posix.

Module Fs.

Import Posix.

(** A location: the names from the root down. *)
Abbreviation loc := (list string) (only parsing).

Inductive entry : Type :=
| Dir
| File (content : list Byte.byte).

(** The file system as the process sees it: its entries (the root is
    always a directory) and the working directory of the process. *)
Record fs : Type := mkFs {
  entries : gmap loc entry;
  here : loc
}.

Definition is_dir (f : fs) (l : loc) : bool :=
  match l with
  | [] => true
  | _ => match entries f !! l with Some Dir => true | _ => false end
  end.

Definition parent (l : loc) : loc := removelast l.

(** Following one name from the directory [cur]. *)
Definition step (f : fs) (cur : loc) (name : string) : option loc :=
  if negb (is_dir f cur) then None
  else if String.eqb name "" || String.eqb name "." then Some cur
  else if String.eqb name ".." then Some (parent cur)
  else Some (cur ++ [name]).

Fixpoint follow (f : fs) (cur : loc) (names : list string) : option loc :=
  match names with
  | [] => Some cur
  | name :: rest =>
      match step f cur name with
      | Some cur' => follow f cur' rest
      | None => None
      end
  end.

Definition start (f : fs) (p : string) : loc :=
  if startswith_sep p then [] else here f.

(** Path resolution: where [p] leads, if every name on the way but the
    last is followed from a directory. The empty path leads nowhere. *)
Definition resolve (f : fs) (p : string) : option loc :=
  if negb (truthy p) then None else follow f (start f p) (split p).

(** [os.path.isfile(p)]. *)
Definition isfile (f : fs) (p : string) : bool :=
  match resolve f p with
  | Some l => match entries f !! l with Some (File _) => true | _ => false end
  | None => false
  end.

Inductive oserror : Type :=
| FileNotFoundError
| IsADirectoryError
| NotADirectoryError
| FileExistsError.

(** [with open(p, "wb") as f: f.write(content)]. *)
Definition write_file (f : fs) (p : string) (content : list Byte.byte)
  : result oserror fs :=
  match resolve f p with
  | None => Raise FileNotFoundError
  | Some l =>
      if is_dir f l then Raise IsADirectoryError
      else if negb (is_dir f (parent l)) then Raise FileNotFoundError
      else Ok (mkFs (<[l := File content]> (entries f)) (here f))
  end.

(** [open(p, "rb").read()]. *)
Definition read_file (f : fs) (p : string) : option (list Byte.byte) :=
  match resolve f p with
  | Some l => match entries f !! l with Some (File c) => Some c | _ => None end
  | None => None
  end.

(** [os.makedirs(p, exist_ok=True)]: walks [p], creating the directories
    that are missing. *)
Fixpoint make_along (es : gmap loc entry) (cur : loc) (names : list string)
  : result oserror (gmap loc entry) :=
  match names with
  | [] => Ok es
  | name :: rest =>
      if String.eqb name "" || String.eqb name "." then make_along es cur rest
      else if String.eqb name ".." then make_along es (parent cur) rest
      else
        let next := cur ++ [name] in
        match es !! next with
        | Some Dir => make_along es next rest
        | Some (File _) =>
            match rest with
            | [] => Raise FileExistsError
            | _ => Raise NotADirectoryError
            end
        | None => make_along (<[next := Dir]> es) next rest
        end
  end.

Definition makedirs (f : fs) (p : string) : result oserror fs :=
  if negb (truthy p) then Raise FileNotFoundError
  else
    match make_along (entries f) (start f p) (split p) with
    | Ok es => Ok (mkFs es (here f))
    | Raise e => Raise e
    end.

(** Every entry but the root sits in a directory. *)
Definition well_formed (f : fs) : Prop :=
  forall l e, entries f !! l = Some e -> l <> [] -> is_dir f (parent l) = true.

(** The same, by inspection of the entries. *)
Definition well_formedb (f : fs) : bool :=
  forallb (fun le => match fst le with
                     | [] => true
                     | _ => is_dir f (parent (fst le))
                     end)
          (map_to_list (entries f)).

(** [l] lies in the directory [d] or below it. *)
Definition inside (d l : loc) : Prop := exists rest, l = d ++ rest /\ rest <> [].

(** A disk with one session directory, an empty [cwd] in it and a file
    next to [cwd]. *)
Definition example_disk : fs :=
  mkFs (<[ ["w"; "sessions"; "s1"; "secret.txt"] := File [Byte.x2a] ]>
       (<[ ["w"; "sessions"; "s1"; "cwd"] := Dir ]>
       (<[ ["w"; "sessions"; "s1"] := Dir ]>
       (<[ ["w"; "sessions"] := Dir ]>
       (<[ ["w"] := Dir ]> ∅)))))
       [].

End Fs.
(** ** taskweaver/ces/server/session_manager.py and routes.py *)

Module Server.

Import Posix Fs.

Inductive exn : Type :=
| KeyError (msg : string)
| ValueError (msg : string)
| OSError (e : oserror)
| EnvironmentError (msg : string)
| DecodeError (msg : string).

Definition str_of_oserror (e : oserror) : string :=
  match e with
  | FileNotFoundError => "No such file or directory"
  | IsADirectoryError => "Is a directory"
  | NotADirectoryError => "Not a directory"
  | FileExistsError => "File exists"
  end.

Definition str_of_exn (e : exn) : string :=
  match e with
  | KeyError m => "'" +:+ m +:+ "'"
  | ValueError m => m
  | OSError e => str_of_oserror e
  | EnvironmentError m => m
  | DecodeError m => m
  end.

(** [taskweaver.ces.environment.Environment] is outside this repository's
    sources: the kernel host is what its two calls used here answer. *)
Record Environment : Type := mkEnvironment {
  env_start_session : string -> string -> string -> result exn unit;
  env_stop_session : string -> result exn unit
}.

(** [ServerSession], without its two time stamps. *)
Record ServerSession : Type := mkServerSession {
  session_id : string;
  environment : Environment;
  loaded_plugins : list string;
  execution_count : Z;
  cwd : string;
  session_dir : string
}.

(** [ServerSessionManager] with what it acts on: the id→session map, the
    file system, and the records handed to the module's logger. *)
Record ServerSessionManager : Type := mkManager {
  work_dir : string;
  _sessions : gmap string ServerSession;
  disk : fs;
  logged : list (string * string)
}.

Definition S : Type := ServerSessionManager.

Definition log (level line : string) : M S exn unit :=
  modify (fun m => mkManager (work_dir m) (_sessions m) (disk m)
                     (logged m ++ [(level, line)])).

Definition set_sessions (f : gmap string ServerSession -> gmap string ServerSession)
  : M S exn unit :=
  modify (fun m => mkManager (work_dir m) (f (_sessions m)) (disk m) (logged m)).

Definition set_disk (d : fs) : M S exn unit :=
  modify (fun m => mkManager (work_dir m) (_sessions m) d (logged m)).

Definition session_exists (session_id : string) (m : S) : bool :=
  bool_decide (is_Some (_sessions m !! session_id)).

Definition get_session (session_id : string) (m : S) : option ServerSession :=
  _sessions m !! session_id.

Definition active_session_count (m : S) : Z := Z.of_nat (size (_sessions m)).

Definition os_makedirs (p : string) : M S exn unit :=
  let! m := get in
  match makedirs (disk m) p with
  | Ok d => set_disk d
  | Raise e => raise (OSError e)
  end.

Section Manager.

(** [Environment(env_id=..., env_dir=..., env_mode=EnvMode.Local)]. *)
Variable new_environment : string -> Environment.

Definition create_session (session_id : string) (cwd : option string)
  : M S exn ServerSession :=
  let! m := get in
  if session_exists session_id m
  then raise (ValueError ("Session " +:+ session_id +:+ " already exists"))
  else
    let session_dir := join (work_dir m) ["sessions"; session_id] in
    os_makedirs session_dir ;;
    let cwd := match cwd with
               | None => join session_dir ["cwd"]
               | Some c => c
               end in
    os_makedirs cwd ;;
    let environment := new_environment (work_dir m) in
    lift (env_start_session environment session_id session_dir cwd) ;;
    let session := mkServerSession session_id environment [] 0 cwd session_dir in
    set_sessions (insert session_id session) ;;
    log "info" ("Created session " +:+ session_id +:+ " with cwd=" +:+ cwd) ;;
    ret session.

(** [stop_session]: the [try] around the environment's stop, its
    [except Exception] and its [finally]. *)
Definition stop_session (session_id : string) : M S exn unit :=
  let! m := get in
  match _sessions m !! session_id with
  | None => raise (KeyError ("Session " +:+ session_id +:+ " not found"))
  | Some session =>
      try_except
        (lift (env_stop_session (environment session) session_id))
        (fun e => log "error" ("Error stopping session " +:+ session_id
                               +:+ ": " +:+ str_of_exn e)) ;;
      set_sessions (delete session_id) ;;
      log "info" ("Stopped session " +:+ session_id)
  end.

(** [get_artifact_path]: the file under [cwd], else under
    [session_dir/cwd], else [None]. *)
Definition get_artifact_path (session_id filename : string) (m : S)
  : option string :=
  match get_session session_id m with
  | None => None
  | Some session =>
      let artifact_path := join (cwd session) [filename] in
      if isfile (disk m) artifact_path then Some artifact_path
      else
        let artifact_path := join (session_dir session) ["cwd"; filename] in
        if isfile (disk m) artifact_path then Some artifact_path
        else None
  end.

Definition upload_file (session_id filename : string) (content : list Byte.byte)
  : M S exn string :=
  let! m := get in
  match get_session session_id m with
  | None => raise (KeyError ("Session " +:+ session_id +:+ " not found"))
  | Some session =>
      let safe_filename := basename filename in
      let file_path := join (cwd session) [safe_filename] in
      match write_file (disk m) file_path content with
      | Raise e => raise (OSError e)
      | Ok d =>
          set_disk d ;;
          log "info" ("Uploaded file " +:+ safe_filename +:+ " to session "
                      +:+ session_id) ;;
          ret file_path
      end
  end.

(** [cleanup_all]: every session is stopped, an error on the way is
    logged and skipped. *)
Fixpoint cleanup_loop (session_ids : list string) : M S exn unit :=
  match session_ids with
  | [] => ret tt
  | session_id :: rest =>
      try_except (stop_session session_id)
        (fun e => log "error" ("Error cleaning up session " +:+ session_id
                               +:+ ": " +:+ str_of_exn e)) ;;
      cleanup_loop rest
  end.

Definition cleanup_all : M S exn unit :=
  let! m := get in
  cleanup_loop (elements (dom (_sessions m))) ;;
  log "info" "Cleaned up all sessions".

(** *** routes.py *)

(** What a handler answers: a JSON body with its status, a file served
    from disk, or the status and detail of a raised [HTTPException]. *)
Inductive response : Type :=
| Json (status : Z) (body : list (string * string))
| FileResponse (path filename media_type : string)
| HTTPException (status_code : Z) (detail : string).

Definition status_of (r : response) : Z :=
  match r with
  | Json status _ => status
  | FileResponse _ _ _ => 200
  | HTTPException status_code _ => status_code
  end.

(** [taskweaver.utils.create_id]. *)
Variable create_id : string.

(** [POST /sessions]; a missing or empty id is replaced by a generated
    one. *)
Definition create_session_route (requested : option string) (cwd : option string)
  : S -> response * S :=
  fun m =>
    let session_id :=
      match requested with
      | Some id => if truthy id then id else "session-" +:+ create_id
      | None => "session-" +:+ create_id
      end in
    if session_exists session_id m
    then (HTTPException 409 ("Session " +:+ session_id +:+ " already exists"), m)
    else
      match create_session session_id cwd m with
      | (Ok session, m') =>
          (Json 201 [("session_id", Server.session_id session);
                     ("status", "created"); ("cwd", Server.cwd session)], m')
      | (Raise e, m') =>
          (HTTPException 500 (str_of_exn e),
           snd (log "error" ("Failed to create session " +:+ session_id
                             +:+ ": " +:+ str_of_exn e) m'))
      end.

(** [DELETE /sessions/{session_id}]. *)
Definition stop_session_route (session_id : string) : S -> response * S :=
  fun m =>
    if negb (session_exists session_id m)
    then (HTTPException 404 ("Session " +:+ session_id +:+ " not found"), m)
    else
      match stop_session session_id m with
      | (Ok _, m') =>
          (Json 200 [("session_id", session_id); ("status", "stopped")], m')
      | (Raise e, m') =>
          (HTTPException 500 (str_of_exn e),
           snd (log "error" ("Failed to stop session " +:+ session_id
                             +:+ ": " +:+ str_of_exn e) m'))
      end.

(** [GET /sessions/{session_id}]. *)
Definition get_session_info_route (session_id : string) : S -> response * S :=
  fun m =>
    match get_session session_id m with
    | None => (HTTPException 404 ("Session " +:+ session_id +:+ " not found"), m)
    | Some session =>
        (Json 200 [("session_id", Server.session_id session);
                   ("status", "running"); ("cwd", Server.cwd session)], m)
    end.

Section Routes.

(** [base64.b64decode], [str.encode("utf-8")] and [mimetypes.guess_type]
    are library calls. *)
Variable b64decode : string -> result exn (list Byte.byte).
Variable encode_utf8 : string -> result exn (list Byte.byte).
Variable guess_type : string -> option string.

(** The chat application's sessions, when that module can be imported:
    the execution directory of a chat session. *)
Variable chat_manager : option (string -> option string).

(** [os.path.realpath] without symbolic links: the absolute path with
    ["."], [".."] and empty names resolved. *)
Fixpoint normalize (cur : loc) (names : list string) : loc :=
  match names with
  | [] => cur
  | name :: rest =>
      if String.eqb name "" || String.eqb name "." then normalize cur rest
      else if String.eqb name ".." then normalize (parent cur) rest
      else normalize (cur ++ [name]) rest
  end.

Definition realpath (d : fs) (p : string) : string :=
  "/" +:+ Py.join "/" (normalize (start d p) (split p)).

(** [POST /sessions/{session_id}/files]. *)
Definition upload_file_route
  (session_id filename content encoding : string) : S -> response * S :=
  fun m =>
    if negb (session_exists session_id m)
    then (HTTPException 404 ("Session " +:+ session_id +:+ " not found"), m)
    else
      let decoded :=
        if String.eqb encoding "base64" then b64decode content
        else encode_utf8 content in
      let attempt :=
        match decoded with
        | Ok content => upload_file session_id filename content m
        | Raise e => (Raise e, m)
        end in
      match attempt with
      | (Ok file_path, m') =>
          (Json 200 [("filename", filename); ("status", "uploaded");
                     ("path", file_path)], m')
      | (Raise e, m') =>
          (HTTPException 500 (str_of_exn e),
           snd (log "error" ("Failed to upload file " +:+ filename
                             +:+ " to session " +:+ session_id +:+ ": "
                             +:+ str_of_exn e) m'))
      end.

(** [GET /sessions/{session_id}/artifacts/{filename:path}]. *)
Definition download_artifact (session_id filename : string) (m : S) : response :=
  let artifact_path :=
    if session_exists session_id m
    then get_artifact_path session_id filename m
    else
      match chat_manager with
      | None => None
      | Some chat_get_session =>
          match chat_get_session session_id with
          | None => None
          | Some execution_cwd =>
              let potential_path := join execution_cwd [filename] in
              let real_potential_path := realpath (disk m) potential_path in
              let real_cwd := realpath (disk m) execution_cwd in
              if startswith real_cwd real_potential_path
                 && isfile (disk m) potential_path
              then Some potential_path
              else None
          end
      end in
  match artifact_path with
  | None => HTTPException 404 ("Artifact " +:+ filename +:+ " not found")
  | Some artifact_path =>
      let mime_type :=
        match guess_type artifact_path with
        | Some t => t
        | None => "application/octet-stream"
        end in
      FileResponse artifact_path (basename filename) mime_type
  end.

End Routes.

End Manager.

(** A kernel environment that starts, and whose stop raises. *)
Definition failing_environment : Environment :=
  mkEnvironment (fun _ _ _ => Ok tt)
                (fun _ => Raise (EnvironmentError "Cleanup error")).

Definition example_session : ServerSession :=
  mkServerSession "s1" failing_environment [] 0
    "/w/sessions/s1/cwd" "/w/sessions/s1".

(** A manager with the one session ["s1"] over [example_disk]. *)
Definition example_manager : ServerSessionManager :=
  mkManager "/w" {[ "s1" := example_session ]} example_disk [].


(** *** routes.py: the API key *)

(** [client_host in ("127.0.0.1", "localhost", "::1")]; a request without
    a client has no host. *)
Definition is_local (client_host : option string) : bool :=
  match client_host with
  | Some host => existsb (String.eqb host) ["127.0.0.1"; "localhost"; "::1"]
  | None => false
  end.

(** Truth value of an optional [str]: neither [None] nor empty. *)
Definition given (key : option string) : bool :=
  match key with
  | Some k => truthy k
  | None => false
  end.

(** [verify_api_key]: [api_key] is the key the application was configured
    with, [client_host] is [request.client.host] and [provided_key] the
    [X-API-Key] header of the request. *)
Definition verify_api_key (api_key client_host provided_key : option string)
  : result response unit :=
  if negb (given api_key) then Ok tt
  else if is_local client_host then
    if given provided_key && negb (bool_decide (provided_key = api_key))
    then Raise (HTTPException 401 "Invalid API key")
    else Ok tt
  else if negb (given provided_key)
  then Raise (HTTPException 401 "API key required")
  else if negb (bool_decide (provided_key = api_key))
  then Raise (HTTPException 401 "Invalid API key")
  else Ok tt.

(** *** session_manager.py: plugins *)

Section Plugins.

(** [Environment.load_plugin(session_id, plugin_name, plugin_impl,
    plugin_config)] of the session's kernel environment; the
    configuration is a dictionary the manager hands on unread. *)
Variable plugin_config : Type.
Variable env_load_plugin :
  Environment -> string -> string -> string -> plugin_config -> result exn unit.

(** [session.loaded_plugins] after the plugin has been loaded: the name is
    appended unless it is there already. *)
Definition with_plugin (plugin_name : string) (session : ServerSession)
  : ServerSession :=
  mkServerSession (session_id session) (environment session)
    (if negb (existsb (String.eqb plugin_name) (loaded_plugins session))
     then loaded_plugins session ++ [plugin_name]
     else loaded_plugins session)
    (execution_count session) (cwd session) (session_dir session).

Definition load_plugin (session_id plugin_name plugin_code : string)
  (config : plugin_config) : M S exn unit :=
  let! m := get in
  match get_session session_id m with
  | None => raise (KeyError ("Session " +:+ session_id +:+ " not found"))
  | Some session =>
      lift (env_load_plugin (environment session) session_id plugin_name
              plugin_code config) ;;
      set_sessions (insert session_id (with_plugin plugin_name session)) ;;
      log "info" ("Loaded plugin " +:+ plugin_name +:+ " in session "
                  +:+ session_id)
  end.

(** [POST /sessions/{session_id}/plugins]. *)
Definition load_plugin_route (session_id name code : string)
  (config : plugin_config) : S -> response * S :=
  fun m =>
    if negb (session_exists session_id m)
    then (HTTPException 404 ("Session " +:+ session_id +:+ " not found"), m)
    else
      match load_plugin session_id name code config m with
      | (Ok _, m') => (Json 200 [("name", name); ("status", "loaded")], m')
      | (Raise e, m') =>
          (HTTPException 400 ("Failed to load plugin: " +:+ str_of_exn e),
           snd (log "error" ("Failed to load plugin " +:+ name +:+ " in session "
                             +:+ session_id +:+ ": " +:+ str_of_exn e) m'))
      end.

End Plugins.

End Server.
(** ** taskweaver/ces/runtime/context.py *)

Module Context.

Inductive exn : Type :=
| AttributeError (msg : string)
| OtherError (msg : string).

(** What [getattr(value, "__module__", "")] finds when the attribute is
    there: a [str] or something else. *)
Inductive py_attr : Type :=
| AttrStr (s : string)
| AttrOther.

(** The pieces of the rendering of an array: [value.shape], [value.dtype]
    and the result of [numpy.array2string]. *)
Record ndarray_text : Type := mkNdarrayText {
  shape : string;
  dtype : string;
  array2string : string
}.

(** A value of the kernel namespace, as far as [extract_visible_variables]
    looks at it. *)
Record value : Type := mkValue {
  (** [isinstance(value, (types.ModuleType, types.FunctionType))] *)
  is_module_or_function : bool;
  (** [isinstance(value, Plugin)] *)
  is_plugin : bool;
  (** the [__module__] attribute, [None] when the value has none *)
  module_attr : option py_attr;
  (** [numpy] is importable and [isinstance(value, numpy.ndarray)]: what
      the array rendering gives, or the exception it raises *)
  as_ndarray : option (result exn ndarray_text);
  (** [isinstance(value, str)]: the characters *)
  as_str : option string;
  (** [repr(value)] *)
  repr : result exn string
}.

Definition ignore_names : list string :=
  [ "__builtins__"; "In"; "Out"; "get_ipython"; "exit"; "quit";
    "pd"; "np"; "plt";
    "original_ps1"; "is_wsl"; "PS1"; "REPLHooks" ].

Definition name_in (x : string) (l : list string) : bool :=
  existsb (String.eqb x) l.

(** [getattr(value, "__module__", "").startswith("taskweaver_ext.plugin")];
    an attribute that is not a [str] has no such method. *)
Definition module_is_plugin (v : value) : result exn bool :=
  match module_attr v with
  | None => Ok (startswith "taskweaver_ext.plugin" "")
  | Some (AttrStr s) => Ok (startswith "taskweaver_ext.plugin" s)
  | Some AttrOther => Raise (AttributeError "startswith")
  end.

Definition render_ndarray (r : result exn ndarray_text) : string :=
  match r with
  | Ok t => "ndarray shape=" +:+ shape t +:+ " dtype=" +:+ dtype t
            +:+ " value=" +:+ array2string t
  | Raise _ => "<ndarray>"
  end.

Definition render_plain (v : value) : string :=
  match as_str v with
  | Some s => s
  | None =>
      match repr v with
      | Ok s => s
      | Raise _ => "<unrepresentable>"
      end
  end.

(** One turn of the loop over [local_ns.items()]: [None] for [continue],
    otherwise the rendered entry. *)
Definition visit_item (name : string) (v : value)
  : result exn (option (string * string)) :=
  if startswith "_" name || name_in name ignore_names then Ok None
  else if is_module_or_function v then Ok None
  else
    match (if is_plugin v then Ok true else module_is_plugin v) with
    | Raise e => Raise e
    | Ok true => Ok None
    | Ok false =>
        match as_ndarray v with
        | Some r => Ok (Some (name, take 500 (render_ndarray r)))
        | None => Ok (Some (name, take 500 (render_plain v)))
        end
    end.

Fixpoint extract_loop (items : list (string * value)) (visible : list (string * string))
  : result exn (list (string * string)) :=
  match items with
  | [] => Ok visible
  | (name, v) :: rest =>
      match visit_item name v with
      | Raise e => Raise e
      | Ok None => extract_loop rest visible
      | Ok (Some entry) => extract_loop rest (visible ++ [entry])
      end
  end.

(** [ExecutorPluginContext]: of its state, [latest_variables]. *)
Record ExecutorPluginContext : Type := mkContext {
  latest_variables : list (string * string)
}.

(** [extract_visible_variables]: the namespace is a dictionary, here the
    list of its items in order. *)
Definition extract_visible_variables (local_ns : list (string * value))
  : M ExecutorPluginContext exn (list (string * string)) :=
  let! visible := lift (extract_loop local_ns []) in
  modify (fun _ => mkContext visible) ;;
  ret visible.

(** The snapshot alone. *)
Definition snapshot (local_ns : list (string * value))
  : result exn (list (string * string)) :=
  fst (extract_visible_variables local_ns (mkContext [])).

(** Values for examples: a plain object with the given [repr], a string,
    and an array whose rendering raises. *)
Definition plain_value (r : result exn string) : value :=
  mkValue false false None None None r.

Definition str_value (s : string) : value :=
  mkValue false false None None (Some s) (Ok ("'" +:+ s +:+ "'")).

Definition broken_array : value :=
  mkValue false false (Some (AttrStr "numpy")) (Some (Raise (OtherError "repr")))
    None (Raise (OtherError "repr")).

(** Whether rendering the value raises: the array rendering for an
    array, [repr] for any other value that is not a [str]. *)
Definition rendering_raises (v : value) : bool :=
  match as_ndarray v with
  | Some (Raise _) => true
  | Some (Ok _) => false
  | None =>
      match as_str v, repr v with
      | None, Raise _ => true
      | _, _ => false
      end
  end.

(** Whether the loop skips the entry: by its name, or because the value
    is a module, a function or a plugin instance. *)
Definition excluded (name : string) (v : value) : Prop :=
  startswith "_" name = true \/ name_in name ignore_names = true \/
  is_module_or_function v = true \/ is_plugin v = true \/
  module_is_plugin v = Ok true.

End Context.
(** ** taskweaver/ces/client/execution_client.py *)

Module Client.

Import Server.

(** [ExecutionClientError(message, status_code)]. *)
Inductive exn : Type :=
| ExecutionClientError (message : string) (status_code : option Z).

(** [ExecutionClient], of its fields those that [start] and [stop] read
    or write. *)
Record ExecutionClient : Type := mkClient {
  session_id : string;
  cwd : option string;
  _started : bool
}.

(** The client together with the server it talks to. *)
Record world : Type := mkWorld {
  client : ExecutionClient;
  server : ServerSessionManager
}.

Definition detail_of (r : response) : string :=
  match r with
  | HTTPException _ detail => detail
  | _ => ""
  end.

Definition json_of (r : response) : list (string * string) :=
  match r with
  | Json _ body => body
  | _ => []
  end.

(** [d.get(key)]. *)
Fixpoint dict_get (key : string) (d : list (string * string)) : option string :=
  match d with
  | [] => None
  | (k, v) :: rest => if String.eqb k key then Some v else dict_get key rest
  end.

Definition _handle_response (response : Server.response)
  : result exn (list (string * string)) :=
  if 400 <=? status_of response
  then Raise (ExecutionClientError
                ("Server error (" +:+ str_of_int (status_of response) +:+ "): "
                 +:+ detail_of response)
                (Some (status_of response)))
  else Ok (json_of response).

(** A request that reaches the server: the handler runs on the server's
    state and its answer comes back. *)
Definition send (handler : ServerSessionManager -> response * ServerSessionManager)
  : M world exn response :=
  fun w =>
    let (r, server') := handler (server w) in
    (Ok r, mkWorld (client w) server').

Definition set_client (f : ExecutionClient -> ExecutionClient) : M world exn unit :=
  modify (fun w => mkWorld (f (client w)) (server w)).

Definition set_started (b : bool) : M world exn unit :=
  set_client (fun c => mkClient (session_id c) (cwd c) b).

Section Client.

Variable new_environment : string -> Environment.
Variable create_id : string.

Definition start : M world exn unit :=
  let! w := get in
  let self := client w in
  if _started self then ret tt
  else
    try_except
      (let! response :=
         send (create_session_route new_environment create_id
                 (Some (session_id self)) (cwd self)) in
       let! result := lift (_handle_response response) in
       set_client (fun c =>
         mkClient (session_id c)
           (match dict_get "cwd" result with
            | Some cwd => Some cwd
            | None => cwd c
            end)
           (_started c)) ;;
       set_started true)
      (fun e =>
         match e with
         | ExecutionClientError _ (Some 409) => set_started true
         | _ => raise e
         end).

Definition stop : M world exn unit :=
  let! w := get in
  let self := client w in
  if negb (_started self) then ret tt
  else
    try_except
      (let! response := send (stop_session_route (session_id self)) in
       lift (_handle_response response) ;;
       set_started false)
      (fun e =>
         match e with
         | ExecutionClientError _ (Some 404) => set_started false
         | _ => raise e
         end).

Definition get_session_info : M world exn (list (string * string)) :=
  let! w := get in
  let! response := send (get_session_info_route (session_id (client w))) in
  lift (_handle_response response).

End Client.


Section Files.

(** [base64.b64encode(content).decode("ascii")] on the client, and the
    two decodings of the upload route. *)
Variable b64encode : list Byte.byte -> string.
Variable b64decode : string -> result Server.exn (list Byte.byte).
Variable encode_utf8 : string -> result Server.exn (list Byte.byte).

(** [upload_file]: the content goes out in base 64, and the path the
    server answers comes back. *)
Definition upload_file (filename : string) (content : list Byte.byte)
  : M world exn string :=
  let! w := get in
  let! response :=
    send (upload_file_route b64decode encode_utf8 (session_id (client w))
            filename (b64encode content) "base64") in
  let! result := lift (_handle_response response) in
  ret (match dict_get "path" result with
       | Some path => path
       | None => ""
       end).

End Files.

End Client.
(** ** routes.py: streaming execution

    [execute_code] with [stream: true] creates the queue of the execution
    and starts [_execute_streaming] as a task of the event loop. The kernel
    runs in a thread of the pool; what it prints reaches the queue through
    [asyncio.run_coroutine_threadsafe], its result through the future
    [run_in_executor] returns. Both hand a callback to the loop with
    [call_soon_threadsafe]; the loop runs its callbacks first in, first
    out. *)

Module Streaming.

(** [ExecutionArtifact] and [ExecutionResult] of taskweaver.ces.common,
    with the fields the handler reads. *)
Record ExecutionArtifact : Type := mkArtifact {
  art_name : string;
  art_type : string;
  art_mime_type : string;
  art_original_name : string;
  art_file_name : string;
  art_file_content : string;
  art_file_content_encoding : string;
  art_preview : string
}.

Record ExecutionResult : Type := mkResult {
  execution_id : string;
  is_success : bool;
  error : option string;
  output : option string;
  stdout : list string;
  stderr : list string;
  log : list (string * string * string);
  artifact : list ExecutionArtifact;
  variables : list (string * string)
}.

(** [ArtifactModel.model_dump()]. *)
Record ArtifactModel : Type := mkArtifactModel {
  name : string;
  type : string;
  mime_type : string;
  original_name : string;
  file_name : string;
  file_content : option string;
  file_content_encoding : option string;
  preview : string;
  download_url : option string
}.

(** The ["data"] of a queue item. *)
Inductive data : Type :=
| OutputData (type text : string)
| ResultData (execution_id : string) (is_success : bool)
    (error : option string) (output : option string)
    (stdout stderr : list string) (log : list (string * string * string))
    (artifact : list ArtifactModel) (variables : list (string * string))
| DoneData.

(** A queue item [{"event": ..., "data": ...}]. *)
Record item : Type := mkItem {
  event : string;
  item_data : data
}.

(** What the kernel does with one execution: the calls of [on_output] it
    makes from the pool thread while it runs, in order, and then the
    result it returns or the exception it raises (its [str]). *)
Record execution : Type := mkExecution {
  outputs : list (string * string);
  outcome : result string ExecutionResult
}.

Section Execute.

Variable session_id : string.
Variable exec_id : string.
Variable base_url : string.

Definition stream_key : string := session_id +:+ ":" +:+ exec_id.

(** The item [on_output] puts. *)
Definition output_item (o : string * string) : item :=
  mkItem "output" (OutputData (fst o) (snd o)).

Definition convert_artifact (art : ExecutionArtifact) : ArtifactModel :=
  mkArtifactModel (art_name art) (art_type art) (art_mime_type art)
    (art_original_name art) (art_file_name art)
    (if truthy (art_file_content art) then Some (art_file_content art) else None)
    (if truthy (art_file_content art)
     then Some (art_file_content_encoding art) else None)
    (art_preview art)
    (if truthy (art_file_name art)
     then Some (base_url +:+ "/api/v1/sessions/" +:+ session_id
                +:+ "/artifacts/" +:+ art_file_name art)
     else None).

(** The item of the [try] branch, and the one of [except Exception]. *)
Definition result_item (o : result string ExecutionResult) : item :=
  match o with
  | Ok r =>
      mkItem "result"
        (ResultData (execution_id r) (is_success r) (error r) (output r)
           (stdout r) (stderr r) (log r)
           (map convert_artifact (artifact r)) (variables r))
  | Raise e =>
      mkItem "result" (ResultData exec_id false (Some e) None [] [] [] [] [])
  end.

Definition done_item : item := mkItem "done" DoneData.

(** [_execute_streaming] after its [await]: what it puts once the awaited
    execution is over, the result and then, in its [finally], the end of
    the stream. (The [finally] goes on to sleep and to forget the stream
    key; that is not followed here.) *)
Definition resume (o : result string ExecutionResult) : list item :=
  [result_item o; done_item].

(** The callbacks waiting in the loop. *)
Inductive handle : Type :=
| HEnsureFuture (it : item)
    (** handed over by [run_coroutine_threadsafe]: wraps [queue.put(it)]
        in a task, whose first step is scheduled *)
| HPutStep (it : item)
    (** that first step: the put, which an unbounded queue takes at once *)
| HSetState (o : result string ExecutionResult)
    (** handed over when the pool thread is done: completes the future
        [_execute_streaming] awaits, which schedules its wake-up *)
| HWakeup (o : result string ExecutionResult).
    (** the wake-up: [_execute_streaming] goes on after its [await] *)

(** [on_output], the callback [_execute_streaming] passes to the
    execution: [run_coroutine_threadsafe(queue.put(...), loop)]. *)
Definition on_output (stream_name text : string) : handle :=
  HEnsureFuture (output_item (stream_name, text)).

(** [HPutStep] and [HWakeup] put their items when they run; the other two
    schedule one of these. *)
Definition puts_now (h : handle) : bool :=
  match h with
  | HPutStep _ | HWakeup _ => true
  | HEnsureFuture _ | HSetState _ => false
  end.

Record state : Type := mkState {
  (** the pool thread: what it has still to print and how it will end;
      [None] once it is over *)
  thread : option (list (string * string) * result string ExecutionResult);
  (** the loop's callbacks, the next to run first *)
  ready : list handle;
  (** the items put on the queue, the oldest first *)
  queue : list item
}.

(** [_execute_streaming] up to its [await]: the execution is handed to
    the pool, the loop has nothing to run and the queue is empty. *)
Definition init (e : execution) : state :=
  mkState (Some (outputs e, outcome e)) [] [].

(** A step of the pool thread: one more [on_output], or the end of the
    execution. *)
Definition thread_step (s : state) : option state :=
  match thread s with
  | Some (o :: rest, end_) =>
      Some (mkState (Some (rest, end_))
                    (ready s ++ [on_output (fst o) (snd o)]) (queue s))
  | Some ([], end_) =>
      Some (mkState None (ready s ++ [HSetState end_]) (queue s))
  | None => None
  end.

(** A step of the loop: it runs the first callback. *)
Definition loop_step (s : state) : option state :=
  match ready s with
  | HEnsureFuture it :: rest =>
      Some (mkState (thread s) (rest ++ [HPutStep it]) (queue s))
  | HPutStep it :: rest =>
      Some (mkState (thread s) rest (queue s ++ [it]))
  | HSetState o :: rest =>
      Some (mkState (thread s) (rest ++ [HWakeup o]) (queue s))
  | HWakeup o :: rest =>
      Some (mkState (thread s) rest (queue s ++ resume o))
  | [] => None
  end.

(** A bound on the steps left: three for each thing the thread still
    does, two or one for a callback. *)
Definition hops (h : handle) : nat := if puts_now h then 1%nat else 2%nat.

Definition steps_left (s : state) : nat :=
  (match thread s with
   | Some (outs, _) => 3 * S (length outs)
   | None => 0
   end + list_sum (map hops (ready s)))%nat.

(** The thread and the loop run side by side. *)
Definition step (s s' : state) : Prop :=
  thread_step s = Some s' \/ loop_step s = Some s'.

Definition terminal (s : state) : Prop := thread s = None /\ ready s = [].

(** One step under a scheduler that prefers the thread or the loop, and
    a run under a list of such choices. *)
Definition next (prefer_thread : bool) (s : state) : state :=
  let first := if prefer_thread then thread_step s else loop_step s in
  let second := if prefer_thread then loop_step s else thread_step s in
  match first, second with
  | Some s', _ => s'
  | None, Some s' => s'
  | None, None => s
  end.

Definition run (choices : list bool) (s : state) : state :=
  fold_left (fun s c => next c s) choices s.

(** What the queue is to receive. *)
Definition expected (e : execution) : list item :=
  map output_item (outputs e) ++ [result_item (outcome e); done_item].

End Execute.

Section Stream.

(** [json.dumps]. *)
Variable json_dumps : data -> string.

Definition sse (it : item) : string :=
  "event: " +:+ event it +:+ String "010" "data: " +:+ json_dumps (item_data it)
  +:+ String "010" (String "010" "").

Definition keepalive : string := ": keepalive" +:+ String "010" (String "010" "").

(** [event_generator] of [stream_execution], over what the successive
    [queue.get()] give: an item, or [None] for a timeout. *)
Fixpoint event_generator (gets : list (option item)) : list string :=
  match gets with
  | [] => []
  | None :: rest => keepalive :: event_generator rest
  | Some it :: rest =>
      sse it :: (if String.eqb (event it) "done" then []
                 else event_generator rest)
  end.

End Stream.

(** An execution that prints two lines and succeeds, one that prints
    nothing, and one that raises. *)
Definition example_result : ExecutionResult :=
  mkResult "e2" true None None
    [String "a" (String "010" ""); String "b" (String "010" "")] [] [] [] [].

Definition example_execution : execution :=
  mkExecution [("stdout", String "a" (String "010" ""));
               ("stdout", String "b" (String "010" ""))]
              (Ok example_result).

Definition silent_execution : execution := mkExecution [] (Ok example_result).

Definition raising_execution : execution :=
  mkExecution [("stdout", "partial")] (Raise "'Session s1 not found'").

End Streaming.
(** ** session_manager.py: execution and inline artifacts; models.py *)

Module Execution.

Import Posix Fs Server Streaming.

(** The UTF-8 encoding of a character below 256: one byte below 128, two
    above. *)
Definition utf8_char (c : ascii) : list Byte.byte :=
  let n := N_of_ascii c in
  if (n <? 128)%N then [byte_of_ascii c]
  else [byte_of_ascii (ascii_of_N (192 + n / 64));
        byte_of_ascii (ascii_of_N (128 + n mod 64))].

(** [s.encode("utf-8")], what a file opened with [encoding="utf-8"]
    receives. *)
Definition utf8 (s : string) : list Byte.byte :=
  flat_map utf8_char (list_ascii_of_string s).

Definition mime_to_ext : list (string * string) :=
  [ ("image/png", ".png"); ("image/jpeg", ".jpg"); ("image/gif", ".gif");
    ("image/svg+xml", ".svg"); ("text/html", ".html");
    ("application/json", ".json") ].

(** [d.get(key, default)] on a dictionary of strings. *)
Fixpoint dict_get (key : string) (d : list (string * string)) (default : string)
  : string :=
  match d with
  | [] => default
  | (k, v) :: rest => if String.eqb k key then v else dict_get key rest default
  end.

(** The extension [_save_inline_artifacts] gives to the file of an
    artifact of this mime type. *)
Definition extension (mime_type : string) : string :=
  if truthy mime_type then dict_get mime_type mime_to_ext ".bin" else ".bin".

(** The name of that file. *)
Definition inline_file_name (artifact : ExecutionArtifact) : string :=
  art_name artifact +:+ "_image" +:+ extension (art_mime_type artifact).

(** [artifact.file_name = file_name; artifact.original_name = file_name]. *)
Definition named (file_name : string) (artifact : ExecutionArtifact)
  : ExecutionArtifact :=
  mkArtifact (art_name artifact) (art_type artifact) (art_mime_type artifact)
    file_name file_name (art_file_content artifact)
    (art_file_content_encoding artifact) (art_preview artifact).

Section Kernel.

(** [Environment.execute_code(session_id, code, exec_id)] of the session's
    kernel environment, and [base64.b64decode]. *)
Variable env_execute_code :
  Environment -> string -> string -> string -> result exn ExecutionResult.
Variable b64decode : string -> result exn (list Byte.byte).

(** The bytes written for an inline artifact. *)
Definition inline_content (artifact : ExecutionArtifact)
  : result exn (list Byte.byte) :=
  if String.eqb (art_file_content_encoding artifact) "base64"
  then b64decode (art_file_content artifact)
  else Ok (utf8 (art_file_content artifact)).

(** One turn of the loop of [_save_inline_artifacts]: the artifact as it
    is afterwards. *)
Definition save_inline_artifact (session : ServerSession)
  (artifact : ExecutionArtifact) : M S exn ExecutionArtifact :=
  if negb (truthy (art_file_content artifact)) then ret artifact
  else if truthy (art_file_name artifact) then ret artifact
  else
    let file_name := inline_file_name artifact in
    let file_path := join (cwd session) [file_name] in
    try_except
      (let! content := lift (inline_content artifact) in
       let! m := get in
       match write_file (disk m) file_path content with
       | Raise e => raise (OSError e)
       | Ok d =>
           set_disk d ;;
           Server.log "debug" ("Saved inline artifact to " +:+ file_path) ;;
           ret (named file_name artifact)
       end)
      (fun e =>
         Server.log "warning"
           ("Failed to save inline artifact " +:+ art_name artifact
            +:+ ": " +:+ str_of_exn e) ;;
         ret artifact).

(** [_save_inline_artifacts], over [result.artifact]: the artifacts as
    they are afterwards. *)
Fixpoint _save_inline_artifacts (session : ServerSession)
  (artifacts : list ExecutionArtifact) : M S exn (list ExecutionArtifact) :=
  match artifacts with
  | [] => ret []
  | artifact :: rest =>
      let! artifact' := save_inline_artifact session artifact in
      let! rest' := _save_inline_artifacts session rest in
      ret (artifact' :: rest')
  end.

Definition with_artifacts (artifacts : list ExecutionArtifact)
  (r : ExecutionResult) : ExecutionResult :=
  mkResult (execution_id r) (is_success r) (error r) (output r) (stdout r)
    (stderr r) (log r) artifacts (variables r).

(** [session.execution_count += 1]. *)
Definition counted (session : ServerSession) : ServerSession :=
  mkServerSession (session_id session) (environment session)
    (loaded_plugins session) (execution_count session + 1) (cwd session)
    (session_dir session).

(** [execute_code], called without [on_output]. *)
Definition execute_code (session_id exec_id code : string)
  : M S exn ExecutionResult :=
  let! m := get in
  match get_session session_id m with
  | None => raise (KeyError ("Session " +:+ session_id +:+ " not found"))
  | Some session =>
      let! result :=
        lift (env_execute_code (environment session) session_id code exec_id) in
      let! artifacts := _save_inline_artifacts session (artifact result) in
      set_sessions (insert session_id (counted session)) ;;
      ret (with_artifacts artifacts result)
  end.

(** *** models.py *)

Record ExecuteCodeResponse : Type := mkExecuteCodeResponse {
  response_execution_id : string;
  response_is_success : bool;
  response_error : option string;
  response_output : option string;
  response_stdout : list string;
  response_stderr : list string;
  response_log : list (string * string * string);
  response_artifact : list ArtifactModel;
  response_variables : list (string * string)
}.

Definition artifact_from_execution (artifact : ExecutionArtifact) : ArtifactModel :=
  mkArtifactModel (art_name artifact) (art_type artifact)
    (art_mime_type artifact) (art_original_name artifact)
    (art_file_name artifact)
    (if truthy (art_file_content artifact)
     then Some (art_file_content artifact) else None)
    (if truthy (art_file_content artifact)
     then Some (art_file_content_encoding artifact) else None)
    (art_preview artifact) None.

Definition with_download_url (url : string) (a : ArtifactModel) : ArtifactModel :=
  mkArtifactModel (name a) (type a) (mime_type a) (original_name a)
    (file_name a) (file_content a) (file_content_encoding a) (preview a)
    (Some url).

Definition artifact_url (base_url session_id file_name : string) : string :=
  base_url +:+ "/api/v1/sessions/" +:+ session_id +:+ "/artifacts/" +:+ file_name.

Definition execution_result_to_response (result : ExecutionResult)
  (session_id base_url : string) : ExecuteCodeResponse :=
  let artifacts :=
    map (fun art =>
           let artifact_model := artifact_from_execution art in
           if truthy (art_file_name art)
           then with_download_url
                  (artifact_url base_url session_id (art_file_name art))
                  artifact_model
           else artifact_model)
        (artifact result) in
  mkExecuteCodeResponse (execution_id result) (is_success result) (error result)
    (output result) (stdout result) (stderr result) (log result) artifacts
    (variables result).

(** *** routes.py: [POST /sessions/{session_id}/execute] without
    streaming; the answer is the response model or the status and detail
    of an [HTTPException]. *)
Definition execute_code_route (session_id exec_id code base_url : string)
  : S -> result (Z * string) ExecuteCodeResponse * S :=
  fun m =>
    if negb (session_exists session_id m)
    then (Raise (404, "Session " +:+ session_id +:+ " not found"), m)
    else
      match execute_code session_id exec_id code m with
      | (Ok result, m') =>
          (Ok (execution_result_to_response result session_id base_url), m')
      | (Raise (KeyError _), m') =>
          (Raise (404, "Session " +:+ session_id +:+ " not found"), m')
      | (Raise e, m') =>
          (Raise (500, str_of_exn e),
           snd (Server.log "error" ("Execution failed in session " +:+ session_id
                                    +:+ ": " +:+ str_of_exn e) m'))
      end.

End Kernel.

(** An inline PNG and an inline SVG as the kernel returns them, and a
    kernel that answers with both. *)
Definition inline_png : ExecutionArtifact :=
  mkArtifact "fig" "image" "image/png" "" "" "eA==" "base64" "a figure".

Definition inline_svg : ExecutionArtifact :=
  mkArtifact "plot" "svg" "image/svg+xml" "" "" "<svg/>" "str" "a plot".

Definition example_kernel
  : Environment -> string -> string -> string -> result exn ExecutionResult :=
  fun _ _ _ exec_id =>
    Ok (mkResult exec_id true None None [] [] [] [inline_png; inline_svg] []).

End Execution.
(** ** context.py: artifacts and output

    [add_artifact], [_get_preview_by_type], [create_artifact_path],
    [set_output] and [get_normalized_output] of [ExecutorPluginContext].
    Files are opened in text mode; the encoding is taken to be UTF-8. *)

From Stdlib Require HexadecimalString HexadecimalNat.

Module Artifacts.

Import Posix Fs.

Inductive exn : Type :=
| Exception (msg : string)
| AttributeError (msg : string)
| TypeError (msg : string)
| OSError (e : oserror).

(** A [pandas.DataFrame], by what the context reads of it: the texts of
    [val.shape] and of [list(val.columns)], and what
    [val.to_csv(path, index=False)] writes. *)
Record DataFrame : Type := mkDataFrame {
  df_shape : string;
  df_columns : string;
  df_csv : string;
  df_str : string
}.

(** The objects handed to the context. [PyObj] is any other object, with
    its [str]; it has no [shape], [columns] or [to_csv]. *)
#[local] Set Warnings "-register-all".
Inductive pyobj : Type :=
| PyNone
| PyStr (s : string)
| PyTuple (items : list pyobj)
| PyList (items : list pyobj)
| PyFrame (d : DataFrame)
| PyObj (text : string).

(** An entry of [artifact_list]. *)
Record artifact : Type := mkArtifact {
  name : string;
  type : string;
  original_name : string;
  file : string;
  preview : string
}.

(** The context: its lists, and of its executor the count of executions
    and the working directory, with the disk under it. *)
Record state : Type := mkState {
  execution_idx : Z;
  executor_cwd : string;
  artifact_list : list artifact;
  output : list pyobj;
  disk : fs
}.

Definition with_artifact (a : artifact) (st : state) : state :=
  mkState (execution_idx st) (executor_cwd st) (artifact_list st ++ [a])
    (output st) (disk st).

Definition with_disk (d : fs) (st : state) : state :=
  mkState (execution_idx st) (executor_cwd st) (artifact_list st)
    (output st) d.

Definition with_output (o : list pyobj) (st : state) : state :=
  mkState (execution_idx st) (executor_cwd st) (artifact_list st) o (disk st).

Fixpoint zeros (k : nat) : string :=
  match k with
  | O => ""
  | S k' => String "0" (zeros k')
  end.

(** [f"{n:04x}"]: the hexadecimal digits of [n], in lower case, with
    zeros in front up to four characters. *)
Definition format_04x (n : nat) : string :=
  let digits := HexadecimalString.NilZero.string_of_uint (Nat.to_hex_uint n) in
  zeros (4 - String.length digits) +:+ digits.

Section Str.

(** [str] of a tuple or of a list. *)
Variable str_of_seq : pyobj -> string.

Definition str (v : pyobj) : string :=
  match v with
  | PyNone => "None"
  | PyStr s => s
  | PyTuple _ | PyList _ => str_of_seq v
  | PyFrame d => df_str d
  | PyObj text => text
  end.

Definition _get_preview_by_type (type : string) (val : pyobj)
  : result exn string :=
  if String.eqb type "chart" then Ok "chart"
  else if String.eqb type "df" then
    match val with
    | PyFrame d =>
        Ok ("DataFrame in shape " +:+ df_shape d +:+ " with columns "
            +:+ df_columns d)
    | _ => Raise (AttributeError "shape")
    end
  else if String.eqb type "file" || String.eqb type "txt" then
    Ok (take 100 (str val))
  else if String.eqb type "html" then Ok "Web Page"
  else Ok (str val).

Definition _get_obj_path (name : string) : M state exn string :=
  let! st := get in
  ret (join (executor_cwd st) [name]).

Definition create_artifact_path (name file_name type desc : string)
  : M state exn (string * string) :=
  let! st := get in
  let id := "obj_" +:+ str_of_int (execution_idx st) +:+ "_" +:+ type +:+ "_"
            +:+ format_04x (length (artifact_list st)) in
  let file_path := id +:+ "_" +:+ file_name in
  let! full_file_path := _get_obj_path file_path in
  modify (with_artifact (mkArtifact name type file_name file_path desc)) ;;
  ret (id, full_file_path).

(** [open(path, "w")]: the file is there and empty. *)
Definition open_w (path : string) : M state exn unit :=
  fun st =>
    match write_file (disk st) path [] with
    | Ok d => (Ok tt, with_disk d st)
    | Raise e => (Raise (OSError e), st)
    end.

(** [f.write(val)] and the end of the [with]. *)
Definition f_write (path : string) (val : pyobj) : M state exn unit :=
  match val with
  | PyStr s =>
      fun st =>
        match write_file (disk st) path (Execution.utf8 s) with
        | Ok d => (Ok tt, with_disk d st)
        | Raise e => (Raise (OSError e), st)
        end
  | _ => raise (TypeError "write() argument must be str")
  end.

(** [val.to_csv(path, index=False)]. *)
Definition to_csv (val : pyobj) (path : string) : M state exn unit :=
  match val with
  | PyFrame d =>
      fun st =>
        match write_file (disk st) path (Execution.utf8 (df_csv d)) with
        | Ok d' => (Ok tt, with_disk d' st)
        | Raise e => (Raise (OSError e), st)
        end
  | _ => raise (AttributeError "to_csv")
  end.

Definition add_artifact (name file_name type : string) (val : pyobj)
    (desc : option string) : M state exn string :=
  let! desc_preview :=
    match desc with
    | Some d => ret d
    | None => lift (_get_preview_by_type type val)
    end in
  let! created := create_artifact_path name file_name type desc_preview in
  let id := fst created in
  let path := snd created in
  (if String.eqb type "chart" then
     open_w path ;; f_write path val
   else if String.eqb type "df" then
     to_csv val path
   else if String.eqb type "file" || String.eqb type "txt"
           || String.eqb type "svg" || String.eqb type "html" then
     open_w path ;; f_write path val
   else raise (Exception "unsupported data type")) ;;
  ret id.

Definition set_output (out : pyobj) : M state exn unit :=
  match out with
  | PyList items => modify (fun st => with_output (output st ++ items) st)
  | _ =>
      modify (fun st =>
        with_output (output st ++ [PyTuple [PyStr (str out); PyStr ""]]) st)
  end.

Definition to_str (v : pyobj) : string := take 5000 (str v).

(** [list_value[1:]] keeps the kind of the sequence. *)
Definition rest_of (v : pyobj) : pyobj :=
  match v with
  | PyTuple items => PyTuple (tl items)
  | PyList items => PyList (tl items)
  | _ => v
  end.

Definition normalize_sequence (default_name : string) (v : pyobj)
    (list_value : list pyobj) : string * string :=
  let name :=
    match list_value with
    | first :: _ => to_str first
    | [] => default_name
    end in
  let val :=
    if (length list_value <=? 2)%nat then
      match list_value with
      | _ :: second :: _ => to_str second
      | _ => to_str PyNone
      end
    else to_str (rest_of v) in
  (name, val).

Definition normalize_tuple (i : nat) (v : pyobj) : string * string :=
  let default_name := "execution_result_" +:+ str_of_int (Z.of_nat i + 1) in
  match v with
  | PyTuple items | PyList items => normalize_sequence default_name v items
  | _ => (default_name, to_str v)
  end.

Definition get_normalized_output (st : state) : list (string * string) :=
  imap normalize_tuple (output st).

End Str.

(** A session directory to write to, and a [str] for sequences. *)
Definition example_state : state :=
  mkState 3 "/w/s1/cwd" [] []
    (mkFs {[ ["w"] := Dir; ["w"; "s1"] := Dir; ["w"; "s1"; "cwd"] := Dir ]} []).

Definition example_str (v : pyobj) : string :=
  match v with
  | PyTuple _ => "(...)"
  | _ => "[...]"
  end.

End Artifacts.

(** * Properties *)

(** ** The context compactor *)

Module CompactionProofs.
Import Compaction.

(** The three guards of [_try_compact] for [n] rounds and a previous end [e]. *)
Definition should_compact (cfg : CompactorConfig) (n e : Z) : Prop :=
  0 < n /\ threshold cfg <= n - e /\ Z.max e 0 < n - retain_recent cfg.

Definition compacting_line (cfg : CompactorConfig) (n e : Z) : string :=
  "ContextCompactor: Compacting rounds 1-" +:+ str_of_int (n - retain_recent cfg)
  +:+ " (uncompacted=" +:+ str_of_int (n - e)
  +:+ ", threshold=" +:+ str_of_int (threshold cfg) +:+ ")".

Definition complete_line (new_end : Z) : string :=
  "ContextCompactor: Compaction complete (rounds 1-" +:+ str_of_int new_end +:+ ")".

Lemma get_compaction_log_line line st :
  get_compaction (log_line line st) = get_compaction st.
Proof. reflexivity. Qed.

Lemma compacted_end_log_line line st :
  compacted_end (log_line line st) = compacted_end st.
Proof. reflexivity. Qed.

Lemma blank_strip s : blank s = true -> strip s = "".
Proof.
  unfold strip, blank. induction s as [|c s IH]; simpl; [reflexivity|].
  intros H. apply andb_true_iff in H as [Hc Hs]. rewrite Hc. auto.
Qed.

Lemma rstrip_empty s : rstrip s = "" -> blank s = true.
Proof.
  unfold blank. induction s as [|c s IH]; simpl; [reflexivity|].
  destruct (rstrip s) eqn:E; [|discriminate].
  destruct (isspace c); [|discriminate]. intros _. simpl. auto.
Qed.

Lemma lstrip_blank s : blank (lstrip s) = blank s.
Proof.
  unfold blank. induction s as [|c s IH]; simpl; [reflexivity|].
  destruct (isspace c) eqn:E; simpl; [exact IH | now rewrite E].
Qed.

Lemma strip_empty_iff s : strip s = "" <-> blank s = true.
Proof.
  split; [|apply blank_strip].
  unfold strip. intros H. apply rstrip_empty in H. now rewrite lstrip_blank in H.
Qed.

(** The validation [not summary or not summary.strip()] rejects exactly the
    blank summaries. *)
Lemma rejects_iff_blank s :
  negb (truthy s) || negb (truthy (strip s)) = blank s.
Proof.
  destruct (blank s) eqn:B.
  - rewrite (blank_strip s B). simpl. apply orb_true_r.
  - destruct s as [|c s]; [discriminate|]. simpl negb at 1. simpl orb.
    destruct (strip (String c s)) eqn:E; [|reflexivity].
    apply strip_empty_iff in E. congruence.
Qed.

(** What [_do_compaction] can do: raise with the object untouched, or
    append one message ending at [new_end] and log completion. *)
Lemma do_compaction_run w rounds new_end st :
  (exists e, _do_compaction w rounds new_end st = (Raise e, st)) \/
  (exists s, blank s = false /\
     _do_compaction w rounds new_end st =
       (Ok tt, log_line (complete_line new_end)
                 (append_compacted (mkCompactedMessage 1 new_end s) st))).
Proof.
  unfold _do_compaction, bind, get, lift, _call_llm_for_summary, bind, lift.
  destruct (content_loop _ _ _) as [parts|e]; [|left; eauto].
  destruct (chat_completion w _ _) as [[[s|]|]|e]; try (left; eauto; fail).
  unfold ret. rewrite rejects_iff_blank.
  destruct (blank s) eqn:B; [left; unfold raise; eauto|].
  right. exists s. split; [exact B|reflexivity].
Qed.

Lemma should_compact_dec cfg n e :
  let guards := negb (n =? 0)
                && negb (n - e <? threshold cfg)
                && negb ((n - retain_recent cfg <=? 0) || (e >=? n - retain_recent cfg)) in
  0 <= n -> (guards = true <-> should_compact cfg n e).
Proof.
  intros guards Hn. unfold guards, should_compact.
  rewrite !andb_true_iff, !negb_true_iff, orb_false_iff.
  rewrite Z.eqb_neq, Z.ltb_ge, Z.leb_gt, Z.geb_leb, Z.leb_gt. lia.
Qed.

(** The [try] body over [rounds], with the monad unfolded. *)
Lemma try_body_eq cfg rounds llm st :
  let w := mkWorld (Ok rounds) llm in
  let n := Z.of_nat (length rounds) in
  let e := compacted_end st in
  try_body cfg w st =
    if n =? 0 then (Ok tt, st)
    else if n - e <? threshold cfg then (Ok tt, st)
    else if (n - retain_recent cfg <=? 0) || (e >=? n - retain_recent cfg)
    then (Ok tt, st)
    else _do_compaction w rounds (n - retain_recent cfg)
           (log_line (compacting_line cfg n e) st).
Proof.
  intros w n e. subst e. unfold compacted_end, compacting_line.
  unfold try_body, bind, lift, get, ret, w. simpl rounds_getter.
  cbv beta iota. fold n.
  repeat match goal with
         | |- context [if ?b then _ else _] => destruct b; try reflexivity
         end.
Qed.

(** The run of the [try] body over [rounds]. *)
Lemma try_body_run cfg rounds llm st :
  let w := mkWorld (Ok rounds) llm in
  let n := Z.of_nat (length rounds) in
  let e := compacted_end st in
  (should_compact cfg n e /\
   try_body cfg w st =
     _do_compaction w rounds (n - retain_recent cfg)
       (log_line (compacting_line cfg n e) st)) \/
  (~ should_compact cfg n e /\ try_body cfg w st = (Ok tt, st)).
Proof.
  intros w n e. unfold w. rewrite try_body_eq. cbv zeta. fold w n e.
  pose proof (should_compact_dec cfg n e (Nat2Z.is_nonneg _)) as D. simpl in D.
  destruct (n =? 0);
    [right; split; [rewrite <- D; simpl; discriminate | reflexivity]|].
  destruct (n - e <? threshold cfg);
    [right; split; [rewrite <- D; simpl; discriminate | reflexivity]|].
  destruct ((n - retain_recent cfg <=? 0) || (e >=? n - retain_recent cfg));
    [right; split; [rewrite <- D; simpl; discriminate | reflexivity]|].
  left. split; [apply D; reflexivity | reflexivity].
Qed.


Lemma fst_try_compact cfg w st : fst (_try_compact cfg w st) = Ok tt.
Proof.
  unfold _try_compact, try_except.
  destruct (try_body cfg w st) as [[[]|e] st']; reflexivity.
Qed.

(** The three ways a pass over [rounds] can go. *)
Inductive pass_outcome (cfg : CompactorConfig) (rounds : list Round)
  (st st' : ContextCompactor) : bool -> Prop :=
| pass_skipped :
    ~ should_compact cfg (Z.of_nat (length rounds)) (compacted_end st) ->
    st' = st ->
    pass_outcome cfg rounds st st' false
| pass_appended s :
    should_compact cfg (Z.of_nat (length rounds)) (compacted_end st) ->
    blank s = false ->
    compacted_queue st' = compacted_queue st ++
      [mkCompactedMessage 1 (Z.of_nat (length rounds) - retain_recent cfg) s] ->
    pass_outcome cfg rounds st st' false
| pass_raised :
    should_compact cfg (Z.of_nat (length rounds)) (compacted_end st) ->
    compacted_queue st' = compacted_queue st ->
    pass_outcome cfg rounds st st' true.

Lemma pass_cases cfg rounds llm st :
  let w := mkWorld (Ok rounds) llm in
  pass_outcome cfg rounds st (pass cfg w st) (pass_failed cfg w st).
Proof.
  intros w. unfold pass, pass_failed, _try_compact, try_except.
  destruct (try_body_run cfg rounds llm st) as [[C E]|[C E]]; fold w in E;
    rewrite E; clear E.
  - match goal with |- context [_do_compaction ?a ?b ?c ?d] =>
      destruct (do_compaction_run a b c d) as [[e E]|[s [B E]]]; rewrite E
    end; simpl.
    + apply pass_raised; [exact C|reflexivity].
    + eapply pass_appended; [exact C|exact B|reflexivity].
  - simpl. apply pass_skipped; [exact C|reflexivity].
Qed.

(** Whatever the world does, a pass leaves the queue alone or appends one
    message that starts at 1 and ends strictly after the previous end. *)
Lemma pass_queue cfg w st :
  compacted_queue (pass cfg w st) = compacted_queue st \/
  exists c, compacted_queue (pass cfg w st) = compacted_queue st ++ [c] /\
            start_index c = 1 /\ compacted_end st < end_index c /\
            0 < end_index c.
Proof.
  destruct w as [[rounds|e] llm].
  - destruct (pass_cases cfg rounds llm st) as [C E|s C B E|C E].
    + left. now rewrite E.
    + right. eexists. split; [exact E|]. simpl. unfold should_compact in C. lia.
    + now left.
  - left. reflexivity.
Qed.

Definition increasing : list CompactedMessage -> Prop :=
  StronglySorted (fun a b => end_index a < end_index b).

Lemma in_queue_le_end st c :
  increasing (compacted_queue st) -> c ∈ compacted_queue st ->
  end_index c <= compacted_end st.
Proof.
  unfold compacted_end, get_compaction. intros S Hin.
  destruct (last (compacted_queue st)) as [d|] eqn:L.
  - apply last_Some in L as [q Hq]. rewrite Hq in S, Hin.
    apply elem_of_app in Hin as [Hin|Hin].
    + assert (end_index c < end_index d); [|lia].
      apply StronglySorted_app in S as [S _]. apply S; [exact Hin|].
      apply list_elem_of_singleton. reflexivity.
    + apply list_elem_of_singleton in Hin. subst. lia.
  - apply last_None in L. rewrite L in Hin. inversion Hin.
Qed.

Lemma pass_increasing cfg w st :
  increasing (compacted_queue st) -> increasing (compacted_queue (pass cfg w st)).
Proof.
  intros S. destruct (pass_queue cfg w st) as [E|[c [E [_ [Hlt _]]]]]; rewrite E.
  - exact S.
  - apply StronglySorted_app_2; [|exact S|repeat constructor].
    intros a b Ha Hb. apply list_elem_of_singleton in Hb. subst b.
    pose proof (in_queue_le_end st a S Ha). lia.
Qed.

Lemma pass_starts cfg w st :
  Forall (fun c => start_index c = 1) (compacted_queue st) ->
  Forall (fun c => start_index c = 1) (compacted_queue (pass cfg w st)).
Proof.
  intros F. destruct (pass_queue cfg w st) as [E|[c [E [H1 _]]]]; rewrite E.
  - exact F.
  - apply Forall_app. split; [exact F|]. repeat constructor. exact H1.
Qed.

Lemma worker_loop_run cfg ws st :
  _worker_loop cfg ws st = (Ok tt, fold_left (fun s w => pass cfg w s) ws st).
Proof.
  revert st. induction ws as [|w ws IH]; intros st; simpl; [reflexivity|].
  unfold bind. pose proof (fst_try_compact cfg w st) as F. unfold pass.
  destruct (_try_compact cfg w st) as [r st']. simpl in *. subst r. apply IH.
Qed.

Lemma worker_disabled cfg ws : enabled cfg = false -> worker cfg ws = init.
Proof. intros H. unfold worker. now rewrite H. Qed.

Lemma worker_snoc cfg ws w :
  enabled cfg = true -> worker cfg (ws ++ [w]) = pass cfg w (worker cfg ws).
Proof.
  intros H. unfold worker. rewrite H, !worker_loop_run. simpl.
  now rewrite fold_left_app.
Qed.

Lemma worker_invariant cfg ws :
  increasing (compacted_queue (worker cfg ws)) /\
  Forall (fun c => start_index c = 1) (compacted_queue (worker cfg ws)).
Proof.
  destruct (enabled cfg) eqn:En;
    [|rewrite worker_disabled by exact En; split; constructor].
  induction ws as [|w ws [IH1 IH2]] using rev_ind.
  - unfold worker. rewrite En. split; constructor.
  - rewrite worker_snoc by exact En.
    split; [now apply pass_increasing|now apply pass_starts].
Qed.

Lemma worker_prefix cfg ws1 ws2 :
  compacted_queue (worker cfg ws1) `prefix_of` compacted_queue (worker cfg (ws1 ++ ws2)).
Proof.
  destruct (enabled cfg) eqn:En; [|now rewrite !worker_disabled by exact En].
  induction ws2 as [|w ws2 IH] using rev_ind.
  - now rewrite app_nil_r.
  - rewrite app_assoc, worker_snoc by exact En. etrans; [exact IH|].
    destruct (pass_queue cfg w (worker cfg (ws1 ++ ws2))) as [E|[c [E _]]];
      rewrite E; [reflexivity|]. now apply prefix_app_r.
Qed.


Lemma content_loop_ok rounds idx parts :
  Forall (fun i => 0 <= i < Z.of_nat (length rounds)) idx ->
  exists parts', content_loop rounds idx parts = Ok parts'.
Proof.
  revert parts. induction idx as [|i idx IH]; intros parts F; simpl; [eauto|].
  apply Forall_cons in F as [Hi F]. unfold getitem.
  assert ((0 <=? i) && (i <? Z.of_nat (length rounds)) = true) as ->
    by (apply andb_true_iff; split; [apply Z.leb_le|apply Z.ltb_lt]; lia).
  destruct (nth_error rounds (Z.to_nat i)) eqn:N.
  - apply IH, F.
  - apply nth_error_None in N. lia.
Qed.

Lemma range_bounds a b : Forall (fun i => a <= i < b) (range a b).
Proof.
  unfold range. apply Forall_forall. intros i Hi.
  apply list_elem_of_In, in_map_iff in Hi as [k [<- Hk]].
  apply in_seq in Hk. lia.
Qed.

(** A pass whose guards hold goes through when the configuration retains a
    non-negative number of rounds, the previous end is not negative and the
    summary call returns a summary that is not blank. *)
Lemma pass_succeeds cfg rounds llm st :
  let w := mkWorld (Ok rounds) llm in
  should_compact cfg (Z.of_nat (length rounds)) (compacted_end st) ->
  0 <= retain_recent cfg -> 0 <= compacted_end st ->
  (forall c p, exists s, llm c p = Ok (Some (ContentStr s)) /\ blank s = false) ->
  pass_failed cfg w st = false.
Proof.
  intros w C Hr He Hllm. unfold pass_failed.
  destruct (try_body_run cfg rounds llm st) as [[_ E]|[NC _]]; [|contradiction].
  fold w in E. rewrite E. clear E.
  unfold _do_compaction, bind, get, lift, _call_llm_for_summary, bind, lift.
  rewrite get_compaction_log_line. fold (compacted_end st).
  set (new_end := Z.of_nat (length rounds) - retain_recent cfg).
  destruct (content_loop_ok rounds (range (compacted_end st) new_end) []) as [parts ->].
  { eapply Forall_impl; [apply range_bounds|]. simpl. intros i Hi.
    unfold new_end in Hi. lia. }
  simpl chat_completion.
  match goal with |- context [llm ?c ?p] => destruct (Hllm c p) as [s [-> B]] end.
  unfold ret. rewrite rejects_iff_blank, B. reflexivity.
Qed.

(** A blank summary makes the pass fail. *)
Lemma blank_summary_fails cfg rounds llm st s :
  let w := mkWorld (Ok rounds) llm in
  should_compact cfg (Z.of_nat (length rounds)) (compacted_end st) ->
  (forall c p, llm c p = Ok (Some (ContentStr s))) -> blank s = true ->
  pass_failed cfg w st = true.
Proof.
  intros w C Hllm B. unfold pass_failed.
  destruct (try_body_run cfg rounds llm st) as [[_ E]|[NC _]]; [|contradiction].
  fold w in E. rewrite E. clear E.
  unfold _do_compaction, bind, get, lift, _call_llm_for_summary, bind, lift.
  destruct (content_loop _ _ _); [|reflexivity].
  simpl chat_completion. rewrite Hllm. unfold ret.
  rewrite rejects_iff_blank, B. reflexivity.
Qed.

(** C4. Observed from one compactor, the latest Compacted Message only
    moves forward: a message observed after more passes ends no earlier
    than one observed before, both start at round 1, the two are the same
    message or the later one ends strictly later, and the queue is kept
    strictly increasing in [end_index] by every append. *)
Theorem compaction_monotone cfg ws1 ws2 c1 c2 :
  get_compaction (worker cfg ws1) = Some c1 ->
  get_compaction (worker cfg (ws1 ++ ws2)) = Some c2 ->
  end_index c1 <= end_index c2 /\
  start_index c1 = 1 /\ start_index c2 = 1 /\
  (c1 = c2 \/ end_index c1 < end_index c2) /\
  StronglySorted (fun a b => end_index a < end_index b)
    (compacted_queue (worker cfg (ws1 ++ ws2))).
Proof.
  intros H1 H2. unfold get_compaction in *.
  destruct (worker_invariant cfg (ws1 ++ ws2)) as [S F].
  destruct (worker_prefix cfg ws1 ws2) as [k Hk].
  rewrite Hk in H2, S, F. set (q1 := compacted_queue (worker cfg ws1)) in *.
  pose proof H1 as H1'. apply last_Some in H1' as [q Hq].
  assert (c1 ∈ q1) as In1
    by (rewrite Hq; apply elem_of_app; right; now apply list_elem_of_singleton).
  assert (c2 ∈ q1 ++ k) as In2
    by (apply last_Some in H2 as [q' ->]; apply elem_of_app; right;
        now apply list_elem_of_singleton).
  rewrite Forall_forall in F.
  assert (c1 = c2 \/ end_index c1 < end_index c2) as D.
  { rewrite last_app in H2. destruct (last k) as [d|] eqn:Lk.
    - right. injection H2 as ->. apply last_Some in Lk as [k' ->].
      apply StronglySorted_app in S as [S _]. apply S; [exact In1|].
      apply elem_of_app. right. now apply list_elem_of_singleton.
    - left. congruence. }
  repeat split.
  - destruct D as [->|D]; lia.
  - apply F, elem_of_app. now left.
  - apply F, In2.
  - exact D.
  - rewrite Hk. exact S.
Qed.

Lemma compaction_monotone_witness :
  4 <= 9 /\ 1 = 1 /\ 1 = 1 /\
  (mkCompactedMessage 1 4 "a" = mkCompactedMessage 1 9 "b" \/ 4 < 9) /\
  StronglySorted (fun a b => end_index a < end_index b)
    (compacted_queue
       (worker (mkCompactorConfig 3 1 "" true)
          ([scenario_world 5 "a"] ++ [scenario_world 10 "b"]))).
Proof.
  apply (compaction_monotone (mkCompactorConfig 3 1 "" true)
           [scenario_world 5 "a"] [scenario_world 10 "b"]
           (mkCompactedMessage 1 4 "a") (mkCompactedMessage 1 9 "b"));
    vm_compute; reflexivity.
Defined.


(** C5. A pass over [n] rounds with previous end [e] enters compaction,
    ending in an append or in a logged failure, iff [n > 0],
    [n - e >= threshold] and [n - retain_recent > max e 0]; a pass that does
    not fail appends iff these hold; the appended message starts at 1, ends
    at [n - retain_recent] and becomes the current compaction. With
    threshold 3 and retain_recent 1, a pass over 5 rounds gives end 4 and a
    later pass over 10 rounds gives end 9. *)
Theorem try_compact_decision :
  (forall cfg rounds llm st,
     let w := mkWorld (Ok rounds) llm in
     let n := Z.of_nat (length rounds) in
     let e := compacted_end st in
     let st' := pass cfg w st in
     let guards :=
       0 < n /\ threshold cfg <= n - e /\ Z.max e 0 < n - retain_recent cfg in
     (guards <->
        pass_failed cfg w st = true \/
        exists c, compacted_queue st' = compacted_queue st ++ [c]) /\
     (pass_failed cfg w st = false ->
        (guards <-> exists c, compacted_queue st' = compacted_queue st ++ [c])) /\
     (forall c, compacted_queue st' = compacted_queue st ++ [c] ->
        start_index c = 1 /\ end_index c = n - retain_recent cfg /\
        get_compaction st' = Some c) /\
     (guards -> 0 <= retain_recent cfg -> 0 <= e ->
        (forall c p, exists s, llm c p = Ok (Some (ContentStr s)) /\ blank s = false) ->
        pass_failed cfg w st = false)) /\
  (forall rounds5 rounds10 llm5 llm10,
     let cfg := mkCompactorConfig 3 1 "" true in
     let w5 := mkWorld (Ok rounds5) llm5 in
     let w10 := mkWorld (Ok rounds10) llm10 in
     length rounds5 = 5%nat -> length rounds10 = 10%nat ->
     pass_failed cfg w5 init = false ->
     pass_failed cfg w10 (pass cfg w5 init) = false ->
     (exists s, get_compaction (pass cfg w5 init) = Some (mkCompactedMessage 1 4 s)) /\
     (exists s, get_compaction (pass cfg w10 (pass cfg w5 init))
                = Some (mkCompactedMessage 1 9 s))).
Proof.
  assert (forall (q : list CompactedMessage) c, q <> q ++ [c]) as Hneq.
  { intros q c E. apply (f_equal length) in E. rewrite length_app in E.
    simpl in E. lia. }
  split.
  - intros cfg rounds llm st w n e st' guards.
    change guards with (should_compact cfg n e). clear guards. subst st'.
    pose proof (pass_cases cfg rounds llm st) as P. cbv zeta in P.
    fold w n e in P.
    assert (forall c, compacted_queue (pass cfg w st) = compacted_queue st ++ [c] ->
              should_compact cfg n e /\ start_index c = 1 /\
              end_index c = n - retain_recent cfg /\
              get_compaction (pass cfg w st) = Some c) as Happ.
    { intros c Hc. inversion P as [C E|s C B E|C E].
      - rewrite E in Hc. now apply Hneq in Hc.
      - rewrite E in Hc. apply app_inj_tail in Hc as [_ <-].
        unfold get_compaction. rewrite E, last_snoc. auto.
      - rewrite E in Hc. now apply Hneq in Hc. }
    split; [split|split; [|split]].
    + intros C. inversion P as [NC E|s _ B E|_ E]; eauto; contradiction.
    + intros [F|[c Hc]].
      * rewrite F in P. now inversion P.
      * now apply Happ in Hc.
    + intros F. split.
      * intros C. rewrite F in P. inversion P as [NC E|s _ B E|]; eauto;
          contradiction.
      * intros [c Hc]. now apply Happ in Hc.
    + intros c Hc. apply Happ in Hc. tauto.
    + intros C. now apply pass_succeeds.
  - intros rounds5 rounds10 llm5 llm10 cfg w5 w10 L5 L10 F5 F10.
    pose proof (pass_cases cfg rounds5 llm5 init) as P5. cbv zeta in P5.
    fold w5 in P5.
    rewrite F5 in P5.
    inversion P5 as [NC E|s5 _ B E|]; rewrite L5 in *.
    { exfalso. apply NC. unfold should_compact, cfg. cbn. lia. }
    simpl in E. assert (G5 : get_compaction (pass cfg w5 init)
                             = Some (mkCompactedMessage 1 4 s5)).
    { unfold get_compaction. now rewrite E. }
    split; [eauto|].
    pose proof (pass_cases cfg rounds10 llm10 (pass cfg w5 init)) as P10.
    cbv zeta in P10. fold w10 in P10. rewrite F10 in P10.
    inversion P10 as [NC' E'|s10 _ B' E'|].
    { exfalso. apply NC'. rewrite L10. unfold should_compact, compacted_end.
      rewrite G5. unfold cfg. cbn. lia. }
    exists s10. unfold get_compaction. rewrite E', last_snoc, L10. reflexivity.
Qed.

Lemma try_compact_decision_witness :
  (exists s, get_compaction (pass (mkCompactorConfig 3 1 "" true) (scenario_world 5 "a") init)
             = Some (mkCompactedMessage 1 4 s)) /\
  (exists s, get_compaction
               (pass (mkCompactorConfig 3 1 "" true) (scenario_world 10 "b")
                  (pass (mkCompactorConfig 3 1 "" true) (scenario_world 5 "a") init))
             = Some (mkCompactedMessage 1 9 s)).
Proof.
  apply (proj2 try_compact_decision); vm_compute; reflexivity.
Defined.

(** C6. A pass never lets an exception out, and neither does the worker
    loop. A pass that fails appends nothing: the queue and the answer of
    [get_compaction] are what they were, and the failure is logged. A
    summary that is empty or all whitespace makes the pass fail. *)
Theorem failed_pass_preserves cfg w st :
  fst (_try_compact cfg w st) = Ok tt /\
  (forall ws, fst (_worker_loop cfg ws st) = Ok tt) /\
  (pass_failed cfg w st = true ->
     compacted_queue (pass cfg w st) = compacted_queue st /\
     get_compaction (pass cfg w st) = get_compaction st /\
     exists e l, fst (try_body cfg w st) = Raise e /\
       logged (pass cfg w st) =
         l ++ ["ContextCompactor: Compaction failed: " +:+ str_of_exn e]) /\
  (forall rounds s,
     rounds_getter w = Ok rounds ->
     0 < Z.of_nat (length rounds) /\
     threshold cfg <= Z.of_nat (length rounds) - compacted_end st /\
     Z.max (compacted_end st) 0 < Z.of_nat (length rounds) - retain_recent cfg ->
     (forall c p, chat_completion w c p = Ok (Some (ContentStr s))) ->
     blank s = true ->
     pass_failed cfg w st = true).
Proof.
  split; [apply fst_try_compact|]. split.
  { intros ws. now rewrite worker_loop_run. }
  split.
  - intros F.
    assert (compacted_queue (pass cfg w st) = compacted_queue st) as Q.
    { destruct w as [[rounds|e] llm]; [|reflexivity].
      pose proof (pass_cases cfg rounds llm st) as P. simpl in P.
      rewrite F in P. now inversion P. }
    split; [exact Q|]. split; [unfold get_compaction; now rewrite Q|].
    unfold pass_failed in F. unfold pass, _try_compact, try_except.
    destruct (try_body cfg w st) as [[[]|e] st1]; [discriminate|].
    exists e, (logged st1). split; reflexivity.
  - intros rounds s Hw C Hllm B. destruct w as [g llm]. simpl in *. subst g.
    eapply blank_summary_fails; eauto.
Qed.

Lemma failed_pass_preserves_witness :
  let cfg := mkCompactorConfig 3 1 "" true in
  let w := scenario_world 5 "  " in
  compacted_queue (pass cfg w init) = [] /\
  get_compaction (pass cfg w init) = None /\
  exists e l, fst (try_body cfg w init) = Raise e /\
    logged (pass cfg w init) =
      l ++ ["ContextCompactor: Compaction failed: " +:+ str_of_exn e].
Proof.
  intros cfg w.
  apply (proj1 (proj2 (proj2 (failed_pass_preserves cfg w init)))).
  eapply (proj2 (proj2 (proj2 (failed_pass_preserves cfg w init))));
    [reflexivity | vm_compute; repeat split; discriminate
    | intros; reflexivity | reflexivity].
Defined.


(** *** Further properties of a pass *)

Lemma range_In a b i : a <= i < b -> In i (range a b).
Proof.
  intros H. unfold range. apply in_map_iff. exists (Z.to_nat (i - a)).
  split; [lia|]. apply in_seq. lia.
Qed.

(** Outside of [-n .. n-1] a list of [n] elements has no item. *)
Lemma getitem_out_of_range {A} (l : list A) i :
  Z.of_nat (length l) <= i \/ i < - Z.of_nat (length l) -> getitem l i = None.
Proof.
  intros H. unfold getitem.
  destruct ((0 <=? i) && (i <? Z.of_nat (length l))) eqn:E1.
  { apply andb_true_iff in E1 as [H1 H2].
    apply Z.leb_le in H1. apply Z.ltb_lt in H2. lia. }
  destruct ((- Z.of_nat (length l) <=? i) && (i <? 0)) eqn:E2; [|reflexivity].
  apply andb_true_iff in E2 as [H1 H2].
  apply Z.leb_le in H1. apply Z.ltb_lt in H2. lia.
Qed.

(** The loop raises as soon as one of its indices has no round, and
    [IndexError] is all it raises. *)
Lemma content_loop_raises rounds idx parts :
  (exists i, In i idx /\ getitem rounds i = None) ->
  content_loop rounds idx parts = Raise IndexError.
Proof.
  revert parts. induction idx as [|j idx IH]; intros parts [i [Hin Hi]].
  - destruct Hin.
  - simpl. destruct (getitem rounds j) as [r|] eqn:G; [|reflexivity].
    apply IH. exists i. split; [|exact Hi].
    destruct Hin as [->|Hin]; [congruence|exact Hin].
Qed.

(** The loop reads the rounds at its indices and nothing else. *)
Lemma content_loop_ext rounds1 rounds2 idx parts :
  (forall i, In i idx -> getitem rounds1 i = getitem rounds2 i) ->
  content_loop rounds1 idx parts = content_loop rounds2 idx parts.
Proof.
  revert parts. induction idx as [|j idx IH]; intros parts H; simpl;
    [reflexivity|].
  rewrite (H j (or_introl eq_refl)).
  destruct (getitem rounds2 j); [|reflexivity].
  apply IH. intros i Hi. apply H. now right.
Qed.

Lemma do_compaction_ext llm rounds1 rounds2 new_end st :
  (forall i, compacted_end st <= i < new_end ->
     getitem rounds1 i = getitem rounds2 i) ->
  _do_compaction (mkWorld (Ok rounds1) llm) rounds1 new_end st
  = _do_compaction (mkWorld (Ok rounds2) llm) rounds2 new_end st.
Proof.
  intros H. unfold _do_compaction, bind, get, lift, _call_llm_for_summary.
  rewrite (content_loop_ext rounds1 rounds2).
  - reflexivity.
  - intros i Hi. apply H.
    pose proof (range_bounds
                  (match get_compaction st with
                   | Some p => end_index p
                   | None => 0
                   end) new_end) as F.
    rewrite Forall_forall in F. apply list_elem_of_In, F in Hi.
    unfold compacted_end. exact Hi.
Qed.

(** The previous summary handed to the summary call: the text ["None"]
    before the first compaction. *)
Definition previous_summary (st : ContextCompactor) : string :=
  match get_compaction st with
  | Some p => summary p
  | None => "None"
  end.

(** X1. A pass that went through is not repeated: as long as the number of
    rounds has not grown, further wake-ups neither append, nor call the
    model, nor log. *)
Theorem pass_settles cfg rounds rounds' llm llm' st :
  let w := mkWorld (Ok rounds) llm in
  let w' := mkWorld (Ok rounds') llm' in
  (length rounds' <= length rounds)%nat ->
  pass_failed cfg w st = false ->
  pass cfg w' (pass cfg w st) = pass cfg w st /\
  pass_failed cfg w' (pass cfg w st) = false.
Proof.
  intros w w' Hlen F.
  assert (~ should_compact cfg (Z.of_nat (length rounds'))
            (compacted_end (pass cfg w st))) as NC.
  { pose proof (pass_cases cfg rounds llm st) as P. cbv zeta in P.
    fold w in P. rewrite F in P.
    inversion P as [NC E|s C B E|]; unfold should_compact in *.
    - rewrite E. lia.
    - unfold compacted_end, get_compaction. rewrite E, last_snoc. simpl. lia. }
  destruct (try_body_run cfg rounds' llm' (pass cfg w st)) as [[C _]|[_ E]];
    [contradiction|].
  fold w' in E. unfold pass at 1, pass_failed, _try_compact, try_except.
  rewrite E. split; reflexivity.
Qed.

Lemma pass_settles_witness :
  let cfg := mkCompactorConfig 3 1 "" true in
  pass cfg (scenario_world 5 "b") (pass cfg (scenario_world 5 "a") init)
  = pass cfg (scenario_world 5 "a") init /\
  pass_failed cfg (scenario_world 5 "b") (pass cfg (scenario_world 5 "a") init)
  = false.
Proof.
  intros cfg.
  apply (pass_settles cfg
           (repeat (mkRound "q" [mkPost "User" "Planner" "m"]) 5)
           (repeat (mkRound "q" [mkPost "User" "Planner" "m"]) 5)
           (fun _ _ => Ok (Some (ContentStr "a")))
           (fun _ _ => Ok (Some (ContentStr "b"))) init);
    [simpl; lia | vm_compute; reflexivity].
Defined.

(** X2. With a negative [retain_recent] the end of the compaction lies beyond
    the last round: every pass whose guards hold runs into [IndexError]
    while it collects the rounds, before the model is called; the queue
    stays as it was and the two lines of the attempt are logged. *)
Theorem negative_retain_fails cfg rounds llm st :
  let w := mkWorld (Ok rounds) llm in
  let n := Z.of_nat (length rounds) in
  let e := compacted_end st in
  retain_recent cfg < 0 ->
  0 < n /\ threshold cfg <= n - e /\ Z.max e 0 < n - retain_recent cfg ->
  fst (try_body cfg w st) = Raise IndexError /\
  compacted_queue (pass cfg w st) = compacted_queue st /\
  logged (pass cfg w st) =
    logged st ++ [compacting_line cfg n e;
                  "ContextCompactor: Compaction failed: list index out of range"].
Proof.
  intros w n e Hr C.
  destruct (try_body_run cfg rounds llm st) as [[_ E]|[NC _]];
    [|now contradiction NC].
  fold w n e in E.
  assert (_do_compaction w rounds (n - retain_recent cfg)
            (log_line (compacting_line cfg n e) st)
          = (Raise IndexError, log_line (compacting_line cfg n e) st)) as D.
  { unfold _do_compaction, bind, get, lift.
    rewrite get_compaction_log_line. fold (compacted_end st). fold e.
    rewrite content_loop_raises; [reflexivity|].
    destruct (Z_le_gt_dec e n) as [Hle|Hgt].
    - exists n. split; [apply range_In; lia|].
      apply getitem_out_of_range. left. unfold n. lia.
    - exists e. split; [apply range_In; lia|].
      apply getitem_out_of_range. left. fold n. lia. }
  rewrite D in E. unfold pass, _try_compact, try_except. rewrite E. simpl.
  repeat split. now rewrite <- app_assoc.
Qed.

Lemma negative_retain_fails_witness :
  let cfg := mkCompactorConfig 3 (-1) "" true in
  let w := scenario_world 5 "a" in
  fst (try_body cfg w init) = Raise IndexError /\
  compacted_queue (pass cfg w init) = [] /\
  logged (pass cfg w init) =
    [compacting_line cfg 5 0;
     "ContextCompactor: Compaction failed: list index out of range"].
Proof.
  intros cfg w.
  apply (negative_retain_fails cfg
           (repeat (mkRound "q" [mkPost "User" "Planner" "m"]) 5)
           (fun _ _ => Ok (Some (ContentStr "a"))) init);
    [reflexivity | vm_compute; repeat split; discriminate].
Defined.

(** X3. A pass reads the rounds from the previous end up to the new end and no
    others: two histories of the same length that agree there give the
    same pass, whatever the rounds already compacted and the retained
    recent ones hold. *)
Theorem pass_reads_new_rounds_only cfg rounds1 rounds2 llm st :
  length rounds1 = length rounds2 ->
  (forall i,
     compacted_end st <= i < Z.of_nat (length rounds1) - retain_recent cfg ->
     getitem rounds1 i = getitem rounds2 i) ->
  pass cfg (mkWorld (Ok rounds1) llm) st = pass cfg (mkWorld (Ok rounds2) llm) st.
Proof.
  intros Hlen H. unfold pass, _try_compact, try_except.
  rewrite !try_body_eq. cbv zeta. rewrite <- Hlen.
  repeat match goal with
         | |- context [if ?b then _ else _] => destruct b; [reflexivity|]
         end.
  rewrite (do_compaction_ext llm rounds1 rounds2); [reflexivity|].
  intros i Hi. apply H. rewrite compacted_end_log_line in Hi. exact Hi.
Qed.

Lemma pass_reads_new_rounds_only_witness :
  let cfg := mkCompactorConfig 3 1 "" true in
  let old := mkRound "q" [mkPost "User" "Planner" "m"] in
  let st := pass cfg (scenario_world 5 "a") init in
  let llm := fun content _ => Ok (Some (ContentStr content)) in
  pass cfg (mkWorld (Ok (repeat old 4 ++ repeat old 4)) llm) st
  = pass cfg (mkWorld (Ok (repeat (mkRound "other" []) 4 ++ repeat old 3
                           ++ [mkRound "latest" []])) llm) st.
Proof.
  intros cfg old st llm.
  apply (pass_reads_new_rounds_only cfg); [reflexivity|].
  intros i Hi. change (4 <= i < 7) in Hi.
  assert (i = 4 \/ i = 5 \/ i = 6) as [-> | [-> | ->]] by lia; reflexivity.
Defined.

(** X4. The summary a pass stores is the answer of the model, as it came, to
    the text of the newly compacted rounds together with the summary
    stored before. *)
Theorem stored_summary_is_answer cfg rounds llm st c :
  let w := mkWorld (Ok rounds) llm in
  compacted_queue (pass cfg w st) = compacted_queue st ++ [c] ->
  exists content_parts,
    content_loop rounds
      (range (compacted_end st) (Z.of_nat (length rounds) - retain_recent cfg)) []
      = Ok content_parts /\
    llm (join (String "010" "") content_parts) (previous_summary st)
      = Ok (Some (ContentStr (summary c))).
Proof.
  intros w Hc.
  assert (forall (q : list CompactedMessage) x, q <> q ++ [x]) as Hneq.
  { intros q x E. apply (f_equal length) in E. rewrite length_app in E.
    simpl in E. lia. }
  unfold pass, _try_compact, try_except in Hc.
  destruct (try_body_run cfg rounds llm st) as [[_ E]|[_ E]]; fold w in E;
    rewrite E in Hc; clear E; [|simpl in Hc; now apply Hneq in Hc].
  revert Hc. unfold _do_compaction, bind, get, lift, _call_llm_for_summary,
    bind, lift.
  rewrite get_compaction_log_line. fold (compacted_end st).
  fold (previous_summary st).
  destruct (content_loop _ _ _) as [parts|e];
    [|simpl; intros Hc; now apply Hneq in Hc].
  exists parts. split; [reflexivity|]. revert Hc. simpl chat_completion.
  destruct (llm _ _) as [[[s|]|]|e];
    try (simpl; intros Hc; now apply Hneq in Hc).
  unfold ret. rewrite rejects_iff_blank.
  destruct (blank s); [simpl; intros Hc; now apply Hneq in Hc|].
  simpl. intros Hc. apply app_inj_tail in Hc as [_ <-]. reflexivity.
Qed.

Lemma stored_summary_is_answer_witness :
  exists content_parts,
    content_loop (repeat (mkRound "q" [mkPost "User" "Planner" "m"]) 5)
      (range 0 4) [] = Ok content_parts /\
    chat_completion (scenario_world 5 "a")
      (join (String "010" "") content_parts) "None"
      = Ok (Some (ContentStr "a")).
Proof.
  refine (stored_summary_is_answer (mkCompactorConfig 3 1 "" true)
            (repeat (mkRound "q" [mkPost "User" "Planner" "m"]) 5)
            (fun _ _ => Ok (Some (ContentStr "a"))) init
            (mkCompactedMessage 1 4 "a") _).
  vm_compute. reflexivity.
Defined.

End CompactionProofs.

(** ** The code verifier *)

Module VerifierProofs.
Import Verifier.

(** Induction on trees, with the hypothesis on every child of a list. *)
Section node_induction.

Variable P : node -> Prop.
Hypothesis HName : forall l id, P (Name l id).
Hypothesis HConstant : forall l v, P (Constant l v).
Hypothesis HAttribute : forall l value attr, P value -> P (Attribute l value attr).
Hypothesis HSubscript : forall l value slice,
  P value -> P slice -> P (Subscript l value slice).
Hypothesis HCall : forall l func args keywords,
  P func -> Forall P args -> Forall P keywords -> P (Call l func args keywords).
Hypothesis HImport : forall l names, P (Import l names).
Hypothesis HImportFrom : forall l module, P (ImportFrom l module).
Hypothesis HAssign : forall l targets value,
  Forall P targets -> P value -> P (Assign l targets value).
Hypothesis HOther : forall children, Forall P children -> P (Other children).

Fixpoint node_induction (n : node) : P n :=
  let all := fix all (l : list node) : Forall P l :=
    match l with
    | [] => @List.Forall_nil node P
    | x :: r => @List.Forall_cons node P x r (node_induction x) (all r)
    end in
  match n with
  | Name l id => HName l id
  | Constant l v => HConstant l v
  | Attribute l value attr => HAttribute l value attr (node_induction value)
  | Subscript l value slice =>
      HSubscript l value slice (node_induction value) (node_induction slice)
  | Call l func args keywords =>
      HCall l func args keywords (node_induction func) (all args) (all keywords)
  | Import l names => HImport l names
  | ImportFrom l module => HImportFrom l module
  | Assign l targets value =>
      HAssign l targets value (all targets) (node_induction value)
  | Other children => HOther children (all children)
  end.

End node_induction.

(** A visitor step is a writer: it only appends to [self.errors], and what
    it appends does not depend on what is already there. *)
Definition writer (m : V) : Prop :=
  forall errors, m errors = (fst (m []), errors ++ snd (m [])).

Definition ok (m : V) : Prop := fst (m []) = Ok tt.

Definition out (m : V) : list string := snd (m []).

Lemma writer_ret : writer (ret tt).
Proof. intros errors. unfold ret. simpl. now rewrite app_nil_r. Qed.

Lemma writer_raise e : writer (raise e).
Proof. intros errors. unfold raise. simpl. now rewrite app_nil_r. Qed.

Lemma writer_report self l what : writer (report self l what).
Proof.
  unfold report. destruct (getitem _ _); [|apply writer_raise].
  intros errors. reflexivity.
Qed.

Lemma writer_when b m : writer m -> writer (when b m).
Proof. destruct b; [auto|intros _; apply writer_ret]. Qed.

Lemma writer_bind (m k : V) : writer m -> writer k -> writer (m ;; k).
Proof.
  intros Hm Hk errors. unfold bind. rewrite (Hm errors).
  destruct (m []) as [[[]|e] o]; simpl.
  - rewrite (Hk (errors ++ o)), (Hk o). simpl. now rewrite app_assoc.
  - reflexivity.
Qed.

Lemma writer_for_each {A} (l : list A) body :
  (forall x, writer (body x)) -> writer (for_each l body).
Proof.
  intros H. induction l; simpl; [apply writer_ret|]. now apply writer_bind.
Qed.

Lemma bind_run (m k : V) :
  writer m -> writer k ->
  (ok (m ;; k) <-> ok m /\ ok k) /\ (ok m -> out (m ;; k) = out m ++ out k).
Proof.
  intros Hm Hk. unfold ok, out, bind.
  destruct (m []) as [[[]|e] o] eqn:E; simpl.
  - rewrite (Hk o). simpl. split; [tauto|reflexivity].
  - split; [|discriminate]. split; [discriminate|]. intros [H _]. discriminate.
Qed.

Lemma ok_bind (m k : V) : writer m -> writer k -> ok m -> ok k -> ok (m ;; k).
Proof. intros Hm Hk H1 H2. now apply (bind_run m k Hm Hk). Qed.

Lemma out_bind (m k : V) :
  writer m -> writer k -> ok m -> out (m ;; k) = out m ++ out k.
Proof. intros Hm Hk. apply (bind_run m k Hm Hk). Qed.

Lemma report_run self l what :
  1 <= l <= Z.of_nat (length (lines self)) ->
  exists line, getitem (lines self) (l - 1) = Some line /\
    ok (report self l what) /\
    out (report self l what) = [error_text l line what].
Proof.
  intros Hl. unfold report, ok, out.
  destruct (getitem (lines self) (l - 1)) as [line|] eqn:G.
  - exists line. auto.
  - exfalso. unfold getitem in G.
    assert ((0 <=? l - 1) && (l - 1 <? Z.of_nat (length (lines self))) = true)
      as T by (apply andb_true_iff; split; [apply Z.leb_le|apply Z.ltb_lt]; lia).
    rewrite T in G. apply nth_error_None in G. lia.
Qed.

Lemma ok_report self l what :
  1 <= l <= Z.of_nat (length (lines self)) -> ok (report self l what).
Proof. intros Hl. destruct (report_run self l what Hl) as [? [_ [H _]]]. exact H. Qed.

Lemma ok_ret : ok (ret tt).
Proof. reflexivity. Qed.

Lemma ok_when b m : ok m -> ok (when b m).
Proof. destruct b; [auto|reflexivity]. Qed.

Lemma ok_for_each {A} (l : list A) body :
  (forall x, writer (body x)) -> (forall x, ok (body x)) -> ok (for_each l body).
Proof.
  intros W H. induction l; simpl; [reflexivity|].
  apply ok_bind; auto using writer_for_each.
Qed.

Create HintDb visitor.

#[local] Hint Resolve writer_ret writer_report writer_when writer_bind
  writer_for_each ok_report ok_ret ok_when ok_bind ok_for_each : visitor.

(** The visit methods, taken without the visit of the children, are
    writers, and go through when the node's line is one of the processed
    lines. *)
Lemma writer_check_function_name self l name :
  writer (check_function_name self l name).
Proof. unfold check_function_name. auto 6 with visitor. Qed.

Lemma writer_visit_Call self l func k :
  writer k -> writer (visit_Call self l func k).
Proof.
  intros K. destruct func; simpl;
    auto using writer_check_function_name with visitor.
Qed.

Lemma writer_visit_Import self l names k :
  writer k -> writer (visit_Import self l names k).
Proof. intros K. unfold visit_Import. auto 6 with visitor. Qed.

Lemma writer_visit_ImportFrom self l module k :
  writer k -> writer (visit_ImportFrom self l module k).
Proof.
  intros K. unfold visit_ImportFrom. destruct module; auto 6 with visitor.
Qed.

Lemma writer_visit_Assign self l targets k :
  writer k -> writer (visit_Assign self l targets k).
Proof. intros K. unfold visit_Assign. auto 8 with visitor. Qed.

Lemma writer_visit_Subscript self l slice k :
  writer k -> writer (visit_Subscript self l slice k).
Proof.
  intros K. unfold visit_Subscript. destruct slice as [| ? [|] | | | | | | |];
    auto with visitor.
Qed.

Lemma writer_visit_Attribute self l attr k :
  writer k -> writer (visit_Attribute self l attr k).
Proof. intros K. unfold visit_Attribute. auto with visitor. Qed.

#[local] Hint Resolve writer_check_function_name writer_visit_Call
  writer_visit_Import writer_visit_ImportFrom writer_visit_Assign
  writer_visit_Subscript writer_visit_Attribute : visitor.


Section Visit.

Variable self : FunctionCallValidator.

Let in_range (l : Z) : Prop := 1 <= l <= Z.of_nat (length (lines self)).

Lemma ok_check_function_name l name :
  in_range l -> ok (check_function_name self l name).
Proof. intros H. unfold check_function_name. auto 8 with visitor. Qed.

Lemma ok_visit_Call l func : in_range l -> ok (visit_Call self l func (ret tt)).
Proof.
  intros H. destruct func; simpl;
    auto 8 using ok_check_function_name with visitor.
Qed.

Lemma ok_visit_Import l names : in_range l -> ok (visit_Import self l names (ret tt)).
Proof. intros H. unfold visit_Import. auto 8 with visitor. Qed.

Lemma ok_visit_ImportFrom l module :
  in_range l -> ok (visit_ImportFrom self l module (ret tt)).
Proof.
  intros H. unfold visit_ImportFrom.
  destruct module; auto 10 with visitor.
Qed.

Lemma ok_visit_Assign l targets : in_range l -> ok (visit_Assign self l targets (ret tt)).
Proof. intros H. unfold visit_Assign. auto 10 with visitor. Qed.

Lemma ok_visit_Subscript l slice : in_range l -> ok (visit_Subscript self l slice (ret tt)).
Proof.
  intros H. unfold visit_Subscript.
  destruct slice as [| ? [|] | | | | | | |]; auto 8 with visitor.
Qed.

Lemma ok_visit_Attribute l attr : in_range l -> ok (visit_Attribute self l attr (ret tt)).
Proof. intros H. unfold visit_Attribute. auto with visitor. Qed.

(** What the visit method of a node does before [generic_visit]. *)
Definition head (n : node) : V :=
  match n with
  | Name _ _ => ret tt
  | Constant _ _ => ret tt
  | Attribute l _ attr => visit_Attribute self l attr (ret tt)
  | Subscript l _ slice => visit_Subscript self l slice (ret tt)
  | Call l func _ _ => visit_Call self l func (ret tt)
  | Import l names => visit_Import self l names (ret tt)
  | ImportFrom l module => visit_ImportFrom self l module (ret tt)
  | Assign l targets _ => visit_Assign self l targets (ret tt)
  | Other _ => ret tt
  end.

Lemma writer_head n : writer (head n).
Proof. destruct n; simpl; auto with visitor. Qed.

Lemma ok_head n :
  (forall l, lineno_of n = Some l -> in_range l) -> ok (head n).
Proof.
  intros H. destruct n; simpl; try reflexivity;
    auto using ok_visit_Attribute, ok_visit_Subscript, ok_visit_Call,
      ok_visit_Import, ok_visit_ImportFrom, ok_visit_Assign.
Qed.

Lemma visit_all_eq l :
  (fix visit_all (l : list node) : V :=
     match l with
     | [] => ret tt
     | x :: r => visit self x ;; visit_all r
     end) l = for_each l (visit self).
Proof. induction l as [|x r IH]; [reflexivity|]. simpl. now rewrite IH. Qed.

Lemma subnodes_all_eq l :
  (fix subnodes_all (l : list node) : list node :=
     match l with
     | [] => []
     | x :: r => subnodes x ++ subnodes_all r
     end) l = flat_map subnodes l.
Proof. induction l as [|x r IH]; [reflexivity|]. simpl. now rewrite IH. Qed.

Lemma writer_for_each_Forall {A} (l : list A) body :
  Forall (fun x => writer (body x)) l -> writer (for_each l body).
Proof.
  induction 1; simpl; [apply writer_ret|]. now apply writer_bind.
Qed.

Lemma writer_visit n : writer (visit self n).
Proof.
  induction n using node_induction; simpl; rewrite ?visit_all_eq;
    auto 8 using writer_for_each_Forall with visitor.
Qed.

#[local] Hint Resolve writer_visit writer_head : visitor.

(** The claim of the main induction: the visit goes through, and whatever
    the head of any node of the tree reports is among the errors. *)
Definition covered (n : node) : Prop :=
  located (length (lines self)) n ->
  ok (visit self n) /\
  forall sub, In sub (subnodes n) -> incl (out (head sub)) (out (visit self n)).

Lemma subnodes_eq n :
  subnodes n = n :: flat_map subnodes (iter_child_nodes n).
Proof.
  destruct n; simpl; rewrite ?subnodes_all_eq, ?flat_map_app; simpl;
    rewrite ?app_nil_r; reflexivity.
Qed.

Lemma located_child n c :
  located (length (lines self)) n -> In c (iter_child_nodes n) ->
  located (length (lines self)) c.
Proof.
  intros L Hc m l Hm. apply L. rewrite subnodes_eq. right.
  apply in_flat_map. eauto.
Qed.

Lemma located_root n l :
  located (length (lines self)) n -> lineno_of n = Some l -> in_range l.
Proof. intros L. apply L. rewrite subnodes_eq. now left. Qed.

Lemma covered_for_each cs :
  Forall covered cs ->
  (forall c, In c cs -> located (length (lines self)) c) ->
  ok (for_each cs (visit self)) /\
  forall sub, In sub (flat_map subnodes cs) ->
    incl (out (head sub)) (out (for_each cs (visit self))).
Proof.
  induction 1 as [|c cs Hc _ IH]; intros L; simpl.
  - split; [reflexivity|]. intros ? [].
  - destruct (Hc (L c (or_introl eq_refl))) as [Okc Inc].
    destruct IH as [Okr Inr]; [intros; apply L; now right|].
    assert (writer (for_each cs (visit self))) as Wr
      by (apply writer_for_each; auto with visitor).
    split; [apply ok_bind; auto with visitor|].
    intros sub Hsub. rewrite out_bind by auto with visitor.
    apply in_app_iff in Hsub as [Hsub|Hsub].
    + apply incl_appl, Inc, Hsub.
    + apply incl_appr, Inr, Hsub.
Qed.

Lemma for_each_app {A} (a b : list A) (body : A -> V) errors :
  for_each (a ++ b) body errors = (for_each a body ;; for_each b body) errors.
Proof.
  revert errors. induction a as [|x a IH]; intros errors; simpl.
  - reflexivity.
  - unfold bind. destruct (body x errors) as [[[]|e] errors']; [|reflexivity].
    rewrite IH. reflexivity.
Qed.

Lemma bind_cong (m k k' : V) errors :
  (forall errors', k errors' = k' errors') -> (m ;; k) errors = (m ;; k') errors.
Proof.
  intros H. unfold bind. destruct (m errors) as [[[]|e] errors'];
    [apply H|reflexivity].
Qed.

Lemma bind_ret_r (m : V) errors : (m ;; ret tt) errors = m errors.
Proof. unfold bind, ret. destruct (m errors) as [[[]|e] errors']; reflexivity. Qed.

Lemma bind_ret_mid (m k : V) errors :
  ((m ;; ret tt) ;; k) errors = (m ;; k) errors.
Proof.
  unfold bind, ret. destruct (m errors) as [[[]|e] errors']; reflexivity.
Qed.

(** A visit method is its own checks followed by [generic_visit]. *)
Lemma visit_Call_split l func k errors :
  visit_Call self l func k errors = (visit_Call self l func (ret tt) ;; k) errors.
Proof. destruct func; simpl; now rewrite ?bind_ret_mid. Qed.

Lemma visit_Import_split l names k errors :
  visit_Import self l names k errors
  = (visit_Import self l names (ret tt) ;; k) errors.
Proof. unfold visit_Import. now rewrite bind_ret_mid. Qed.

Lemma visit_ImportFrom_split l module k errors :
  visit_ImportFrom self l module k errors
  = (visit_ImportFrom self l module (ret tt) ;; k) errors.
Proof. unfold visit_ImportFrom. now rewrite bind_ret_mid. Qed.

Lemma visit_Assign_split l targets k errors :
  visit_Assign self l targets k errors
  = (visit_Assign self l targets (ret tt) ;; k) errors.
Proof. unfold visit_Assign. now rewrite bind_ret_mid. Qed.

Lemma visit_Subscript_split l slice k errors :
  visit_Subscript self l slice k errors
  = (visit_Subscript self l slice (ret tt) ;; k) errors.
Proof. unfold visit_Subscript. now rewrite bind_ret_mid. Qed.

Lemma visit_Attribute_split l attr k errors :
  visit_Attribute self l attr k errors
  = (visit_Attribute self l attr (ret tt) ;; k) errors.
Proof. unfold visit_Attribute. now rewrite bind_ret_mid. Qed.

(** [visit] is the head followed by the visit of the children. *)
Lemma visit_eq n errors :
  visit self n errors
  = (head n ;; for_each (iter_child_nodes n) (visit self)) errors.
Proof.
  destruct n; simpl head; simpl iter_child_nodes; simpl visit;
    rewrite ?visit_all_eq; simpl for_each; try reflexivity.
  - rewrite visit_Attribute_split. apply bind_cong. intros.
    now rewrite bind_ret_r.
  - rewrite visit_Subscript_split. apply bind_cong. intros.
    apply bind_cong. intros. now rewrite bind_ret_r.
  - rewrite visit_Call_split. apply bind_cong. intros.
    apply bind_cong. intros. now rewrite for_each_app.
  - now rewrite bind_ret_r.
  - now rewrite bind_ret_r.
  - rewrite visit_Assign_split. apply bind_cong. intros.
    rewrite for_each_app. apply bind_cong. intros.
    simpl. now rewrite bind_ret_r.
Qed.

Lemma covered_step n : Forall covered (iter_child_nodes n) -> covered n.
Proof.
  intros F L.
  destruct (covered_for_each _ F (fun c Hc => located_child n c L Hc))
    as [Okc Inc].
  assert (ok (head n)) as Okh by (apply ok_head; intros; eapply located_root; eauto).
  assert (writer (for_each (iter_child_nodes n) (visit self))) as W
    by (apply writer_for_each; auto with visitor).
  assert (ok (visit self n)) as Okv.
  { unfold ok. rewrite visit_eq. apply ok_bind; auto with visitor. }
  assert (out (visit self n)
          = out (head n) ++ out (for_each (iter_child_nodes n) (visit self))) as O.
  { unfold out at 1. rewrite visit_eq. apply out_bind; auto with visitor. }
  split; [exact Okv|]. intros sub Hsub. rewrite O.
  rewrite subnodes_eq in Hsub. destruct Hsub as [<-|Hsub].
  - apply incl_appl, incl_refl.
  - apply incl_appr, Inc, Hsub.
Qed.

Lemma covered_all n : covered n.
Proof.
  induction n using node_induction; apply covered_step; simpl;
    repeat first [ assumption
                 | apply List.Forall_nil
                 | apply List.Forall_cons
                 | apply Forall_app; split ].
Qed.

Lemma py_in_In x l : py_in x l = true <-> In x l.
Proof.
  unfold py_in. rewrite existsb_exists. split.
  - intros [y [Hy E]]. apply String.eqb_eq in E. now subst.
  - intros H. exists x. split; [exact H|apply String.eqb_refl].
Qed.

Lemma out_when_true (m : V) : out (when true m) = out m.
Proof. reflexivity. Qed.

(** What the head of a dangerous call reports. *)
Lemma head_call l func args keywords name :
  in_range l -> callee_name func = Some name -> In name DANGEROUS_BUILTINS ->
  exists line, getitem (lines self) (l - 1) = Some line /\
    In (error_text l line (function_blocked name))
       (out (head (Call l func args keywords))).
Proof.
  intros R C D. apply py_in_In in D.
  destruct (report_run self l (function_blocked name) R) as [line [G [_ O]]].
  exists line. split; [exact G|].
  assert (In (error_text l line (function_blocked name))
             (out (check_function_name self l name))) as H.
  { unfold check_function_name. rewrite out_bind; auto 8 with visitor.
    apply in_or_app. right. rewrite D, out_when_true, O. now left. }
  destruct func; try discriminate; simpl in C |- *; injection C as ->;
    (rewrite out_bind by auto using ok_check_function_name with visitor);
    apply in_or_app; now left.
Qed.

Lemma head_attribute l value attr :
  in_range l -> In attr DANGEROUS_BUILTINS ->
  exists line, getitem (lines self) (l - 1) = Some line /\
    In (error_text l line (attribute_blocked attr))
       (out (head (Attribute l value attr))).
Proof.
  intros R D. apply py_in_In in D.
  destruct (report_run self l (attribute_blocked attr) R) as [line [G [_ O]]].
  exists line. split; [exact G|]. unfold head, visit_Attribute.
  rewrite out_bind by auto with visitor. apply in_or_app. left.
  rewrite D, out_when_true, O. now left.
Qed.

Lemma head_subscript l value sl key :
  in_range l -> In key DANGEROUS_BUILTINS \/ startswith "__" key = true ->
  exists line, getitem (lines self) (l - 1) = Some line /\
    In (error_text l line (subscript_blocked key))
       (out (head (Subscript l value (Constant sl (CStr key))))).
Proof.
  intros R D.
  assert (py_in key DANGEROUS_BUILTINS || startswith "__" key = true) as T.
  { apply orb_true_iff. destruct D as [D|D]; [left; now apply py_in_In|now right]. }
  destruct (report_run self l (subscript_blocked key) R) as [line [G [_ O]]].
  exists line. split; [exact G|]. unfold head, visit_Subscript.
  rewrite out_bind by auto with visitor. apply in_or_app. left.
  rewrite T, out_when_true, O. now left.
Qed.

End Visit.

Section Verification.

Variable separate_magics_and_code : string -> list string * string * list string.
Variable ast_parse : string -> result string node.
Variable splitlines : string -> list string.
Variable repr_list : list string -> string.

(** C3. Whatever the allow and block lists are (none at all included), for
    a program that parses: verification returns a list of violations, and
    in it there is one for every call whose callee name is dangerous, one
    for every attribute access to a dangerous name, and one for every
    subscript whose key is a constant string that is dangerous or begins
    with two underscores. *)
Theorem dangerous_names_reported
  code allowed_modules blocked_modules allowed_functions blocked_functions
  allowed_variables magics python_code installs tree :
  separate_magics_and_code code = (magics, python_code, installs) ->
  ast_parse python_code = Ok tree ->
  allowed_modules = None \/ blocked_modules = None ->
  allowed_functions = None \/ blocked_functions = None ->
  let processed_lines := List.filter is_code_line (splitlines python_code) in
  located (length processed_lines) tree ->
  exists errors,
    code_snippet_verification separate_magics_and_code ast_parse splitlines
      repr_list code true allowed_modules blocked_modules allowed_functions
      blocked_functions allowed_variables = Ok (Some errors) /\
    (forall l func args keywords name,
       In (Call l func args keywords) (subnodes tree) ->
       callee_name func = Some name -> In name DANGEROUS_BUILTINS ->
       exists line, getitem processed_lines (l - 1) = Some line /\
         In (error_text l line (function_blocked name)) errors) /\
    (forall l value attr,
       In (Attribute l value attr) (subnodes tree) ->
       In attr DANGEROUS_BUILTINS ->
       exists line, getitem processed_lines (l - 1) = Some line /\
         In (error_text l line (attribute_blocked attr)) errors) /\
    (forall l value sl key,
       In (Subscript l value (Constant sl (CStr key))) (subnodes tree) ->
       In key DANGEROUS_BUILTINS \/ startswith "__" key = true ->
       exists line, getitem processed_lines (l - 1) = Some line /\
         In (error_text l line (subscript_blocked key)) errors).
Proof.
  intros Hsep Hparse Hm Hf processed_lines L.
  unfold code_snippet_verification. simpl negb. cbv iota.
  rewrite Hsep, Hparse. fold processed_lines.
  assert (exists self,
    FunctionCallValidator_init processed_lines allowed_modules blocked_modules
      allowed_functions blocked_functions allowed_variables = Ok self
    /\ lines self = processed_lines) as [self [-> Hl]].
  { unfold FunctionCallValidator_init.
    assert (is_none allowed_modules || is_none blocked_modules = true) as ->
      by (destruct Hm as [-> | ->]; [reflexivity|apply orb_true_r]).
    assert (is_none allowed_functions || is_none blocked_functions = true) as ->
      by (destruct Hf as [-> | ->]; [reflexivity|apply orb_true_r]).
    simpl. eauto. }
  rewrite <- Hl in L. destruct (covered_all self tree L) as [Okv Inc].
  unfold ok in Okv. unfold out in Inc.
  destruct (visit self tree []) as [r validator_errors]. simpl in Okv, Inc.
  subst r. eexists. split; [reflexivity|].
  assert (forall sub l, In sub (subnodes tree) -> lineno_of sub = Some l ->
            1 <= l <= Z.of_nat (length (lines self))) as R by exact L.
  rewrite <- Hl. repeat split.
  - intros l func args keywords name Hin C D.
    destruct (head_call self l func args keywords name) as [line [G I]];
      eauto. exists line. split; [exact G|].
    apply in_or_app. right. eapply Inc; eauto.
  - intros l value attr Hin D.
    destruct (head_attribute self l value attr) as [line [G I]]; eauto.
    exists line. split; [exact G|].
    apply in_or_app. right. eapply Inc; eauto.
  - intros l value sl key Hin D.
    destruct (head_subscript self l value sl key) as [line [G I]]; eauto.
    exists line. split; [exact G|].
    apply in_or_app. right. eapply Inc; eauto.
Qed.

End Verification.

Lemma dangerous_names_reported_witness :
  exists errors,
    code_snippet_verification
      (fun code => ([], code, [])) (fun _ => Ok example_tree)
      (fun _ => example_lines) (fun _ => "") example_code true
      None None None None None = Ok (Some errors) /\
    In ("Error on line 1: c = obj.__class__ => "
        +:+ "Attribute access to '__class__' is blocked for security reasons.")
       errors.
Proof.
  destruct (dangerous_names_reported
              (fun code => ([], code, [])) (fun _ => Ok example_tree)
              (fun _ => example_lines) (fun _ => "") example_code
              None None None None None [] example_code [] example_tree
              eq_refl eq_refl (or_introl eq_refl) (or_introl eq_refl))
    as [errors [H [_ [HA _]]]].
  - intros n l Hin. simpl in Hin.
    repeat (destruct Hin as [<-|Hin]; [simpl; intros [= <-]; simpl; lia|]).
    destruct Hin.
  - exists errors. split; [exact H|].
    destruct (HA 1 (Name 1 "obj") "__class__") as [line [G I]];
      [simpl; tauto | simpl; tauto |].
    vm_compute in G. injection G as <-. exact I.
Defined.


(** *** The errors of a visit, node by node *)

Section Reports.

Variable self : FunctionCallValidator.

Let in_range (l : Z) : Prop := 1 <= l <= Z.of_nat (length (lines self)).

(** What the visit method of a node reports by itself. *)
Definition own_errors (n : node) : list string := out (head self n).

(** The visit goes through and reports, node after node in the order of
    the visit, what each node reports by itself. *)
Definition exact (n : node) : Prop :=
  located (length (lines self)) n ->
  ok (visit self n) /\
  out (visit self n) = flat_map own_errors (subnodes n).

Lemma exact_for_each cs :
  Forall exact cs ->
  (forall c, In c cs -> located (length (lines self)) c) ->
  ok (for_each cs (visit self)) /\
  out (for_each cs (visit self)) = flat_map own_errors (flat_map subnodes cs).
Proof.
  induction 1 as [|c cs Hc _ IH]; intros L; simpl.
  - split; reflexivity.
  - destruct (Hc (L c (or_introl eq_refl))) as [Okc Outc].
    destruct IH as [Okr Outr]; [intros; apply L; now right|].
    assert (writer (for_each cs (visit self))) as Wr
      by (apply writer_for_each; intros; apply writer_visit).
    split; [apply ok_bind; auto using writer_visit|].
    rewrite out_bind by auto using writer_visit.
    now rewrite flat_map_app, Outc, Outr.
Qed.

Lemma exact_step n : Forall exact (iter_child_nodes n) -> exact n.
Proof.
  intros F L.
  destruct (exact_for_each _ F (fun c Hc => located_child self n c L Hc))
    as [Okc Outc].
  assert (ok (head self n)) as Okh
    by (apply ok_head; intros; eapply located_root; eauto).
  assert (writer (for_each (iter_child_nodes n) (visit self))) as W
    by (apply writer_for_each; intros; apply writer_visit).
  split.
  - unfold ok. rewrite visit_eq. apply ok_bind; auto using writer_head.
  - unfold out at 1. rewrite visit_eq.
    change (snd ((head self n;; for_each (iter_child_nodes n) (visit self)) []))
      with (out (head self n;; for_each (iter_child_nodes n) (visit self))).
    rewrite out_bind by auto using writer_head.
    rewrite Outc, subnodes_eq. reflexivity.
Qed.

Lemma exact_all n : exact n.
Proof.
  induction n using node_induction; apply exact_step; simpl;
    repeat first [ assumption
                 | apply List.Forall_nil
                 | apply List.Forall_cons
                 | apply Forall_app; split ].
Qed.

Lemma out_for_each_In {A} (l : list A) (body : A -> V) x :
  (forall y, writer (body y)) -> (forall y, ok (body y)) -> In x l ->
  incl (out (body x)) (out (for_each l body)).
Proof.
  intros W O. induction l as [|y l IH]; intros Hin; [destruct Hin|].
  simpl. rewrite out_bind by auto using writer_for_each.
  destruct Hin as [->|Hin].
  - apply incl_appl, incl_refl.
  - apply incl_appr, IH, Hin.
Qed.

Lemma before_dot_plain s : has_dot s = false -> before_dot s = s.
Proof.
  induction s as [|c s IH]; simpl; [reflexivity|].
  intros H. apply orb_false_iff in H as [E H]. now rewrite E, IH.
Qed.

(** A refusal means that one of the two lists is set. *)
Lemma refused_configured allowed blocked name :
  allow_block allowed blocked name = false ->
  negb (is_none allowed) || negb (is_none blocked) = true.
Proof. destruct allowed, blocked; simpl; try reflexivity. discriminate. Qed.

Lemma head_import l names name :
  in_range l -> In name names ->
  _is_allowed_module_import self (before_dot name) = false ->
  exists line, getitem (lines self) (l - 1) = Some line /\
    In (error_text l line
          ("Importing module '" +:+ before_dot name +:+ "' is not allowed. "))
       (own_errors (Import l names)).
Proof.
  intros R Hin D.
  destruct (report_run self l
              ("Importing module '" +:+ before_dot name +:+ "' is not allowed. ") R)
    as [line [G [_ O]]].
  exists line. split; [exact G|].
  unfold own_errors, head, visit_Import.
  unfold _is_allowed_module_import in D.
  rewrite (refused_configured _ _ _ D).
  rewrite out_bind; [|auto 8 with visitor..]. apply in_or_app. left.
  eapply (out_for_each_In names _ name);
    [intros; auto 6 with visitor|intros; auto 8 with visitor|exact Hin|].
  assert ((if has_dot name then before_dot name else name) = before_dot name)
    as -> by (destruct (has_dot name) eqn:E;
              [reflexivity|now rewrite before_dot_plain]).
  unfold _is_allowed_module_import. rewrite D. simpl negb.
  rewrite out_when_true, O. now left.
Qed.

Lemma head_import_from l m :
  in_range l -> before_dot m <> "" ->
  _is_allowed_module_import self (before_dot m) = false ->
  exists line, getitem (lines self) (l - 1) = Some line /\
    In (error_text l line
          (" Importing from module '" +:+ m +:+ "' is not allowed."))
       (own_errors (ImportFrom l (Some m))).
Proof.
  intros R Hne D.
  destruct (report_run self l
              (" Importing from module '" +:+ m +:+ "' is not allowed.") R)
    as [line [G [_ O]]].
  exists line. split; [exact G|].
  unfold own_errors, head, visit_ImportFrom.
  unfold _is_allowed_module_import in D.
  rewrite (refused_configured _ _ _ D).
  rewrite out_bind; [|auto 8 with visitor..]. apply in_or_app. left.
  assert ((if truthy m && has_dot m then before_dot m else m) = before_dot m)
    as ->.
  { destruct (has_dot m) eqn:E.
    - destruct m; [discriminate|reflexivity].
    - rewrite andb_false_r. now rewrite before_dot_plain. }
  unfold _is_allowed_module_import. rewrite D.
  assert (truthy (before_dot m) = true) as ->
    by (destruct (before_dot m); [contradiction|reflexivity]).
  cbn [andb negb]. rewrite !out_when_true, O. now left.
Qed.

(** [ast.walk] reaches every node of the tree, each once. *)
Lemma sizes_eq l :
  (fix sizes (l : list node) : nat :=
     match l with
     | [] => O
     | x :: r => (size x + sizes r)%nat
     end) l = list_sum (map size l).
Proof. induction l as [|x r IH]; [reflexivity|]. simpl. now rewrite IH. Qed.

Lemma size_eq n : size n = S (list_sum (map size (iter_child_nodes n))).
Proof.
  destruct n; simpl; rewrite ?sizes_eq, ?map_app, ?list_sum_app; simpl; lia.
Qed.

Lemma walk_queue_Permutation fuel todo :
  (list_sum (map size todo) <= fuel)%nat ->
  Permutation (walk_queue fuel todo) (flat_map subnodes todo).
Proof.
  revert todo. induction fuel as [|fuel IH]; intros todo H.
  - destruct todo as [|n todo]; [reflexivity|].
    simpl in H. rewrite size_eq in H. lia.
  - destruct todo as [|n todo]; [reflexivity|]. simpl.
    rewrite subnodes_eq. simpl. constructor.
    rewrite IH.
    + rewrite flat_map_app. apply Permutation_app_comm.
    + simpl in H. rewrite size_eq in H.
      rewrite map_app, list_sum_app. lia.
Qed.

Lemma walk_Permutation n : Permutation (walk n) (subnodes n).
Proof.
  unfold walk. rewrite walk_queue_Permutation; simpl; [|lia].
  now rewrite app_nil_r.
Qed.

Lemma head_assign l targets value target l' id :
  in_range l -> In target targets -> In (Name l' id) (subnodes target) ->
  _is_allowed_variable self id = false ->
  exists line, getitem (lines self) (l - 1) = Some line /\
    In (error_text l line ("Assigning to " +:+ id +:+ " is not allowed."))
       (own_errors (Assign l targets value)).
Proof.
  intros R Ht Hn D.
  destruct (report_run self l ("Assigning to " +:+ id +:+ " is not allowed.") R)
    as [line [G [_ O]]].
  exists line. split; [exact G|].
  unfold own_errors, head, visit_Assign.
  assert (negb (is_none (allowed_variables self)) = true) as ->.
  { unfold _is_allowed_variable in D.
    destruct (allowed_variables self); [reflexivity|discriminate]. }
  rewrite out_bind; [|auto 10 with visitor..]. apply in_or_app. left.
  eapply (out_for_each_In targets _ target);
    [intros; auto 8 with visitor|intros; auto 10 with visitor|exact Ht|].
  assert (In id (match target with
                 | Name _ id0 => [id0]
                 | _ => name_ids (walk target)
                 end)) as Hid.
  { assert (In id (name_ids (walk target))) as W.
    { unfold name_ids. apply in_flat_map. exists (Name l' id).
      split; [|now left].
      eapply Permutation_in; [symmetry; apply walk_Permutation|exact Hn]. }
    destruct target; exact W. }
  eapply (out_for_each_In _ _ id);
    [intros; auto 6 with visitor|intros; auto 8 with visitor|exact Hid|].
  rewrite D. simpl negb. rewrite out_when_true, O. now left.
Qed.

End Reports.

Lemma exact_visit self tree errors :
  located (length (lines self)) tree ->
  visit self tree errors
  = (Ok tt, errors ++ flat_map (own_errors self) (subnodes tree)).
Proof.
  intros L. destruct (exact_all self tree L) as [O E].
  rewrite (writer_visit self tree errors). unfold ok in O. unfold out in E.
  now rewrite O, E.
Qed.

(** X5. The error list of a visit is made of the reports of the nodes, one
    node after the other in the order of the visit (a node before its
    children, the children in field order): nothing else is reported and
    nothing is left out, and errors already in the list stay in front. *)
Theorem errors_follow_the_tree self tree errors :
  located (length (lines self)) tree ->
  visit self tree errors
  = (Ok tt, errors ++ flat_map (own_errors self) (subnodes tree)).
Proof. apply exact_visit. Qed.

Lemma errors_follow_the_tree_witness :
  visit (mkValidator example_lines None None None None None) example_tree []
  = (Ok tt,
     [ "Error on line 1: c = obj.__class__ => "
       +:+ "Attribute access to '__class__' is blocked for security reasons.";
       "Error on line 2: x = d['__foo'] => "
       +:+ "Subscript access to '__foo' is blocked for security reasons.";
       "Error on line 3: getattr(a, 'b')() => "
       +:+ "Function 'getattr' is blocked as it can be used to bypass security checks.";
       "Error on line 4: y = a[0](1) => "
       +:+ "Subscript-based function calls are not allowed for security reasons." ]).
Proof.
  rewrite (errors_follow_the_tree
             (mkValidator example_lines None None None None None)
             example_tree []).
  - vm_compute. reflexivity.
  - intros n l Hin. simpl in Hin.
    repeat (destruct Hin as [<-|Hin]; [simpl; intros [= <-]; simpl; lia|]).
    destruct Hin.
Defined.

(** X6. Every import the module lists refuse is reported: for [import a.b]
    the module judged and named is [a]; for [from a.b import c] the
    module judged is [a] and the one named is [a.b]. *)
Theorem refused_imports_reported self tree :
  located (length (lines self)) tree ->
  (forall l names name,
     In (Import l names) (subnodes tree) -> In name names ->
     _is_allowed_module_import self (before_dot name) = false ->
     exists line, getitem (lines self) (l - 1) = Some line /\
       In (error_text l line
             ("Importing module '" +:+ before_dot name +:+ "' is not allowed. "))
          (snd (visit self tree []))) /\
  (forall l m,
     In (ImportFrom l (Some m)) (subnodes tree) -> before_dot m <> "" ->
     _is_allowed_module_import self (before_dot m) = false ->
     exists line, getitem (lines self) (l - 1) = Some line /\
       In (error_text l line
             (" Importing from module '" +:+ m +:+ "' is not allowed."))
          (snd (visit self tree []))).
Proof.
  intros L. destruct (covered_all self tree L) as [_ Inc]. split.
  - intros l names name Hin Hn D.
    destruct (head_import self l names name) as [line [G I]]; auto.
    { exact (L _ _ Hin eq_refl). }
    exists line. split; [exact G|]. exact (Inc _ Hin _ I).
  - intros l m Hin Hne D.
    destruct (head_import_from self l m) as [line [G I]]; auto.
    { exact (L _ _ Hin eq_refl). }
    exists line. split; [exact G|]. exact (Inc _ Hin _ I).
Qed.

Lemma refused_imports_reported_witness :
  In "Error on line 1: import os.path => Importing module 'os' is not allowed. "
     (snd (visit (mkValidator ["import os.path"] None (Some ["os"]) None None None)
             (Other [Import 1 ["os.path"]]) [])).
Proof.
  destruct (refused_imports_reported
              (mkValidator ["import os.path"] None (Some ["os"]) None None None)
              (Other [Import 1 ["os.path"]])) as [H _].
  - intros n l Hin. simpl in Hin.
    repeat (destruct Hin as [<-|Hin]; [simpl; intros [= <-]; simpl; lia|]).
    destruct Hin.
  - destruct (H 1 ["os.path"] "os.path") as [line [G I]];
      [simpl; tauto | simpl; tauto | reflexivity |].
    vm_compute in G. injection G as <-. exact I.
Defined.

(** X7. With a list of allowed variables, every name that occurs in a target
    of an assignment and is not allowed is reported on the line of the
    assignment, also a name nested in a tuple, a subscript or an
    attribute of the target. *)
Theorem disallowed_assignments_reported self tree :
  located (length (lines self)) tree ->
  forall l targets value target l' id,
    In (Assign l targets value) (subnodes tree) -> In target targets ->
    In (Name l' id) (subnodes target) ->
    _is_allowed_variable self id = false ->
    exists line, getitem (lines self) (l - 1) = Some line /\
      In (error_text l line ("Assigning to " +:+ id +:+ " is not allowed."))
         (snd (visit self tree [])).
Proof.
  intros L l targets value target l' id Hin Ht Hn D.
  destruct (covered_all self tree L) as [_ Inc].
  destruct (head_assign self l targets value target l' id) as [line [G I]];
    auto.
  { exact (L _ _ Hin eq_refl). }
  exists line. split; [exact G|]. exact (Inc _ Hin _ I).
Qed.

Lemma disallowed_assignments_reported_witness :
  In "Error on line 1: a, b = 1, 2 => Assigning to b is not allowed."
     (snd (visit (mkValidator ["a, b = 1, 2"] None None None None (Some ["a"]))
             (Other [Assign 1 [Other [Name 1 "a"; Name 1 "b"]]
                       (Other [Constant 1 COther; Constant 1 COther])]) [])).
Proof.
  assert (located 1
            (Other [Assign 1 [Other [Name 1 "a"; Name 1 "b"]]
                      (Other [Constant 1 COther; Constant 1 COther])])) as L.
  { intros n l Hin. simpl in Hin.
    repeat (destruct Hin as [<-|Hin]; [simpl; intros [= <-]; simpl; lia|]).
    destruct Hin. }
  destruct (disallowed_assignments_reported
              (mkValidator ["a, b = 1, 2"] None None None None (Some ["a"]))
              _ L 1 [Other [Name 1 "a"; Name 1 "b"]]
              (Other [Constant 1 COther; Constant 1 COther])
              (Other [Name 1 "a"; Name 1 "b"]) 1 "b")
    as [line [G I]].
  - simpl. tauto.
  - simpl. tauto.
  - simpl. tauto.
  - reflexivity.
  - vm_compute in G. injection G as <-. exact I.
Defined.

(** *** Magics and code *)

Lemma separate_line_skip st line :
  is_code_line line = false -> separate_line st line = st.
Proof.
  unfold is_code_line, separate_line. intros H.
  apply negb_false_iff in H. now rewrite H.
Qed.

Lemma separate_lines_snoc lines line :
  separate_lines (lines ++ [line]) = separate_line (separate_lines lines) line.
Proof. unfold separate_lines. now rewrite fold_left_app. Qed.

(** A code line is not blank. *)
Lemma code_line_not_blank line :
  is_code_line line = true -> negb (truthy (strip line)) = false.
Proof.
  unfold is_code_line. intros H. apply negb_true_iff, orb_false_iff in H.
  tauto.
Qed.

(** The three patterns exclude each other where the loop tells them
    apart: a cell magic is neither a line magic nor a shell command. *)
Lemma cell_magic_exclusive line :
  cell_magic_pattern line = true ->
  line_magic_pattern line = false /\ shell_command_pattern line = false.
Proof.
  unfold cell_magic_pattern, line_magic_pattern, shell_command_pattern.
  destruct (lstrip line) as [|c rest]; [discriminate|].
  destruct (Ascii.eqb_spec c "%") as [->|N].
  - destruct rest as [|c' rest]; [discriminate|].
    destruct (Ascii.eqb_spec c' "%") as [->|N']; [intros _; split; reflexivity|].
    intros H. exfalso. apply N'.
    destruct c' as [[] [] [] [] [] [] [] []]; try discriminate H. reflexivity.
  - intros H. exfalso. apply N.
    destruct c as [[] [] [] [] [] [] [] []]; try discriminate H. reflexivity.
Qed.

(** What one turn of the loop does with a code line. *)
Inductive turn (st : separation) (line : string) : separation -> Prop :=
| turn_magic inside :
    inside_cell_magic st = true \/
    (line_magic_pattern line || shell_command_pattern line = true /\
     contains "pip install" line || contains "conda install" line = false) \/
    cell_magic_pattern line = true ->
    inside = inside_cell_magic st || cell_magic_pattern line ->
    turn st line
      (mkSeparation (magics st ++ [line]) (python_code st)
         (package_install_commands st) inside)
| turn_install :
    inside_cell_magic st = false ->
    line_magic_pattern line || shell_command_pattern line = true ->
    contains "pip install" line || contains "conda install" line = true ->
    turn st line
      (mkSeparation (magics st) (python_code st)
         (package_install_commands st ++ [line]) false)
| turn_python :
    inside_cell_magic st = false ->
    line_magic_pattern line = false -> shell_command_pattern line = false ->
    cell_magic_pattern line = false ->
    turn st line
      (mkSeparation (magics st) (python_code st ++ [line])
         (package_install_commands st) false).

Lemma separate_line_turn st line :
  is_code_line line = true -> turn st line (separate_line st line).
Proof.
  intros C. pose proof (code_line_not_blank line C) as B.
  unfold separate_line. unfold is_code_line in C.
  apply negb_true_iff in C. rewrite C, B.
  destruct (inside_cell_magic st) eqn:I.
  { apply turn_magic; [now left|now rewrite I]. }
  destruct (line_magic_pattern line || shell_command_pattern line) eqn:LM.
  - destruct (contains "pip install" line || contains "conda install" line)
      eqn:P.
    + now apply turn_install.
    + assert (cell_magic_pattern line = false) as NC.
      { destruct (cell_magic_pattern line) eqn:E; [|reflexivity].
        destruct (cell_magic_exclusive line E) as [E1 E2].
        rewrite E1, E2 in LM. discriminate. }
      apply turn_magic; [right; left; auto|now rewrite I, NC].
  - apply orb_false_iff in LM as [L1 L2].
    destruct (cell_magic_pattern line) eqn:E.
    + apply turn_magic; [right; right; exact E|now rewrite I, E].
    + now apply turn_python.
Qed.

Lemma Permutation_snoc_middle {A} (a b : list A) x :
  Permutation ((a ++ [x]) ++ b) ((a ++ b) ++ [x]).
Proof.
  rewrite <- !app_assoc. apply Permutation_app_head, Permutation_app_comm.
Qed.

Lemma separate_lines_sorted lines :
  let st := separate_lines lines in
  Permutation (magics st ++ python_code st ++ package_install_commands st)
    (List.filter is_code_line lines) /\
  sublist (magics st) lines /\ sublist (python_code st) lines /\
  sublist (package_install_commands st) lines /\
  Forall (fun line =>
            is_code_line line = true /\ line_magic_pattern line = false /\
            cell_magic_pattern line = false /\ shell_command_pattern line = false)
         (python_code st) /\
  Forall (fun line =>
            line_magic_pattern line || shell_command_pattern line = true /\
            contains "pip install" line || contains "conda install" line = true)
         (package_install_commands st).
Proof.
  induction lines as [|line lines IH] using rev_ind.
  - simpl. repeat split; constructor.
  - cbv zeta in IH |- *. rewrite separate_lines_snoc, List.filter_app. simpl.
    destruct IH as [P [S1 [S2 [S3 [F1 F2]]]]].
    destruct (is_code_line line) eqn:C.
    2:{ rewrite (separate_line_skip _ _ C), app_nil_r.
        repeat split; auto; now apply sublist_inserts_r. }
    destruct (separate_line_turn (separate_lines lines) line C)
      as [inside _ _|I LM PI|I L1 L2 L3]; simpl.
    + split; [|repeat split; auto;
               solve [now apply sublist_inserts_r
                     | apply sublist_app; [assumption|reflexivity]]].
      rewrite <- P. apply Permutation_snoc_middle.
    + split; [|repeat split; auto;
               try solve [now apply sublist_inserts_r
                         | apply sublist_app; [assumption|reflexivity]]].
      * rewrite <- P. now rewrite !app_assoc.
      * apply Forall_app. split; [exact F2|]. repeat constructor; assumption.
    + split; [|repeat split; auto;
               try solve [now apply sublist_inserts_r
                         | apply sublist_app; [assumption|reflexivity]]].
      * rewrite <- P. rewrite <- (app_assoc (magics _) _ [line]).
        apply Permutation_app_head, Permutation_snoc_middle.
      * apply Forall_app. split; [exact F1|]. repeat constructor; assumption.
Qed.

(** X8. The loop sorts the code lines (those that are neither blank nor
    comments) into its three lists and loses none: together the lists
    hold exactly the code lines, each list in the order of the text. No
    line of the Python code is a line magic, a cell magic or a shell
    command, and every package install command is a line magic or a shell
    command that mentions [pip install] or [conda install]. *)
Theorem separation_partitions lines :
  let st := separate_lines lines in
  Permutation (magics st ++ python_code st ++ package_install_commands st)
    (List.filter is_code_line lines) /\
  sublist (magics st) lines /\ sublist (python_code st) lines /\
  sublist (package_install_commands st) lines /\
  Forall (fun line =>
            is_code_line line = true /\ line_magic_pattern line = false /\
            cell_magic_pattern line = false /\ shell_command_pattern line = false)
         (python_code st) /\
  Forall (fun line =>
            line_magic_pattern line || shell_command_pattern line = true /\
            contains "pip install" line || contains "conda install" line = true)
         (package_install_commands st).
Proof. apply separate_lines_sorted. Qed.

(** Inside a cell magic every code line is a magic, to the end of the
    text. *)
Lemma inside_cell_magic_stays st lines :
  inside_cell_magic st = true ->
  fold_left separate_line lines st
  = mkSeparation (magics st ++ List.filter is_code_line lines) (python_code st)
      (package_install_commands st) true.
Proof.
  revert st. induction lines as [|line lines IH]; intros st I; simpl.
  - rewrite app_nil_r. destruct st. simpl in I. now subst.
  - destruct (is_code_line line) eqn:C.
    + pose proof (code_line_not_blank line C) as B.
      assert (separate_line st line
              = mkSeparation (magics st ++ [line]) (python_code st)
                  (package_install_commands st) true) as ->.
      { unfold separate_line. unfold is_code_line in C.
        apply negb_true_iff in C. now rewrite C, I, B. }
      rewrite IH by reflexivity. simpl. now rewrite <- app_assoc.
    + rewrite (separate_line_skip _ _ C). now apply IH.
Qed.

(** X9. A cell magic takes the rest of the text with it: from a line
    [%%name] on, every code line is counted among the magics, and the
    Python code and the package install commands are those of the lines
    before it. *)
Theorem cell_magic_takes_the_rest before line after :
  is_code_line line = true -> cell_magic_pattern line = true ->
  let st := separate_lines before in
  separate_lines (before ++ line :: after)
  = mkSeparation (magics st ++ line :: List.filter is_code_line after)
      (python_code st) (package_install_commands st) true.
Proof.
  intros C E st. unfold separate_lines. rewrite fold_left_app. simpl.
  fold (separate_lines before). fold st.
  assert (separate_line st line
          = mkSeparation (magics st ++ [line]) (python_code st)
              (package_install_commands st) true) as ->.
  { destruct (separate_line_turn st line C) as [inside _ ->|I LM _|I _ _ L3].
    - rewrite E, orb_true_r. reflexivity.
    - destruct (cell_magic_exclusive line E) as [E1 E2].
      rewrite E1, E2 in LM. discriminate.
    - congruence. }
  rewrite inside_cell_magic_stays by reflexivity. simpl.
  now rewrite <- app_assoc.
Qed.

Lemma cell_magic_takes_the_rest_witness :
  separate_magics_and_code
    (join (String "010" "") ["x = 1"; "%%bash"; "ls"; "y = 2"])
  = (["%%bash"; "ls"; "y = 2"], "x = 1", []).
Proof.
  unfold separate_magics_and_code.
  change (splitlines (join (String "010" "") ["x = 1"; "%%bash"; "ls"; "y = 2"]))
    with (["x = 1"] ++ "%%bash" :: ["ls"; "y = 2"]).
  rewrite (cell_magic_takes_the_rest ["x = 1"] "%%bash" ["ls"; "y = 2"]
             eq_refl eq_refl).
  reflexivity.
Defined.

(** *** The lines of the Python code *)

Definition no_linebreak (s : string) : Prop :=
  Forall (fun c => is_linebreak c = false) (list_ascii_of_string s).

Lemma splitlines_no_linebreak s : Forall no_linebreak (splitlines s).
Proof.
  assert (Forall no_linebreak (splitlines s) /\
          forall c, Forall no_linebreak (splitlines (String c s))) as [H _];
    [|exact H].
  induction s as [|c' s [IH1 IH2]].
  - split; [constructor|]. intros c. simpl.
    destruct (is_linebreak c) eqn:B.
    + destruct (Ascii.eqb c "013"); repeat constructor.
    + repeat constructor. exact B.
  - split; [apply IH2|]. intros c.
    change (splitlines (String c (String c' s))) with
      (if is_linebreak c then
         EmptyString ::
           (if Ascii.eqb c "013" then
              if Ascii.eqb c' "010" then splitlines s
              else splitlines (String c' s)
            else splitlines (String c' s))
       else
         match splitlines (String c' s) with
         | [] => [String c EmptyString]
         | line :: rest => String c line :: rest
         end).
    destruct (is_linebreak c) eqn:B.
    + constructor; [constructor|].
      destruct (Ascii.eqb c "013"); [|apply IH2].
      destruct (Ascii.eqb c' "010"); [exact IH1|apply IH2].
    + specialize (IH2 c').
      destruct (splitlines (String c' s)) as [|line rest].
      * repeat constructor. exact B.
      * apply Forall_cons in IH2 as [Hl Hr].
        constructor; [|exact Hr]. constructor; [exact B|exact Hl].
Qed.

(** A text without line end, followed by a line feed, is one line. *)
Lemma splitlines_line line s :
  no_linebreak line ->
  splitlines (line +:+ String "010" s) = line :: splitlines s.
Proof.
  induction line as [|c line IH]; intros N.
  - reflexivity.
  - apply Forall_cons in N as [Hc N].
    change (String c line +:+ String "010" s)
      with (String c (line +:+ String "010" s)).
    simpl. rewrite Hc, (IH N). reflexivity.
Qed.

Lemma splitlines_last line :
  no_linebreak line -> line <> "" -> splitlines line = [line].
Proof.
  induction line as [|c line IH]; intros N Hne; [contradiction|].
  apply Forall_cons in N as [Hc N]. simpl. rewrite Hc.
  destruct line as [|c' line]; [reflexivity|].
  rewrite (IH N) by discriminate. reflexivity.
Qed.

(** Joining lines with line feeds and splitting again gives the lines
    back, when none of them is empty or holds a line end. *)
Lemma splitlines_join lines :
  Forall (fun line => no_linebreak line /\ line <> "") lines ->
  splitlines (join (String "010" "") lines) = lines.
Proof.
  induction 1 as [|line lines [N Hne] _ IH]; [reflexivity|].
  destruct lines as [|line' lines].
  - simpl. now apply splitlines_last.
  - change (join (String "010" "") (line :: line' :: lines))
      with (line +:+ String "010" (join (String "010" "") (line' :: lines))).
    rewrite splitlines_line by exact N. now rewrite IH.
Qed.

Lemma code_line_not_empty line : is_code_line line = true -> line <> "".
Proof. intros H ->. discriminate H. Qed.

Lemma sublist_Forall {A} (P : A -> Prop) (l1 l2 : list A) :
  sublist l1 l2 -> Forall P l2 -> Forall P l1.
Proof.
  intros S F. apply Forall_forall. intros x Hx.
  rewrite Forall_forall in F. apply F. eapply elem_of_sublist; eauto.
Qed.

Lemma filter_keeps_all {A} (f : A -> bool) (l : list A) :
  Forall (fun x => f x = true) l -> List.filter f l = l.
Proof. induction 1 as [|x l H _ IH]; simpl; [reflexivity|]. now rewrite H, IH. Qed.

Lemma python_code_splits input_code :
  let st := separate_lines (splitlines input_code) in
  let '(_, python_code_str, _) := separate_magics_and_code input_code in
  splitlines python_code_str = python_code st /\
  List.filter is_code_line (splitlines python_code_str) = splitlines python_code_str.
Proof.
  intros st. unfold separate_magics_and_code. fold st.
  destruct (separate_lines_sorted (splitlines input_code))
    as [_ [_ [S [_ [F _]]]]].
  fold st in S, F.
  assert (splitlines (join (String "010" "") (python_code st)) = python_code st)
    as E.
  { apply splitlines_join.
    pose proof (sublist_Forall _ _ _ S (splitlines_no_linebreak input_code))
      as N.
    rewrite Forall_forall in N, F |- *. intros line Hin.
    split; [now apply N|]. apply code_line_not_empty, F, Hin. }
  rewrite E. split; [reflexivity|].
  apply filter_keeps_all. eapply Forall_impl; [exact F|].
  simpl. tauto.
Qed.

(** X10. The Python code that [separate_magics_and_code] returns, split into
    lines again, is the list of the lines the loop kept as code, and the
    second removal of blank lines and comments in
    [code_snippet_verification] removes nothing: line [k] of the text
    that is parsed is [processed_lines[k - 1]]. *)
Theorem processed_lines_are_code_lines input_code :
  let st := separate_lines (splitlines input_code) in
  let '(_, python_code_str, _) := separate_magics_and_code input_code in
  splitlines python_code_str = python_code st /\
  List.filter is_code_line (splitlines python_code_str) = splitlines python_code_str.
Proof. apply python_code_splits. Qed.

(** *** The outcomes of [code_snippet_verification] *)

Section Outcomes.

Variable ast_parse : string -> result string node.
Variable repr_list : list string -> string.

Let verify := code_snippet_verification separate_magics_and_code ast_parse
                splitlines repr_list.

(** The message for magics, when there are any. *)
Definition magics_error (magics : list string) : list string :=
  match magics with
  | [] => []
  | _ => ["Magic commands except package install are not allowed. Details: "
          +:+ repr_list magics]
  end.

(** X11. All the outcomes of a verification. Switched off, it returns [None].
    Code that does not parse gives the syntax error alone, the message
    about magics being dropped. With both lists of a pair set, the
    assertion of the validator fails and the exception leaves the
    function. Otherwise, the lines of the parsed tree being lines of the
    Python code, the result is the message about magics, if there are
    magics, followed by the reports of the nodes in the order of the
    visit. *)
Theorem verification_outcomes code allowed_modules blocked_modules
  allowed_functions blocked_functions allowed_variables :
  let st := separate_lines (splitlines code) in
  let python_code_str := join (String "010" "") (python_code st) in
  let run := verify code true allowed_modules blocked_modules allowed_functions
               blocked_functions allowed_variables in
  verify code false allowed_modules blocked_modules allowed_functions
    blocked_functions allowed_variables = Ok None /\
  (forall e, ast_parse python_code_str = Raise e ->
     run = Ok (Some ["Syntax error: " +:+ e])) /\
  (forall tree, ast_parse python_code_str = Ok tree ->
     (allowed_modules <> None /\ blocked_modules <> None ->
      run = Raise (AssertionError
                     "Only one of allowed_modules or blocked_modules can be set.")) /\
     (allowed_modules = None \/ blocked_modules = None ->
      allowed_functions <> None /\ blocked_functions <> None ->
      run = Raise (AssertionError
                     "Only one of allowed_functions or blocked_functions can be set.")) /\
     (allowed_modules = None \/ blocked_modules = None ->
      allowed_functions = None \/ blocked_functions = None ->
      located (length (python_code st)) tree ->
      run = Ok (Some
                  (magics_error (magics st) ++
                   flat_map
                     (own_errors
                        (mkValidator (python_code st) allowed_modules
                           blocked_modules allowed_functions blocked_functions
                           allowed_variables))
                     (subnodes tree))))).
Proof.
  intros st python_code_str run.
  split; [reflexivity|].
  pose proof (python_code_splits code) as PL.
  unfold separate_magics_and_code in PL. cbv zeta in PL.
  fold st in PL. fold python_code_str in PL. destruct PL as [E1 E2].
  assert (run =
          match ast_parse python_code_str with
          | Raise e => Ok (Some ["Syntax error: " +:+ e])
          | Ok tree =>
              match FunctionCallValidator_init (python_code st)
                      allowed_modules blocked_modules allowed_functions
                      blocked_functions allowed_variables with
              | Raise e => Raise e
              | Ok validator =>
                  match visit validator tree [] with
                  | (Ok _, validator_errors) =>
                      Ok (Some (magics_error (magics st) ++ validator_errors))
                  | (Raise e, _) => Raise e
                  end
              end
          end) as ->.
  { unfold run, verify, code_snippet_verification, separate_magics_and_code.
    fold st. fold python_code_str. simpl negb. cbv iota.
    rewrite E2, E1.
    destruct (ast_parse python_code_str); [|reflexivity].
    destruct (FunctionCallValidator_init _ _ _ _ _ _); [|reflexivity].
    destruct (visit _ _ _) as [[[]|e] errs]; [|reflexivity].
    unfold magics_error. destruct (magics st); reflexivity. }
  split.
  { intros e ->. reflexivity. }
  intros tree ->. unfold FunctionCallValidator_init. split; [|split].
  - intros [A B]. destruct allowed_modules, blocked_modules; try contradiction.
    reflexivity.
  - intros M [A B].
    assert (is_none allowed_modules || is_none blocked_modules = true) as ->
      by (destruct M as [-> | ->]; [reflexivity|apply orb_true_r]).
    destruct allowed_functions, blocked_functions; try contradiction.
    reflexivity.
  - intros M F L.
    assert (is_none allowed_modules || is_none blocked_modules = true) as ->
      by (destruct M as [-> | ->]; [reflexivity|apply orb_true_r]).
    assert (is_none allowed_functions || is_none blocked_functions = true) as ->
      by (destruct F as [-> | ->]; [reflexivity|apply orb_true_r]).
    simpl negb. cbv iota.
    now rewrite (exact_visit
                   (mkValidator (python_code st) allowed_modules blocked_modules
                      allowed_functions blocked_functions allowed_variables)
                   tree [] L).
Qed.

End Outcomes.

End VerifierProofs.

(** ** Paths and the file system *)

Module PathProofs.
Import Posix Fs.

Lemma basename_no_sep p : has_sep (basename p) = false.
Proof.
  induction p as [|c p IH]; simpl; [reflexivity|].
  destruct (Ascii.eqb c sep) eqn:E; [exact IH|].
  destruct (has_sep p) eqn:H; [exact IH|]. simpl. now rewrite E, H.
Qed.

Lemma split_no_sep b : has_sep b = false -> split b = [b].
Proof.
  induction b as [|c b IH]; simpl; [reflexivity|].
  intros H. apply orb_false_iff in H as [E H]. rewrite E, (IH H). reflexivity.
Qed.

Lemma split_nonempty a : split a <> [].
Proof.
  destruct a as [|c a]; simpl; [discriminate|].
  destruct (Ascii.eqb c sep); [discriminate|]. destruct (split a); discriminate.
Qed.

(** Splitting distributes over a separator. *)
Lemma split_app_sep a b : split (a +:+ "/" +:+ b) = split a ++ split b.
Proof.
  induction a as [|c a IH]; simpl; [reflexivity|].
  destruct (Ascii.eqb c sep); [now rewrite IH|].
  rewrite IH. pose proof (split_nonempty a). destruct (split a); [contradiction|].
  reflexivity.
Qed.

Lemma endswith_sep_inv a : endswith_sep a = true -> exists a', a = a' +:+ "/".
Proof.
  induction a as [|c a IH]; simpl; [discriminate|].
  destruct a as [|c' a].
  - intros E. apply Ascii.eqb_eq in E. subst c. now exists "".
  - intros H. destruct (IH H) as [a' ->]. now exists (String c a').
Qed.

Lemma follow_app f cur a b :
  follow f cur (a ++ b) =
    match follow f cur a with
    | Some cur' => follow f cur' b
    | None => None
    end.
Proof.
  revert cur. induction a as [|x a IH]; intros cur; simpl; [reflexivity|].
  destruct (step f cur x); [apply IH|reflexivity].
Qed.

Lemma startswith_sep_app a b :
  truthy a = true -> startswith_sep (a +:+ b) = startswith_sep a.
Proof. destruct a; [discriminate|reflexivity]. Qed.

Lemma truthy_app a b : truthy a = true -> truthy (a +:+ b) = true.
Proof. destruct a; [discriminate|reflexivity]. Qed.

Lemma append_cons c (a b : string) : String c a +:+ b = String c (a +:+ b).
Proof. reflexivity. Qed.

Lemma app_empty_r (a : string) : a +:+ "" = a.
Proof.
  induction a as [|c a IH]; [reflexivity|]. now rewrite append_cons, IH.
Qed.

Lemma append_assoc (a b c : string) : (a +:+ b) +:+ c = a +:+ b +:+ c.
Proof.
  induction a as [|x a IH]; [reflexivity|]. now rewrite !append_cons, IH.
Qed.

(** A name without separator joined to a directory that resolves is one
    step from it. *)
Lemma resolve_join f cwd d name :
  resolve f cwd = Some d -> is_dir f d = true -> has_sep name = false ->
  resolve f (join cwd [name]) = step f d name.
Proof.
  unfold resolve. intros R Hd Hn.
  destruct (truthy cwd) eqn:T; [simpl in R|discriminate].
  assert (startswith_sep name = false) as Hs.
  { destruct name as [|c name]; [reflexivity|]. simpl in Hn |- *.
    now apply orb_false_iff in Hn as [-> _]. }
  unfold join. simpl fold_left. unfold join2. rewrite Hs, T. simpl negb.
  rewrite orb_false_l.
  destruct (endswith_sep cwd) eqn:E.
  - apply endswith_sep_inv in E as [c ->].
    assert (truthy ((c +:+ "/") +:+ name) = true) as -> by now apply truthy_app.
    simpl negb. cbv iota. unfold start in *.
    rewrite (startswith_sep_app (c +:+ "/") name) by exact T.
    rewrite append_assoc.
    rewrite split_app_sep, (split_no_sep name Hn), follow_app.
    replace (c +:+ "/") with (c +:+ "/" +:+ "") in R
      by (now rewrite app_empty_r).
    rewrite split_app_sep, follow_app in R. simpl split in R.
    destruct (follow f _ (split c)) as [d0|]; [|discriminate].
    simpl in R |- *. unfold step in R at 1.
    destruct (is_dir f d0) eqn:D0; simpl in R; [|discriminate].
    injection R as <-. now destruct (step f d0 name).
  - assert (truthy (cwd +:+ "/" +:+ name) = true) as -> by now apply truthy_app.
    simpl negb. cbv iota. unfold start in *.
    rewrite startswith_sep_app by exact T.
    rewrite split_app_sep, (split_no_sep name Hn), follow_app, R. simpl.
    now destruct (step f d name).
Qed.

Lemma well_formedb_spec f : well_formedb f = true -> well_formed f.
Proof.
  unfold well_formedb. rewrite forallb_forall. intros H l e L N.
  specialize (H (l, e)). simpl in H.
  destruct l as [|x l]; [contradiction|]. apply H.
  apply list_elem_of_In, elem_of_map_to_list, L.
Qed.

Lemma parent_snoc (d : loc) name : parent (d ++ [name]) = d.
Proof. unfold parent. apply removelast_last. Qed.

Lemma is_dir_parent f d :
  well_formed f -> is_dir f d = true -> is_dir f (parent d) = true.
Proof.
  intros W H. destruct d as [|x d]; [reflexivity|].
  unfold is_dir in H. revert H.
  destruct (entries f !! (x :: d)) as [e|] eqn:L; [intros _|intros H; discriminate H].
  eapply W; [exact L|discriminate].
Qed.

(** A write through a name joined to the directory [d] either fails and
    changes nothing, or creates or replaces the regular file [name]
    directly in [d]. *)
Lemma write_file_join f cwd d name content f' :
  well_formed f ->
  resolve f cwd = Some d -> is_dir f d = true -> has_sep name = false ->
  write_file f (join cwd [name]) content = Ok f' ->
  resolve f (join cwd [name]) = Some (d ++ [name]) /\
  name <> "" /\ name <> "." /\ name <> ".." /\
  is_dir f (d ++ [name]) = false /\
  f' = mkFs (<[d ++ [name] := File content]> (entries f)) (here f).
Proof.
  intros W R Hd Hn. unfold write_file.
  rewrite (resolve_join f cwd d name R Hd Hn). unfold step. rewrite Hd. simpl negb.
  cbv iota.
  destruct (String.eqb name "") eqn:E1.
  { simpl. rewrite Hd. discriminate. }
  destruct (String.eqb name ".") eqn:E2.
  { simpl. rewrite Hd. discriminate. }
  destruct (String.eqb name "..") eqn:E3.
  { simpl. rewrite (is_dir_parent f d W Hd). discriminate. }
  simpl. destruct (is_dir f (d ++ [name])) eqn:D; [discriminate|].
  rewrite parent_snoc, Hd. simpl. intros [= <-].
  apply String.eqb_neq in E1, E2, E3. repeat split; assumption.
Qed.

Lemma is_dir_insert_file f l content l' :
  is_dir f l = false ->
  is_dir (mkFs (<[l := File content]> (entries f)) (here f)) l' = is_dir f l'.
Proof.
  intros H. unfold is_dir. simpl. destruct l' as [|x l']; [reflexivity|].
  destruct (decide (l = x :: l')) as [->|N].
  - rewrite lookup_insert_eq. unfold is_dir in H.
    destruct (entries f !! (x :: l')) as [[|]|]; congruence.
  - now rewrite lookup_insert_ne.
Qed.

Lemma follow_ext f f' cur names :
  (forall l, is_dir f' l = is_dir f l) -> follow f' cur names = follow f cur names.
Proof.
  intros H. revert cur. induction names as [|x names IH]; intros cur; simpl;
    [reflexivity|].
  unfold step. rewrite H. destruct (negb (is_dir f cur)); [reflexivity|].
  repeat (match goal with |- context [if ?b then _ else _] => destruct b end;
          auto).
Qed.

Lemma resolve_insert_file f l content p :
  is_dir f l = false ->
  resolve (mkFs (<[l := File content]> (entries f)) (here f)) p = resolve f p.
Proof.
  intros H. unfold resolve, start. simpl.
  destruct (negb (truthy p)); [reflexivity|].
  apply follow_ext. intros. now apply is_dir_insert_file.
Qed.


(** A name without separator is its own base name. *)
Lemma basename_plain b : has_sep b = false -> basename b = b.
Proof.
  induction b as [|c b IH]; simpl; [reflexivity|].
  intros H. apply orb_false_iff in H as [E H]. now rewrite E, H.
Qed.

Lemma basename_idempotent p : basename (basename p) = basename p.
Proof. apply basename_plain, basename_no_sep. Qed.

(** *** [os.makedirs] *)

Lemma is_dir_insert_dir es h k l :
  is_dir (mkFs es h) l = true -> is_dir (mkFs (<[k := Dir]> es) h) l = true.
Proof.
  unfold is_dir. simpl. destruct l as [|x l]; [reflexivity|].
  destruct (decide (k = x :: l)) as [->|N].
  - now rewrite lookup_insert_eq.
  - now rewrite lookup_insert_ne.
Qed.

Lemma well_formed_insert_dir es h cur name :
  well_formed (mkFs es h) -> is_dir (mkFs es h) cur = true ->
  well_formed (mkFs (<[cur ++ [name] := Dir]> es) h).
Proof.
  intros W Hc l e L N. simpl in L. apply is_dir_insert_dir.
  destruct (decide (cur ++ [name] = l)) as [<-|Ne].
  - now rewrite parent_snoc.
  - rewrite lookup_insert_ne in L by exact Ne. exact (W l e L N).
Qed.

(** Walking a path with [make_along] keeps what is there. *)
Lemma make_along_keeps es cur names es' :
  make_along es cur names = Ok es' ->
  forall l e, es !! l = Some e -> es' !! l = Some e.
Proof.
  revert es cur. induction names as [|name rest IH]; intros es cur; simpl.
  - intros [= <-]. auto.
  - destruct (String.eqb name "" || String.eqb name ".");
      [intros H; exact (IH _ _ H)|].
    destruct (String.eqb name ".."); [intros H; exact (IH _ _ H)|].
    destruct (es !! (cur ++ [name])) as [[|c]|] eqn:L.
    + intros H; exact (IH _ _ H).
    + destruct rest; discriminate.
    + intros H l e Hl. eapply IH; [exact H|].
      rewrite lookup_insert_ne; [exact Hl|]. intros <-. congruence.
Qed.

Lemma is_dir_keeps es es' h l :
  (forall l e, es !! l = Some e -> es' !! l = Some e) ->
  is_dir (mkFs es h) l = true -> is_dir (mkFs es' h) l = true.
Proof.
  intros K. unfold is_dir. simpl. destruct l as [|x l]; [reflexivity|].
  destruct (es !! (x :: l)) as [[|c]|] eqn:L; try discriminate.
  now rewrite (K _ _ L).
Qed.

(** Afterwards the path leads to a directory, and the tree is still well
    formed. *)
Lemma make_along_run h es cur names es' :
  well_formed (mkFs es h) -> is_dir (mkFs es h) cur = true ->
  make_along es cur names = Ok es' ->
  well_formed (mkFs es' h) /\
  exists l, follow (mkFs es' h) cur names = Some l /\
            is_dir (mkFs es' h) l = true.
Proof.
  revert es cur. induction names as [|name rest IH]; intros es cur W Hc; simpl.
  - intros [= <-]. split; [exact W|]. eauto.
  - intros H.
    assert (is_dir (mkFs es' h) cur = true) as Hc'.
    { eapply is_dir_keeps; [|exact Hc]. intros l e.
      eapply (make_along_keeps es cur (name :: rest)). exact H. }
    revert H. unfold step. rewrite Hc'. simpl negb. cbv iota.
    destruct (String.eqb name "" || String.eqb name ".");
      [intros H; exact (IH es cur W Hc H)|].
    destruct (String.eqb name "..").
    { intros H.
      exact (IH es (parent cur) W (is_dir_parent (mkFs es h) cur W Hc) H). }
    destruct (es !! (cur ++ [name])) as [[|c]|] eqn:L; intros H.
    + apply (IH es (cur ++ [name])); [exact W| |exact H].
      unfold is_dir. simpl. destruct (cur ++ [name]) eqn:E;
        [now destruct cur|]. now rewrite L.
    + destruct rest; discriminate.
    + apply (IH (<[cur ++ [name] := Dir]> es) (cur ++ [name]));
        [now apply well_formed_insert_dir| |exact H].
      unfold is_dir. simpl. destruct (cur ++ [name]) eqn:E;
        [now destruct cur|]. now rewrite lookup_insert_eq.
Qed.

(** [os.makedirs(p, exist_ok=True)] that returns: the entries there
    before are kept, and [p] now leads to a directory. *)
Lemma makedirs_run f p f' :
  well_formed f -> is_dir f (here f) = true -> makedirs f p = Ok f' ->
  well_formed f' /\ here f' = here f /\
  (forall l e, entries f !! l = Some e -> entries f' !! l = Some e) /\
  exists l, resolve f' p = Some l /\ is_dir f' l = true.
Proof.
  destruct f as [es h]. unfold makedirs, resolve. simpl. intros W Hh.
  destruct (negb (truthy p)); [discriminate|].
  destruct (make_along es (start (mkFs es h) p) (split p)) as [es'|e] eqn:E;
    [|discriminate].
  intros [= <-]. simpl.
  assert (is_dir (mkFs es h) (start (mkFs es h) p) = true) as Hs.
  { unfold start. destruct (startswith_sep p); [reflexivity|exact Hh]. }
  destruct (make_along_run h es _ _ es' W Hs E) as [W' [l [F D]]].
  split; [exact W'|]. split; [reflexivity|].
  split; [exact (make_along_keeps _ _ _ _ E)|].
  exists l. split; [exact F|exact D].
Qed.

End PathProofs.

(** ** The session registry and the routes *)

Module ServerProofs.
Import Posix Fs Server PathProofs.

(** The records the stop of a session adds to the log. *)
Definition stop_records (session_id : string) (session : ServerSession)
  : list (string * string) :=
  match env_stop_session (environment session) session_id with
  | Ok _ => []
  | Raise e => [("error", "Error stopping session " +:+ session_id +:+ ": "
                          +:+ str_of_exn e)]
  end ++ [("info", "Stopped session " +:+ session_id)].

Lemma stop_session_present session_id session m :
  _sessions m !! session_id = Some session ->
  stop_session session_id m =
    (Ok tt, mkManager (work_dir m) (delete session_id (_sessions m)) (disk m)
              (logged m ++ stop_records session_id session)).
Proof.
  intros H. unfold stop_session, bind at 1, get. rewrite H.
  unfold stop_records, try_except, bind, lift, log, set_sessions, modify.
  destruct (env_stop_session (environment session) session_id) as [[]|e];
    simpl; rewrite <- ?app_assoc; reflexivity.
Qed.

Lemma stop_session_absent session_id m :
  _sessions m !! session_id = None ->
  stop_session session_id m =
    (Raise (KeyError ("Session " +:+ session_id +:+ " not found")), m).
Proof. intros H. unfold stop_session, bind, get. now rewrite H. Qed.

Lemma session_exists_true session_id m :
  session_exists session_id m = true <-> is_Some (_sessions m !! session_id).
Proof. unfold session_exists. apply bool_decide_eq_true. Qed.

Lemma session_exists_false session_id m :
  session_exists session_id m = false <-> _sessions m !! session_id = None.
Proof.
  unfold session_exists. rewrite bool_decide_eq_false.
  symmetry. apply eq_None_not_Some.
Qed.

(** [create_session] when the id is free and the directories and the
    kernel can be made. *)
Lemma create_session_fresh new_environment session_id cwd0 m d1 d2 :
  let session_dir := join (work_dir m) ["sessions"; session_id] in
  let cwd := match cwd0 with None => join session_dir ["cwd"] | Some c => c end in
  let environment := new_environment (work_dir m) in
  let session := mkServerSession session_id environment [] 0 cwd session_dir in
  _sessions m !! session_id = None ->
  makedirs (disk m) session_dir = Ok d1 ->
  makedirs d1 cwd = Ok d2 ->
  env_start_session environment session_id session_dir cwd = Ok tt ->
  create_session new_environment session_id cwd0 m =
    (Ok session,
     mkManager (work_dir m) (<[session_id := session]> (_sessions m)) d2
       (logged m ++ [("info", "Created session " +:+ session_id
                              +:+ " with cwd=" +:+ cwd)])).
Proof.
  intros session_dir cwd environment session Hfree H1 H2 H3.
  apply session_exists_false in Hfree. subst session_dir cwd environment session.
  unfold create_session, os_makedirs, set_disk, set_sessions, log, modify,
    bind, get, lift, ret.
  rewrite Hfree, H1. cbn [disk work_dir _sessions logged].
  rewrite H2. cbn [disk work_dir _sessions logged]. rewrite H3. reflexivity.
Qed.

Lemma cleanup_loop_run ids m :
  fst (cleanup_loop ids m) = Ok tt /\
  _sessions (snd (cleanup_loop ids m))
    = foldl (fun s id => delete id s) (_sessions m) ids /\
  disk (snd (cleanup_loop ids m)) = disk m.
Proof.
  revert m. induction ids as [|id ids IH]; intros m; simpl; [auto|].
  unfold bind, try_except.
  destruct (_sessions m !! id) as [session|] eqn:L.
  - rewrite (stop_session_present id session m L). cbv beta iota.
    match goal with |- context [cleanup_loop ids ?m'] =>
      destruct (IH m') as [I1 [I2 I3]] end.
    rewrite I1, I2, I3. auto.
  - rewrite (stop_session_absent id m L). unfold log, modify. cbv beta iota.
    match goal with |- context [cleanup_loop ids ?m'] =>
      destruct (IH m') as [I1 [I2 I3]] end.
    rewrite I1, I2, I3. simpl. rewrite (delete_id _ _ L). auto.
Qed.

Lemma foldl_delete_lookup (s : gmap string ServerSession) ids k :
  foldl (fun s id => delete id s) s ids !! k
  = if bool_decide (k ∈ ids) then None else s !! k.
Proof.
  revert s. induction ids as [|id ids IH]; intros s; simpl; [reflexivity|].
  rewrite IH. destruct (decide (k = id)) as [->|N].
  - rewrite lookup_delete_eq.
    rewrite (bool_decide_eq_true_2 (id ∈ id :: ids))
      by (apply elem_of_cons; now left).
    now destruct (bool_decide _).
  - rewrite lookup_delete_ne by congruence.
    destruct (bool_decide (k ∈ ids)) eqn:B.
    + apply bool_decide_eq_true in B.
      now rewrite (bool_decide_eq_true_2 (k ∈ id :: ids))
        by (apply elem_of_cons; now right).
    + apply bool_decide_eq_false in B.
      now rewrite (bool_decide_eq_false_2 (k ∈ id :: ids))
        by (rewrite elem_of_cons; tauto).
Qed.

Lemma cleanup_all_run m :
  fst (cleanup_all m) = Ok tt /\ _sessions (snd (cleanup_all m)) = ∅.
Proof.
  unfold cleanup_all, bind at 1, get, bind.
  destruct (cleanup_loop_run (elements (dom (_sessions m))) m) as [I1 [I2 _]].
  destruct (cleanup_loop _ m) as [r m']. simpl in I1, I2. subst r.
  split; [reflexivity|]. simpl. rewrite I2. apply map_eq. intros k.
  rewrite foldl_delete_lookup, lookup_empty.
  destruct (bool_decide _) eqn:B; [reflexivity|].
  apply bool_decide_eq_false in B.
  apply not_elem_of_dom. intros D. apply B, elem_of_elements, D.
Qed.

(** C10. Stopping a registered session returns normally and removes the id
    from the map whether or not the kernel environment's stop raises; the
    error is only logged. Afterwards the session does not exist: a second
    stop is a not-found error (404 on the route), and a create with the
    same id passes the duplicate check and, the directories and the kernel
    being made, registers the session again (201 on the route).
    [cleanup_all] empties the map in the same way. *)
Theorem stop_session_removes new_environment create_id session_id session m :
  _sessions m !! session_id = Some session ->
  let m' := snd (stop_session session_id m) in
  fst (stop_session session_id m) = Ok tt /\
  _sessions m' = delete session_id (_sessions m) /\
  session_exists session_id m' = false /\
  disk m' = disk m /\
  (forall e, env_stop_session (environment session) session_id = Raise e ->
     logged m' = logged m ++
       [("error", "Error stopping session " +:+ session_id +:+ ": "
                  +:+ str_of_exn e);
        ("info", "Stopped session " +:+ session_id)]) /\
  fst (stop_session session_id m')
    = Raise (KeyError ("Session " +:+ session_id +:+ " not found")) /\
  status_of (fst (stop_session_route session_id m')) = 404 /\
  (forall cwd0 d1 d2,
     let session_dir := join (work_dir m') ["sessions"; session_id] in
     let cwd := match cwd0 with None => join session_dir ["cwd"] | Some c => c end in
     makedirs (disk m') session_dir = Ok d1 ->
     makedirs d1 cwd = Ok d2 ->
     env_start_session (new_environment (work_dir m')) session_id session_dir cwd
       = Ok tt ->
     let r := create_session new_environment session_id cwd0 m' in
     (exists session', fst r = Ok session') /\
     session_exists session_id (snd r) = true /\
     (truthy session_id = true ->
      status_of (fst (create_session_route new_environment create_id
                        (Some session_id) cwd0 m'))
        = 201)) /\
  fst (cleanup_all m) = Ok tt /\ _sessions (snd (cleanup_all m)) = ∅.
Proof.
  intros H m'. subst m'. rewrite (stop_session_present _ _ _ H). simpl.
  set (m' := mkManager _ _ _ _).
  assert (_sessions m' !! session_id = None) as N by apply lookup_delete_eq.
  split; [reflexivity|]. split; [reflexivity|].
  split; [now apply session_exists_false|]. split; [reflexivity|].
  split.
  { intros e He. unfold stop_records. now rewrite He. }
  split; [now rewrite stop_session_absent|].
  split.
  { unfold stop_session_route. apply session_exists_false in N. now rewrite N. }
  split; [|apply cleanup_all_run].
  intros cwd0 d1 d2. cbv zeta. intros H1 H2 H3.
  pose proof (create_session_fresh new_environment session_id cwd0 m' d1 d2
                N H1 H2 H3) as C.
  rewrite C. simpl. split; [eauto|]. split.
  - apply session_exists_true. simpl. rewrite lookup_insert_eq. eauto.
  - intros T. unfold create_session_route. rewrite T.
    apply session_exists_false in N. now rewrite N, C.
Qed.


Lemma stop_session_removes_witness :
  fst (stop_session "s1" example_manager) = Ok tt /\
  session_exists "s1" (snd (stop_session "s1" example_manager)) = false /\
  logged (snd (stop_session "s1" example_manager)) =
    [("error", "Error stopping session s1: Cleanup error");
     ("info", "Stopped session s1")].
Proof.
  destruct (stop_session_removes (fun _ => failing_environment) "0"
              "s1" example_session example_manager eq_refl)
    as [H1 [_ [H3 [_ [H5 _]]]]].
  split; [exact H1|]. split; [exact H3|].
  exact (H5 (EnvironmentError "Cleanup error") eq_refl).
Defined.

(** An upload, seen from the manager: on success the returned path is
    [join cwd (basename filename)], the file written is the one of that
    name directly in the directory [cwd] leads to, it holds the bytes
    handed in, and nothing else on the disk changes; on failure the disk
    is untouched. *)
Lemma upload_file_run session_id filename content m session d :
  well_formed (disk m) ->
  get_session session_id m = Some session ->
  resolve (disk m) (cwd session) = Some d ->
  is_dir (disk m) d = true ->
  let name := basename filename in
  let path := join (cwd session) [name] in
  (exists e, upload_file session_id filename content m = (Raise e, m)) \/
  (resolve (disk m) path = Some (d ++ [name]) /\
   name <> "" /\ name <> "." /\ name <> ".." /\
   upload_file session_id filename content m =
     (Ok path,
      mkManager (work_dir m) (_sessions m)
        (mkFs (<[d ++ [name] := File content]> (entries (disk m))) (here (disk m)))
        (logged m ++ [("info", "Uploaded file " +:+ name +:+ " to session "
                               +:+ session_id)])) /\
   read_file (mkFs (<[d ++ [name] := File content]> (entries (disk m)))
                (here (disk m))) path = Some content).
Proof.
  intros W G R Hd name path.
  assert (upload_file session_id filename content m =
          match write_file (disk m) path content with
          | Ok d' =>
              (Ok path,
               mkManager (work_dir m) (_sessions m) d'
                 (logged m ++ [("info", "Uploaded file " +:+ name
                                        +:+ " to session " +:+ session_id)]))
          | Raise e => (Raise (OSError e), m)
          end) as ->.
  { unfold upload_file, bind, get. rewrite G. fold name. fold path.
    destruct (write_file (disk m) path content); reflexivity. }
  destruct (write_file (disk m) path content) as [f'|e] eqn:Wr.
  - right.
    destruct (write_file_join (disk m) (cwd session) d name content f' W R Hd
                (basename_no_sep filename) Wr) as [Rp [N1 [N2 [N3 [Nd ->]]]]].
    fold path in Rp. repeat split; try assumption.
    unfold read_file. rewrite (resolve_insert_file _ _ _ _ Nd).
    rewrite Rp. simpl. now rewrite lookup_insert_eq.
  - left. eexists. reflexivity.
Qed.

Section Routes.

Variable b64decode : string -> result exn (list Byte.byte).
Variable encode_utf8 : string -> result exn (list Byte.byte).

(** C7. An upload to an existing session whose [cwd] is a directory,
    whatever the requested name: when the upload is answered with 200, the
    path written and returned is [join cwd (basename filename)]; it
    resolves to the file of that name directly in [cwd], so inside [cwd];
    that file holds exactly the decoded content and no other entry of the
    disk has changed. Otherwise the answer is an error and the disk is as
    before. *)
Theorem upload_stays_in_cwd session_id filename content encoding m session d bytes :
  well_formed (disk m) ->
  get_session session_id m = Some session ->
  resolve (disk m) (cwd session) = Some d ->
  is_dir (disk m) d = true ->
  (if String.eqb encoding "base64" then b64decode content
   else encode_utf8 content) = Ok bytes ->
  let name := basename filename in
  let path := join (cwd session) [name] in
  let r := upload_file_route b64decode encode_utf8
             session_id filename content encoding m in
  (status_of (fst r) = 500 /\ disk (snd r) = disk m) \/
  (fst r = Json 200 [("filename", filename); ("status", "uploaded");
                     ("path", path)] /\
   has_sep name = false /\
   resolve (disk m) path = Some (d ++ [name]) /\
   inside d (d ++ [name]) /\
   entries (disk (snd r)) = <[d ++ [name] := File bytes]> (entries (disk m)) /\
   read_file (disk (snd r)) path = Some bytes).
Proof.
  intros W G R Hd Hdec name path r. subst r. unfold upload_file_route.
  assert (session_exists session_id m = true) as ->
    by (apply session_exists_true; unfold get_session in G; rewrite G; eauto).
  simpl negb. cbv iota. rewrite Hdec.
  destruct (upload_file_run session_id filename bytes m session d W G R Hd)
    as [[e ->]|[Rp [N1 [N2 [N3 [-> Rd]]]]]].
  - left. split; reflexivity.
  - right. fold name path in Rp, Rd |- *. simpl.
    split; [reflexivity|]. split; [apply basename_no_sep|].
    split; [exact Rp|]. split; [exists [name]; split; [reflexivity|discriminate]|].
    split; [reflexivity|exact Rd].
Qed.

End Routes.

Lemma upload_stays_in_cwd_witness :
  let r := upload_file_route (fun _ => Ok [Byte.x78]) (fun _ => Ok [])
             "s1" "../../etc/passwd" "eA==" "base64" example_manager in
  fst r = Json 200 [("filename", "../../etc/passwd"); ("status", "uploaded");
                    ("path", "/w/sessions/s1/cwd/passwd")] /\
  read_file (disk (snd r)) "/w/sessions/s1/cwd/passwd" = Some [Byte.x78].
Proof.
  assert (well_formed (disk example_manager)) as W
    by (apply well_formedb_spec; vm_compute; reflexivity).
  destruct (upload_stays_in_cwd (fun _ => Ok [Byte.x78]) (fun _ => Ok [])
              "s1" "../../etc/passwd" "eA==" "base64" example_manager
              example_session ["w"; "sessions"; "s1"; "cwd"] [Byte.x78]
              W eq_refl eq_refl eq_refl eq_refl)
    as [[H _]|[H1 [_ [_ [_ [_ H2]]]]]].
  - vm_compute in H. discriminate H.
  - split; [exact H1|exact H2].
Defined.


Section Download.

Variable guess_type : string -> option string.
Variable chat_manager : option (string -> option string).

(** The part of the contract the route keeps: for an existing session, a
    name under which neither candidate path is a regular file is answered
    with 404. *)
Lemma download_artifact_absent session_id filename m session :
  get_session session_id m = Some session ->
  isfile (disk m) (join (cwd session) [filename]) = false ->
  isfile (disk m) (join (session_dir session) ["cwd"; filename]) = false ->
  download_artifact guess_type chat_manager session_id filename m
  = HTTPException 404 ("Artifact " +:+ filename +:+ " not found").
Proof.
  intros G H1 H2. unfold download_artifact, get_artifact_path.
  assert (session_exists session_id m = true) as ->
    by (apply session_exists_true; unfold get_session in G; rewrite G; eauto).
  now rewrite G, H1, H2.
Qed.

(** The route answers 200 or 404, never 403. *)
Lemma download_artifact_status session_id filename m :
  let r := download_artifact guess_type chat_manager session_id filename m in
  status_of r = 200 \/ status_of r = 404.
Proof.
  unfold download_artifact.
  match goal with |- context [match ?p with Some _ => _ | None => _ end] =>
    destruct p end; simpl; auto.
Qed.

End Download.

(** C1, at the input where the route departs from it. Session ["s1"]
    exists with [cwd] ["/w/sessions/s1/cwd"]; the requested name
    ["../secret.txt"] resolves to the file next to [cwd], outside of it.
    The route serves that file with status 200; it has no path that
    answers 403. *)
Theorem download_artifact_serves_outside_cwd :
  let m := example_manager in
  let r := download_artifact (fun _ => None) None "s1" "../secret.txt" m in
  session_exists "s1" m = true /\
  r = FileResponse "/w/sessions/s1/cwd/../secret.txt" "secret.txt"
        "application/octet-stream" /\
  status_of r = 200 /\
  resolve (disk m) "/w/sessions/s1/cwd" = Some ["w"; "sessions"; "s1"; "cwd"] /\
  resolve (disk m) "/w/sessions/s1/cwd/../secret.txt"
    = Some ["w"; "sessions"; "s1"; "secret.txt"] /\
  ~ inside ["w"; "sessions"; "s1"; "cwd"] ["w"; "sessions"; "s1"; "secret.txt"] /\
  (forall guess_type chat_manager session_id filename m',
     status_of (download_artifact guess_type chat_manager session_id filename m')
     <> 403).
Proof.
  repeat split; try (vm_compute; reflexivity).
  - intros [rest [E _]]. simpl in E. discriminate E.
  - intros guess_type chat_manager session_id filename m' H.
    destruct (download_artifact_status guess_type chat_manager session_id
                filename m') as [E|E]; rewrite E in H; discriminate H.
Qed.


(** *** The API key *)

(** X12. A request passes [verify_api_key] exactly when no key is configured,
    or it carries the configured key, or it comes from the local host
    without a key; every request turned away gets status 401. *)
Theorem api_key_decision api_key client_host provided_key :
  (verify_api_key api_key client_host provided_key = Ok tt <->
     given api_key = false \/ provided_key = api_key \/
     (is_local client_host = true /\ given provided_key = false)) /\
  (forall r, verify_api_key api_key client_host provided_key = Raise r ->
     status_of r = 401).
Proof.
  unfold verify_api_key.
  destruct (given api_key) eqn:A; simpl.
  2:{ split; [tauto|]. intros r H. discriminate H. }
  assert (given provided_key = false -> provided_key <> api_key) as Hne.
  { intros P E. rewrite E in P. congruence. }
  destruct (is_local client_host); destruct (given provided_key) eqn:P; simpl;
    try destruct (bool_decide (provided_key = api_key)) eqn:B; simpl;
    try apply bool_decide_eq_true in B; try apply bool_decide_eq_false in B;
    (split; [|intros r H; try discriminate H; injection H as <-; reflexivity]);
    split; try tauto; try discriminate;
    intros [H|[H|[H1 H2]]]; try discriminate; try contradiction;
    try (specialize (Hne eq_refl); contradiction).
Qed.

(** *** The registry *)

Lemma follow_keeps f f' cur names l :
  (forall l, is_dir f l = true -> is_dir f' l = true) ->
  follow f cur names = Some l -> follow f' cur names = Some l.
Proof.
  intros K. revert cur. induction names as [|x names IH]; intros cur; simpl;
    [auto|].
  unfold step. destruct (is_dir f cur) eqn:D; simpl; [|discriminate].
  rewrite (K _ D). simpl.
  repeat (match goal with |- context [if ?b then _ else _] => destruct b end;
          auto).
Qed.

Lemma resolve_keeps f f' p l :
  here f' = here f ->
  (forall l, is_dir f l = true -> is_dir f' l = true) ->
  resolve f p = Some l -> resolve f' p = Some l.
Proof.
  intros H K. unfold resolve, start. rewrite H.
  destruct (negb (truthy p)); [discriminate|]. now apply follow_keeps.
Qed.

(** The run of [create_session], by the results of its steps. *)
Lemma create_session_run new_environment session_id cwd0 m :
  let session_dir := join (work_dir m) ["sessions"; session_id] in
  let cwd := match cwd0 with None => join session_dir ["cwd"] | Some c => c end in
  let environment := new_environment (work_dir m) in
  let session := mkServerSession session_id environment [] 0 cwd session_dir in
  create_session new_environment session_id cwd0 m =
    if session_exists session_id m
    then (Raise (ValueError ("Session " +:+ session_id +:+ " already exists")), m)
    else
      match makedirs (disk m) session_dir with
      | Raise e => (Raise (OSError e), m)
      | Ok d1 =>
          let m1 := mkManager (work_dir m) (_sessions m) d1 (logged m) in
          match makedirs d1 cwd with
          | Raise e => (Raise (OSError e), m1)
          | Ok d2 =>
              let m2 := mkManager (work_dir m) (_sessions m) d2 (logged m) in
              match env_start_session environment session_id session_dir cwd with
              | Raise e => (Raise e, m2)
              | Ok _ =>
                  (Ok session,
                   mkManager (work_dir m) (<[session_id := session]> (_sessions m))
                     d2
                     (logged m ++ [("info", "Created session " +:+ session_id
                                            +:+ " with cwd=" +:+ cwd)]))
              end
          end
      end.
Proof.
  intros session_dir cwd environment session.
  subst session_dir cwd environment session.
  unfold create_session, os_makedirs, set_disk, set_sessions, log, modify,
    bind, get, lift, ret, raise.
  destruct (session_exists session_id m); [reflexivity|].
  destruct (makedirs (disk m) _) as [d1|e1]; [|reflexivity].
  cbn [disk work_dir _sessions logged].
  destruct (makedirs d1 _) as [d2|e2]; [|reflexivity].
  cbn [disk work_dir _sessions logged].
  destruct (env_start_session _ _ _ _) as [[]|e3]; reflexivity.
Qed.

Lemma create_session_cases new_environment session_id cwd0 m :
  let r := create_session new_environment session_id cwd0 m in
  (forall k, k <> session_id -> _sessions (snd r) !! k = _sessions m !! k) /\
  (forall e, fst r = Raise e -> _sessions (snd r) = _sessions m) /\
  (is_Some (_sessions m !! session_id) ->
   r = (Raise (ValueError ("Session " +:+ session_id +:+ " already exists")), m)) /\
  (forall session, fst r = Ok session ->
     _sessions m !! session_id = None /\
     _sessions (snd r) = <[session_id := session]> (_sessions m) /\
     active_session_count (snd r) = active_session_count m + 1 /\
     Server.session_id session = session_id /\
     loaded_plugins session = [] /\ execution_count session = 0 /\
     session_dir session = join (work_dir m) ["sessions"; session_id] /\
     cwd session = match cwd0 with
                   | Some c => c
                   | None => join (session_dir session) ["cwd"]
                   end).
Proof.
  intros r. subst r. rewrite create_session_run. cbv zeta.
  destruct (session_exists session_id m) eqn:Ex.
  { simpl. repeat split; try discriminate; auto. }
  apply session_exists_false in Ex.
  assert (is_Some (_sessions m !! session_id) -> False) as NS
    by (rewrite Ex; intros [? ?]; discriminate).
  destruct (makedirs (disk m) _) as [d1|e1];
    [|simpl; repeat split; try discriminate; auto; intros H; now apply NS in H].
  destruct (makedirs d1 _) as [d2|e2];
    [|simpl; repeat split; try discriminate; auto; intros H; now apply NS in H].
  destruct (env_start_session _ _ _ _) as [[]|e3];
    [|simpl; repeat split; try discriminate; auto; intros H; now apply NS in H].
  simpl. split; [|split; [|split]].
  - intros k Hk. now rewrite lookup_insert_ne.
  - discriminate.
  - intros H. now apply NS in H.
  - intros session [= <-]. simpl. repeat split; try assumption.
    unfold active_session_count. simpl.
    rewrite (map_size_insert_None _ _ _ Ex). lia.
Qed.

(** X13. [create_session] registers the new session under its id and nothing
    else: the other sessions stay as they are; a create that raises
    leaves the registry as it was, and it raises [ValueError] without any
    effect when the id is taken; a create that returns has found the id
    free, and the session it registers is new, with no plugin and no
    execution, in [work_dir/sessions/<id>]. *)
Theorem create_session_registers new_environment session_id cwd0 m :
  let r := create_session new_environment session_id cwd0 m in
  (forall k, k <> session_id -> _sessions (snd r) !! k = _sessions m !! k) /\
  (forall e, fst r = Raise e -> _sessions (snd r) = _sessions m) /\
  (is_Some (_sessions m !! session_id) ->
   r = (Raise (ValueError ("Session " +:+ session_id +:+ " already exists")), m)) /\
  (forall session, fst r = Ok session ->
     _sessions m !! session_id = None /\
     _sessions (snd r) = <[session_id := session]> (_sessions m) /\
     active_session_count (snd r) = active_session_count m + 1 /\
     Server.session_id session = session_id /\
     loaded_plugins session = [] /\ execution_count session = 0 /\
     session_dir session = join (work_dir m) ["sessions"; session_id] /\
     cwd session = match cwd0 with
                   | Some c => c
                   | None => join (session_dir session) ["cwd"]
                   end).
Proof. apply create_session_cases. Qed.

(** X14. A session that has been created has its directories: on a well
    formed disk, after [create_session] returns, the session directory and
    the working directory of the session lead to directories, and what
    was on the disk before is still there. *)
Theorem created_session_has_cwd new_environment session_id cwd0 m session :
  well_formed (disk m) -> is_dir (disk m) (here (disk m)) = true ->
  fst (create_session new_environment session_id cwd0 m) = Ok session ->
  let m' := snd (create_session new_environment session_id cwd0 m) in
  well_formed (disk m') /\
  (forall l e, entries (disk m) !! l = Some e -> entries (disk m') !! l = Some e) /\
  (exists d, resolve (disk m') (session_dir session) = Some d /\
             is_dir (disk m') d = true) /\
  (exists d, resolve (disk m') (cwd session) = Some d /\
             is_dir (disk m') d = true).
Proof.
  intros W Hh. rewrite create_session_run. cbv zeta.
  destruct (session_exists session_id m); [discriminate|].
  destruct (makedirs (disk m) _) as [d1|e1] eqn:M1; [|discriminate].
  destruct (makedirs d1 _) as [d2|e2] eqn:M2; [|discriminate].
  destruct (env_start_session _ _ _ _) as [[]|e3]; [|discriminate].
  simpl. intros [= <-]. simpl.
  destruct (makedirs_run _ _ _ W Hh M1) as [W1 [H1 [K1 [l1 [R1 D1]]]]].
  assert (is_dir d1 (here d1) = true) as Hh1.
  { rewrite H1. destruct (disk m) as [es h], d1 as [es1 h1]. simpl in *.
    eapply is_dir_keeps; [|exact Hh]. subst h1. exact K1. }
  destruct (makedirs_run _ _ _ W1 Hh1 M2) as [W2 [H2 [K2 [l2 [R2 D2]]]]].
  assert (forall l, is_dir d1 l = true -> is_dir d2 l = true) as Kd.
  { intros l. destruct d1 as [es1 h1], d2 as [es2 h2]. simpl in *. subst h2.
    apply is_dir_keeps. exact K2. }
  split; [exact W2|]. split; [intros l e L; apply K2, K1, L|].
  split.
  - exists l1. split; [|apply Kd, D1].
    apply (resolve_keeps d1 d2); [exact H2|exact Kd|exact R1].
  - exists l2. split; [exact R2|exact D2].
Qed.

Lemma created_session_has_cwd_witness :
  let start := mkManager "/w" ∅ (mkFs ∅ []) [] in
  let kernel := fun _ : string => mkEnvironment (fun _ _ _ => Ok tt) (fun _ => Ok tt) in
  let m' := snd (create_session kernel "s1" None start) in
  resolve (disk m') "/w/sessions/s1/cwd" = Some ["w"; "sessions"; "s1"; "cwd"] /\
  is_dir (disk m') ["w"; "sessions"; "s1"; "cwd"] = true.
Proof.
  intros start kernel m'.
  assert (well_formed (disk start)) as W
    by (apply well_formedb_spec; vm_compute; reflexivity).
  destruct (created_session_has_cwd kernel "s1" None start
              (mkServerSession "s1" (kernel "/w") [] 0 "/w/sessions/s1/cwd"
                 "/w/sessions/s1")
              W eq_refl eq_refl) as [_ [_ [_ [d [R D]]]]].
  change (resolve (disk m') "/w/sessions/s1/cwd" = Some d) in R.
  assert (resolve (disk m') "/w/sessions/s1/cwd"
          = Some ["w"; "sessions"; "s1"; "cwd"]) as E
    by (vm_compute; reflexivity).
  rewrite E in R. injection R as <-. split; [exact E|exact D].
Defined.

(** X15. Creating a session and then stopping it gives the registry back as it
    was, whatever the stop of the kernel does. *)
Theorem create_then_stop new_environment session_id cwd0 m session :
  fst (create_session new_environment session_id cwd0 m) = Ok session ->
  let m1 := snd (create_session new_environment session_id cwd0 m) in
  fst (stop_session session_id m1) = Ok tt /\
  _sessions (snd (stop_session session_id m1)) = _sessions m /\
  active_session_count (snd (stop_session session_id m1)) = active_session_count m /\
  disk (snd (stop_session session_id m1)) = disk m1.
Proof.
  intros H m1.
  destruct (create_session_cases new_environment session_id cwd0 m)
    as [_ [_ [_ C]]].
  destruct (C session H) as [N [E _]]. fold m1 in E.
  assert (_sessions m1 !! session_id = Some session) as L
    by (rewrite E; apply lookup_insert_eq).
  rewrite (stop_session_present _ _ _ L). simpl.
  assert (delete session_id (_sessions m1) = _sessions m) as D
    by (rewrite E, delete_insert_eq; now apply delete_id).
  unfold active_session_count. simpl. now rewrite D.
Qed.

Lemma create_then_stop_witness :
  let start := mkManager "/w" ∅ (mkFs ∅ []) [] in
  let m1 := snd (create_session (fun _ => failing_environment) "s1" None start) in
  fst (stop_session "s1" m1) = Ok tt /\
  _sessions (snd (stop_session "s1" m1)) = ∅ /\
  active_session_count (snd (stop_session "s1" m1)) = 0.
Proof.
  intros start m1.
  destruct (create_then_stop (fun _ => failing_environment) "s1" None start
              (mkServerSession "s1" failing_environment [] 0
                 "/w/sessions/s1/cwd" "/w/sessions/s1") eq_refl)
    as [H1 [H2 [H3 _]]].
  split; [exact H1|]. split; [exact H2|exact H3].
Defined.

(** *** Upload and download *)

Lemma write_file_isfile f p content f' :
  write_file f p content = Ok f' ->
  isfile f' p = true /\ read_file f' p = Some content /\
  (forall q, isfile f q = true -> isfile f' q = true).
Proof.
  unfold write_file. destruct (resolve f p) as [l|] eqn:R; [|discriminate].
  destruct (is_dir f l) eqn:D; [discriminate|].
  destruct (negb (is_dir f (parent l))); [discriminate|]. intros [= <-].
  unfold isfile, read_file. rewrite !(resolve_insert_file _ _ _ _ D), R. simpl.
  rewrite lookup_insert_eq. split; [reflexivity|]. split; [reflexivity|].
  intros q. rewrite (resolve_insert_file _ _ _ _ D).
  destruct (resolve f q) as [lq|]; [|discriminate].
  destruct (decide (l = lq)) as [<-|N].
  - now rewrite lookup_insert_eq.
  - now rewrite lookup_insert_ne.
Qed.

Section RoundTrip.

Variable guess_type : string -> option string.
Variable chat_manager : option (string -> option string).

(** X16. What has been uploaded can be downloaded: after [upload_file] has
    returned a path, the download route, asked for the base name of the
    uploaded name, serves the file at that path, and the file holds the
    uploaded bytes. *)
Theorem uploaded_file_is_served session_id filename content m path :
  fst (upload_file session_id filename content m) = Ok path ->
  let m' := snd (upload_file session_id filename content m) in
  get_artifact_path session_id (basename filename) m' = Some path /\
  read_file (disk m') path = Some content /\
  download_artifact guess_type chat_manager session_id (basename filename) m'
  = FileResponse path (basename filename)
      (match guess_type path with
       | Some t => t
       | None => "application/octet-stream"
       end).
Proof.
  unfold upload_file, bind, get.
  destruct (get_session session_id m) as [session|] eqn:G; [|discriminate].
  destruct (write_file (disk m) _ content) as [d|e] eqn:Wr; [|discriminate].
  simpl. intros [= <-].
  destruct (write_file_isfile _ _ _ _ Wr) as [I [Rd _]].
  assert (get_artifact_path session_id (basename filename)
            (mkManager (work_dir m) (_sessions m) d
               (logged m ++ [("info", "Uploaded file " +:+ basename filename
                                      +:+ " to session " +:+ session_id)]))
          = Some (join (cwd session) [basename filename])) as GA.
  { unfold get_artifact_path, get_session in *. cbn [_sessions disk].
    rewrite G. now rewrite I. }
  split; [exact GA|]. split; [exact Rd|].
  unfold download_artifact.
  assert (session_exists session_id
            (mkManager (work_dir m) (_sessions m) d
               (logged m ++ [("info", "Uploaded file " +:+ basename filename
                                      +:+ " to session " +:+ session_id)]))
          = true) as ->.
  { apply session_exists_true. simpl. unfold get_session in G. rewrite G. eauto. }
  rewrite GA, basename_idempotent. reflexivity.
Qed.

End RoundTrip.

Lemma uploaded_file_is_served_witness :
  let m' := snd (upload_file "s1" "../../etc/passwd" [Byte.x78] example_manager) in
  get_artifact_path "s1" "passwd" m' = Some "/w/sessions/s1/cwd/passwd" /\
  read_file (disk m') "/w/sessions/s1/cwd/passwd" = Some [Byte.x78] /\
  download_artifact (fun _ => None) None "s1" "passwd" m'
  = FileResponse "/w/sessions/s1/cwd/passwd" "passwd" "application/octet-stream".
Proof.
  intros m'.
  exact (uploaded_file_is_served (fun _ => None) None "s1" "../../etc/passwd"
           [Byte.x78] example_manager "/w/sessions/s1/cwd/passwd" eq_refl).
Defined.

(** *** Plugins *)

Section Plugins.

Variable plugin_config : Type.
Variable env_load_plugin :
  Environment -> string -> string -> string -> plugin_config -> result exn unit.

Lemma existsb_eqb_In x l : existsb (String.eqb x) l = true <-> In x l.
Proof.
  rewrite existsb_exists. split.
  - intros [y [Hy E]]. apply String.eqb_eq in E. now subst.
  - intros H. exists x. split; [exact H|apply String.eqb_refl].
Qed.

Lemma with_plugin_NoDup name session :
  NoDup (loaded_plugins session) ->
  NoDup (loaded_plugins (with_plugin name session)) /\
  In name (loaded_plugins (with_plugin name session)).
Proof.
  intros N. unfold with_plugin. simpl.
  destruct (existsb (String.eqb name) (loaded_plugins session)) eqn:E; simpl.
  - split; [exact N|]. now apply existsb_eqb_In.
  - split; [|apply in_or_app; right; now left].
    apply NoDup_app. split; [exact N|]. split; [|apply NoDup_singleton].
    intros x Hx Hs. apply list_elem_of_singleton in Hs. subst x.
    apply list_elem_of_In, existsb_eqb_In in Hx. congruence.
Qed.

(** X17. [load_plugin] records the name of the plugin in the session once: a
    list of loaded plugins without duplicates stays so and holds the
    name after a load that returns, loading a plugin again does not
    change the list, and a load the kernel refuses leaves the session as
    it was. The other sessions are not touched, and a session that does
    not exist is a [KeyError]. *)
Theorem load_plugin_records session_id name code config m :
  let r := load_plugin plugin_config env_load_plugin session_id name code config m in
  (get_session session_id m = None ->
   r = (Raise (KeyError ("Session " +:+ session_id +:+ " not found")), m)) /\
  (forall k, k <> session_id -> get_session k (snd r) = get_session k m) /\
  (forall e, fst r = Raise e -> snd r = m) /\
  (forall session, get_session session_id m = Some session ->
     fst r = Ok tt ->
     get_session session_id (snd r) = Some (with_plugin name session) /\
     In name (loaded_plugins (with_plugin name session)) /\
     (NoDup (loaded_plugins session) ->
      NoDup (loaded_plugins (with_plugin name session))) /\
     (In name (loaded_plugins session) ->
      with_plugin name session = session) /\
     with_plugin name (with_plugin name session) = with_plugin name session).
Proof.
  intros r. subst r. unfold load_plugin, bind, get, lift.
  destruct (get_session session_id m) as [session|] eqn:G.
  2:{ simpl. repeat split; try discriminate; auto. }
  destruct (env_load_plugin _ _ _ _ _) as [[]|e]; simpl.
  2:{ repeat split; try discriminate; auto. }
  split; [discriminate|]. split.
  { intros k Hk. unfold get_session. simpl. now rewrite lookup_insert_ne. }
  split; [discriminate|].
  intros s [= <-] _. split.
  { unfold get_session. simpl. apply lookup_insert_eq. }
  assert (forall s, In name (loaded_plugins s) -> with_plugin name s = s) as Hid.
  { intros s Hin. unfold with_plugin.
    apply existsb_eqb_In in Hin. rewrite Hin. simpl. now destruct s. }
  assert (In name (loaded_plugins (with_plugin name session))) as Hin.
  { unfold with_plugin. simpl.
    destruct (existsb (String.eqb name) (loaded_plugins session)) eqn:E; simpl.
    - now apply existsb_eqb_In.
    - apply in_or_app. right. now left. }
  split; [exact Hin|]. split; [intros N; now apply with_plugin_NoDup|].
  split; [apply Hid|]. apply Hid, Hin.
Qed.

End Plugins.

End ServerProofs.

(** ** The visible variables *)

Module ContextProofs.
Import Context.

Lemma length_take n s : (String.length (take n s) <= n)%nat.
Proof.
  unfold take. revert s. induction n as [|n IH]; intros s.
  - destruct s; simpl; lia.
  - destruct s as [|c s]; simpl; [lia|]. specialize (IH s). lia.
Qed.

Lemma take_short n s : (String.length s <= n)%nat -> take n s = s.
Proof.
  unfold take. revert s. induction n as [|n IH]; intros s H.
  - destruct s; [reflexivity|simpl in H; lia].
  - destruct s as [|c s]; simpl; [reflexivity|]. rewrite IH; [reflexivity|].
    simpl in H. lia.
Qed.

(** The entries of the snapshot are those the turns of the loop yield. *)
Lemma extract_loop_entries items acc visible :
  extract_loop items acc = Ok visible ->
  exists out, visible = acc ++ out /\
    forall entry, In entry out <->
      exists name v, In (name, v) items /\ visit_item name v = Ok (Some entry).
Proof.
  revert acc. induction items as [|[name v] items IH]; intros acc; simpl.
  - intros [= <-]. exists []. split; [now rewrite app_nil_r|].
    intros entry. split; [intros []|intros [? [? [[] _]]]].
  - destruct (visit_item name v) as [[entry|]|e] eqn:V; [| |discriminate].
    + intros H. destruct (IH _ H) as [out [-> Hout]].
      exists (entry :: out). split; [now rewrite <- app_assoc|].
      intros entry'. simpl. rewrite Hout. split.
      * intros [<-|[n [w [Hin Hv]]]]; [exists name, v; auto|exists n, w; auto].
      * intros [n [w [[[= <- <-]|Hin] Hv]]]; [left; congruence|right; eauto].
    + intros H. destruct (IH _ H) as [out [-> Hout]].
      exists out. split; [reflexivity|].
      intros entry'. rewrite Hout. split.
      * intros [n [w [Hin Hv]]]. exists n, w. auto.
      * intros [n [w [[[= <- <-]|Hin] Hv]]]; [congruence|eauto].
Qed.

(** A loop that returns has raised in no turn. *)
Lemma extract_loop_turns items acc visible name v :
  extract_loop items acc = Ok visible -> In (name, v) items ->
  exists r, visit_item name v = Ok r.
Proof.
  revert acc. induction items as [|[n w] items IH]; intros acc; simpl;
    [intros _ []|].
  destruct (visit_item n w) as [[entry|]|e] eqn:V; [| |discriminate];
    intros H [[= <- <-]|Hin]; eauto.
Qed.

Lemma snapshot_eq local_ns : snapshot local_ns = extract_loop local_ns [].
Proof.
  unfold snapshot, extract_visible_variables, bind, lift.
  destruct (extract_loop local_ns []); reflexivity.
Qed.

(** What a turn that keeps the entry has checked and rendered. *)
Lemma visit_item_kept name v entry :
  visit_item name v = Ok (Some entry) ->
  startswith "_" name = false /\ name_in name ignore_names = false /\
  is_module_or_function v = false /\ is_plugin v = false /\
  module_is_plugin v = Ok false /\
  entry = (name, take 500 (match as_ndarray v with
                           | Some r => render_ndarray r
                           | None => render_plain v
                           end)).
Proof.
  unfold visit_item.
  destruct (startswith "_" name); [discriminate|].
  destruct (name_in name ignore_names); [discriminate|]. simpl.
  destruct (is_module_or_function v); [discriminate|].
  destruct (is_plugin v); [discriminate|].
  destruct (module_is_plugin v) as [[|]|e]; try discriminate.
  destruct (as_ndarray v); intros [= <-]; auto 10.
Qed.


(** The extraction returns when no value that gets as far as the plugin
    test has a [__module__] that is not a [str]. *)
Lemma snapshot_returns local_ns :
  (forall name v, In (name, v) local_ns -> module_attr v <> Some AttrOther) ->
  exists visible, snapshot local_ns = Ok visible.
Proof.
  rewrite snapshot_eq. generalize (@nil (string * string)).
  induction local_ns as [|[name v] l IH]; intros acc H; simpl; [eauto|].
  assert (exists r, visit_item name v = Ok r) as [r ->].
  { unfold visit_item, module_is_plugin.
    destruct (startswith "_" name || name_in name ignore_names); [eauto|].
    destruct (is_module_or_function v); [eauto|].
    destruct (is_plugin v); [eauto|].
    destruct (module_attr v) as [[s|]|] eqn:A.
    - destruct (startswith _ s); [eauto|]. destruct (as_ndarray v); eauto.
    - exfalso. now apply (H name v (or_introl eq_refl)).
    - simpl. destruct (as_ndarray v); eauto. }
  destruct r; apply IH; intros n w Hin; apply (H n w); now right.
Qed.

(** In a dictionary a name has one value. *)
Lemma unique_value (local_ns : list (string * value)) name v w :
  NoDup (map fst local_ns) -> In (name, v) local_ns -> In (name, w) local_ns ->
  v = w.
Proof.
  induction local_ns as [|[n x] l IH]; simpl; [intros _ []|].
  intros ND Hv Hw. apply NoDup_cons in ND as [Nin ND].
  assert (forall y, In (n, y) l -> False) as Absent.
  { intros y Hy. apply Nin, list_elem_of_In, in_map_iff. now exists (n, y). }
  destruct Hv as [Ev|Hv], Hw as [Ew|Hw].
  - congruence.
  - inversion Ev; subst. exfalso. eauto.
  - inversion Ew; subst. exfalso. eauto.
  - eauto.
Qed.

(** C8, amended. The snapshot leaves out every name that starts with an
    underscore or is in the ignore set and every module, function or
    plugin instance; every rendered string has at most 500 characters; a
    string of at most 500 characters is rendered as it is; an array is
    rendered as ["ndarray shape=... dtype=... value=..."] cut to 500
    characters, or as ["<ndarray>"] when that rendering raises; any other
    value whose [repr] raises is rendered as ["<unrepresentable>"]. *)
Theorem snapshot_rules local_ns visible :
  NoDup (map fst local_ns) ->
  snapshot local_ns = Ok visible ->
  (forall name v, In (name, v) local_ns -> excluded name v ->
     ~ In name (map fst visible)) /\
  (forall name rendered, In (name, rendered) visible ->
     (String.length rendered <= 500)%nat) /\
  (forall name v, In (name, v) local_ns -> ~ excluded name v ->
     (forall s, as_ndarray v = None -> as_str v = Some s ->
        (String.length s <= 500)%nat -> In (name, s) visible) /\
     (forall t, as_ndarray v = Some (Ok t) ->
        In (name, take 500 ("ndarray shape=" +:+ shape t +:+ " dtype="
                            +:+ dtype t +:+ " value=" +:+ array2string t))
           visible) /\
     (forall e, as_ndarray v = Some (Raise e) -> In (name, "<ndarray>") visible) /\
     (forall e, as_ndarray v = None -> as_str v = None -> repr v = Raise e ->
        In (name, "<unrepresentable>") visible)).
Proof.
  intros ND H. rewrite snapshot_eq in H.
  pose proof (extract_loop_turns local_ns [] visible) as Turns.
  specialize (fun name v => Turns name v H).
  apply extract_loop_entries in H as [out [-> Hout]]. simpl.
  split; [|split].
  - intros name v Hin Ex Hvis. apply in_map_iff in Hvis as [[n r] [E Hr]].
    simpl in E. subst n. apply Hout in Hr as [n [w [Hw V]]].
    apply visit_item_kept in V as [K1 [K2 [K3 [K4 [K5 E]]]]].
    injection E as <- _.
    rewrite (unique_value local_ns name v w ND Hin Hw) in Ex.
    unfold excluded in Ex. intuition congruence.
  - intros name rendered Hr. apply Hout in Hr as [n [w [_ V]]].
    apply visit_item_kept in V as [_ [_ [_ [_ [_ E]]]]].
    injection E as _ ->. apply length_take.
  - intros name v Hin NEx.
    assert (exists entry, visit_item name v = Ok (Some entry)) as [entry V].
    { destruct (Turns name v Hin) as [[entry|] V]; [eauto|]. exfalso.
      apply NEx. unfold excluded. revert V. unfold visit_item.
      destruct (startswith "_" name); [tauto|].
      destruct (name_in name ignore_names); [tauto|]. simpl.
      destruct (is_module_or_function v); [tauto|].
      destruct (is_plugin v); [tauto|].
      destruct (module_is_plugin v) as [[|]|e]; [tauto| |discriminate].
      destruct (as_ndarray v); discriminate. }
    pose proof V as K. apply visit_item_kept in K as [_ [_ [_ [_ [_ ->]]]]].
    assert (In (name, take 500 match as_ndarray v with
                               | Some r => render_ndarray r
                               | None => render_plain v
                               end) out) as I by (apply Hout; eauto).
    repeat split.
    + intros s Ha Hs Hl. rewrite Ha in I. unfold render_plain in I.
      rewrite Hs in I. now rewrite take_short in I.
    + intros t Ha. now rewrite Ha in I.
    + intros e Ha. now rewrite Ha in I.
    + intros e Ha Hs Hr. rewrite Ha in I. unfold render_plain in I.
      now rewrite Hs, Hr in I.
Qed.

Lemma snapshot_rules_witness :
  (String.length "hello" <= 500)%nat /\
  In ("s", "hello")
     [("s", "hello"); ("bad", "<unrepresentable>"); ("n", "42")].
Proof.
  assert (NoDup (map fst [("_x", str_value "a"); ("s", str_value "hello");
                          ("bad", plain_value (Raise (OtherError "x")));
                          ("n", plain_value (Ok "42"))])) as ND
    by (apply NoDup_ListNoDup; repeat constructor; simpl; intuition discriminate).
  destruct (snapshot_rules _ _ ND eq_refl) as [_ [B R]].
  split.
  - apply (B "s"). simpl. auto.
  - destruct (R "s" (str_value "hello")) as [Rs _].
    + simpl. auto.
    + unfold excluded. vm_compute. intuition discriminate.
    + apply Rs; [reflexivity|reflexivity|simpl; lia].
Defined.

(** C8 as stated fails on an array whose rendering raises: the entry is
    kept, and it reads ["<ndarray>"], not ["<unrepresentable>"]. *)
Lemma unrepresentable_array_counterexample :
  ~ (forall local_ns visible name v,
       snapshot local_ns = Ok visible ->
       In (name, v) local_ns -> In name (map fst visible) ->
       rendering_raises v = true ->
       In (name, "<unrepresentable>") visible).
Proof.
  intros Claim.
  specialize (Claim [("arr", broken_array)] [("arr", "<ndarray>")]
                "arr" broken_array eq_refl).
  destruct Claim as [E|[]]; simpl; auto. discriminate E.
Qed.


(** *** The snapshot and [latest_variables] *)

(** A turn raises only at the test of [__module__]. *)
Lemma visit_item_raises name v e :
  visit_item name v = Raise e ->
  e = AttributeError "startswith" /\
  is_module_or_function v = false /\ is_plugin v = false /\
  module_attr v = Some AttrOther.
Proof.
  unfold visit_item, module_is_plugin.
  destruct (startswith "_" name || name_in name ignore_names); [discriminate|].
  destruct (is_module_or_function v); [discriminate|].
  destruct (is_plugin v); [discriminate|].
  destruct (module_attr v) as [[s|]|].
  - destruct (startswith _ s); [discriminate|].
    destruct (as_ndarray v); discriminate.
  - intros [= <-]. auto.
  - simpl. destruct (as_ndarray v); discriminate.
Qed.

(** The loop appends in the order of the items. *)
Lemma extract_loop_order items acc visible :
  extract_loop items acc = Ok visible ->
  exists out, visible = acc ++ out /\ sublist (map fst out) (map fst items).
Proof.
  revert acc. induction items as [|[name v] items IH]; intros acc; simpl.
  - intros [= <-]. exists []. split; [now rewrite app_nil_r|constructor].
  - destruct (visit_item name v) as [[entry|]|e] eqn:V; [| |discriminate].
    + intros H. destruct (IH _ H) as [out [-> S]].
      apply visit_item_kept in V as [_ [_ [_ [_ [_ ->]]]]].
      exists ((name, take 500 match as_ndarray v with
                              | Some r => render_ndarray r
                              | None => render_plain v
                              end) :: out).
      split; [now rewrite <- app_assoc|]. simpl. now constructor.
    + intros H. destruct (IH _ H) as [out [-> S]].
      exists out. split; [reflexivity|]. now constructor.
Qed.

Lemma extract_loop_raises items acc e :
  extract_loop items acc = Raise e ->
  e = AttributeError "startswith" /\
  exists name v, In (name, v) items /\
    is_module_or_function v = false /\ is_plugin v = false /\
    module_attr v = Some AttrOther.
Proof.
  revert acc. induction items as [|[name v] items IH]; intros acc; simpl;
    [discriminate|].
  destruct (visit_item name v) as [[entry|]|e'] eqn:V.
  - intros H. destruct (IH _ H) as [-> [n [w [I K]]]]. eauto 10.
  - intros H. destruct (IH _ H) as [-> [n [w [I K]]]]. eauto 10.
  - intros [= <-]. apply visit_item_raises in V as [-> K]. eauto 10.
Qed.

(** X26. A call of [extract_visible_variables] that returns has replaced
    [latest_variables] by the list it returns, whose names come in the
    order of the namespace. A call that raises has raised the
    [AttributeError] of a value that is neither module, function nor
    plugin instance and whose [__module__] is not a [str], and has left
    [latest_variables] as it was. *)
Theorem snapshot_replaces_or_keeps local_ns ctx :
  match extract_visible_variables local_ns ctx with
  | (Ok visible, ctx') =>
      latest_variables ctx' = visible /\
      sublist (map fst visible) (map fst local_ns)
  | (Raise e, ctx') =>
      ctx' = ctx /\ e = AttributeError "startswith" /\
      exists name v, In (name, v) local_ns /\
        is_module_or_function v = false /\ is_plugin v = false /\
        module_attr v = Some AttrOther
  end.
Proof.
  unfold extract_visible_variables, bind, lift, modify, ret.
  destruct (extract_loop local_ns []) as [visible|e] eqn:E.
  - simpl. split; [reflexivity|].
    apply extract_loop_order in E as [out [-> S]]. exact S.
  - split; [reflexivity|]. exact (extract_loop_raises _ _ _ E).
Qed.

End ContextProofs.

(** ** The service client *)

Module ClientProofs.
Import Server Client ServerProofs.

Section Client.

Variable new_environment : string -> Environment.
Variable create_id : string.

Local Abbreviation start := (Client.start new_environment create_id).
Local Abbreviation create_route :=
  (create_session_route new_environment create_id).

(** [start] on a client that is already started sends nothing. *)
Lemma start_started w : _started (client w) = true -> start w = (Ok tt, w).
Proof. intros H. unfold Client.start, bind, get. now rewrite H. Qed.

(** [start] when the server answers the create with 409. *)
Lemma start_conflict c srv :
  _started c = false ->
  status_of (fst (create_route (Some (session_id c)) (cwd c) srv)) = 409 ->
  start (mkWorld c srv) =
    (Ok tt,
     mkWorld (mkClient (session_id c) (cwd c) true)
             (snd (create_route (Some (session_id c)) (cwd c) srv))).
Proof.
  intros H S.
  unfold Client.start, try_except, bind, get, send, lift, _handle_response.
  cbn [client server]. rewrite H.
  change (server {| client := c; server := srv |}) with srv.
  change (client {| client := c; server := srv |}) with c.
  destruct (create_route (Some (session_id c)) (cwd c) srv) as [r srv'].
  simpl in S. cbv beta iota. rewrite S. reflexivity.
Qed.

(** [start] when the server answers the create with 201. *)
Lemma start_created c srv :
  _started c = false ->
  status_of (fst (create_route (Some (session_id c)) (cwd c) srv)) = 201 ->
  fst (start (mkWorld c srv)) = Ok tt /\
  _started (client (snd (start (mkWorld c srv)))) = true /\
  server (snd (start (mkWorld c srv)))
    = snd (create_route (Some (session_id c)) (cwd c) srv).
Proof.
  intros H S.
  unfold Client.start, try_except, bind, get, send, lift, _handle_response.
  cbn [client server]. rewrite H.
  change (server {| client := c; server := srv |}) with srv.
  change (client {| client := c; server := srv |}) with c.
  destruct (create_route (Some (session_id c)) (cwd c) srv) as [r srv'].
  simpl in S. cbv beta iota. rewrite S. simpl. auto.
Qed.

Lemma create_route_conflict session_id cwd srv :
  truthy session_id = true -> session_exists session_id srv = true ->
  create_route (Some session_id) cwd srv =
    (HTTPException 409 ("Session " +:+ session_id +:+ " already exists"), srv).
Proof. intros T E. unfold create_session_route. now rewrite T, E. Qed.

(** C9. When the session already exists on the server, the create POST is
    answered 409 and [start] returns normally with the client started, as
    it does after a create answered 201; the server is as it was. The
    session can then be used under the same id: its info is returned and
    [stop] stops it on the server. A second [start] does nothing. *)
Theorem start_adopts_existing_session c srv :
  _started c = false ->
  truthy (session_id c) = true ->
  session_exists (session_id c) srv = true ->
  let w := snd (start (mkWorld c srv)) in
  status_of (fst (create_route (Some (session_id c)) (cwd c) srv)) = 409 /\
  fst (start (mkWorld c srv)) = Ok tt /\
  _started (client w) = true /\
  session_id (client w) = session_id c /\
  server w = srv /\
  (forall srv0,
     status_of (fst (create_route (Some (session_id c)) (cwd c) srv0)) = 201 ->
     fst (start (mkWorld c srv0)) = Ok tt /\
     _started (client (snd (start (mkWorld c srv0)))) = _started (client w)) /\
  start w = (Ok tt, w) /\
  (exists info, fst (get_session_info w) = Ok info) /\
  fst (stop w) = Ok tt /\
  session_exists (session_id c) (server (snd (stop w))) = false.
Proof.
  intros H T E w.
  pose proof (create_route_conflict (session_id c) (cwd c) srv T E) as R.
  assert (status_of (fst (create_route (Some (session_id c)) (cwd c) srv)) = 409)
    as S by now rewrite R.
  subst w. rewrite (start_conflict c srv H S), R. simpl.
  split; [reflexivity|]. split; [reflexivity|]. split; [reflexivity|].
  split; [reflexivity|]. split; [reflexivity|].
  apply session_exists_true in E as [session L].
  split.
  { intros srv0 S0. destruct (start_created c srv0 H S0) as [A [B _]]. auto. }
  split; [now apply start_started|].
  split.
  { unfold get_session_info, bind, get, send, lift, get_session_info_route.
    simpl. unfold get_session. rewrite L. simpl. eauto. }
  unfold stop, bind at 1, get. simpl. unfold try_except, bind, send, lift.
  simpl. unfold stop_session_route.
  assert (session_exists (session_id c) srv = true) as ->
    by (apply session_exists_true; eauto).
  simpl. rewrite (stop_session_present _ _ _ L). simpl.
  split; [reflexivity|]. apply session_exists_false. simpl.
  apply lookup_delete_eq.
Qed.

End Client.

Lemma start_adopts_existing_session_witness :
  let w := snd (Client.start (fun _ => failing_environment) "0"
                  (mkWorld (mkClient "s1" None false) example_manager)) in
  _started (client w) = true /\ server w = example_manager /\
  fst (stop w) = Ok tt.
Proof.
  destruct (start_adopts_existing_session (fun _ => failing_environment) "0"
              (mkClient "s1" None false) example_manager
              eq_refl eq_refl eq_refl)
    as [_ [_ [H1 [_ [H2 [_ [_ [_ [H3 _]]]]]]]]].
  split; [exact H1|]. split; [exact H2|exact H3].
Defined.


(** *** Stopping and uploading *)

Section Lifecycle.

Variable new_environment : string -> Environment.
Variable create_id : string.

Local Abbreviation start := (Client.start new_environment create_id).
Local Abbreviation create_route :=
  (create_session_route new_environment create_id).

(** The run of [stop] on a started client, by what the server holds. *)
Lemma stop_run c srv :
  _started c = true ->
  stop (mkWorld c srv) =
    (Ok tt,
     mkWorld (mkClient (session_id c) (cwd c) false)
       (match _sessions srv !! session_id c with
        | Some session => snd (stop_session (session_id c) srv)
        | None => srv
        end)).
Proof.
  intros H. unfold stop, bind at 1, get. cbn [client]. rewrite H.
  unfold try_except, bind, send, lift, stop_session_route.
  cbn [negb]. cbv beta iota. cbn [client server].
  destruct (_sessions srv !! session_id c) as [session|] eqn:L.
  - assert (session_exists (session_id c) srv = true) as ->
      by (apply session_exists_true; eauto).
    simpl. rewrite (stop_session_present _ _ _ L). reflexivity.
  - assert (session_exists (session_id c) srv = false) as ->
      by now apply session_exists_false.
    reflexivity.
Qed.

(** X22. [stop], its request reaching the route: it returns, whether the
    server still has the session or answers 404, and leaves the client
    not started; the session is gone from the server and the other
    sessions are as they were. On a client that is not started it does
    nothing, so a second [stop] does nothing. *)
Theorem stop_always_clears w :
  let w' := snd (stop w) in
  fst (stop w) = Ok tt /\
  _started (client w') = false /\
  session_id (client w') = session_id (client w) /\
  cwd (client w') = cwd (client w) /\
  (_started (client w) = false -> w' = w) /\
  (_started (client w) = true ->
   session_exists (session_id (client w)) (server w') = false /\
   forall k, k <> session_id (client w) ->
     _sessions (server w') !! k = _sessions (server w) !! k) /\
  stop w' = (Ok tt, w').
Proof.
  destruct w as [c srv]. cbv zeta. cbn [client server].
  destruct (_started c) eqn:H.
  - rewrite (stop_run c srv H). cbn [fst snd client server session_id cwd _started].
    repeat split; try discriminate.
    + apply session_exists_false.
      destruct (_sessions srv !! session_id c) as [session|] eqn:L;
        [|exact L].
      rewrite (stop_session_present _ _ _ L). simpl. apply lookup_delete_eq.
    + intros k Hk.
      destruct (_sessions srv !! session_id c) as [session|] eqn:L;
        [|reflexivity].
      rewrite (stop_session_present _ _ _ L). simpl.
      now rewrite lookup_delete_ne.
  - assert (stop (mkWorld c srv) = (Ok tt, mkWorld c srv)) as E
      by (unfold stop, bind, get; cbn [client]; now rewrite H).
    rewrite E. cbn [fst snd client server]. rewrite E.
    repeat split; auto; discriminate.
Qed.

(** X23. A [start] answered 201 followed by [stop]: in between, the client
    works in the directory the server gave the session; afterwards the
    client is not started and the registry of the server is what it was
    before the [start]. *)
Theorem start_then_stop c srv :
  _started c = false -> truthy (session_id c) = true ->
  status_of (fst (create_route (Some (session_id c)) (cwd c) srv)) = 201 ->
  let w1 := snd (start (mkWorld c srv)) in
  let w2 := snd (stop w1) in
  fst (start (mkWorld c srv)) = Ok tt /\
  (exists session,
     _sessions (server w1) !! session_id c = Some session /\
     cwd (client w1) = Some (Server.cwd session)) /\
  fst (stop w1) = Ok tt /\
  _started (client w2) = false /\
  _sessions (server w2) = _sessions srv.
Proof.
  intros H T S.
  assert (exists session m1,
            create_session new_environment (session_id c) (cwd c) srv
            = (Ok session, m1) /\
            create_route (Some (session_id c)) (cwd c) srv
            = (Json 201 [("session_id", Server.session_id session);
                         ("status", "created"); ("cwd", Server.cwd session)], m1))
    as [session [m1 [C R]]].
  { revert S. unfold create_session_route. rewrite T.
    destruct (session_exists (session_id c) srv); [discriminate|].
    destruct (create_session new_environment (session_id c) (cwd c) srv)
      as [[session|e] m1]; [|discriminate]. eauto. }
  destruct (create_session_cases new_environment (session_id c) (cwd c) srv)
    as [_ [_ [_ K]]].
  rewrite C in K. destruct (K session eq_refl) as [N [E _]]. simpl in E.
  assert (start (mkWorld c srv)
          = (Ok tt, mkWorld (mkClient (session_id c) (Some (Server.cwd session)) true)
                      m1)) as St.
  { unfold Client.start, try_except, bind, get, send, lift, _handle_response.
    cbn [client server]. rewrite H.
    change (server {| client := c; server := srv |}) with srv.
    change (client {| client := c; server := srv |}) with c.
    rewrite R. reflexivity. }
  cbv zeta. rewrite St. cbn [fst snd].
  rewrite (stop_run (mkClient (session_id c) (Some (Server.cwd session)) true)
             m1 eq_refl).
  cbn [fst snd client server session_id cwd _started].
  assert (_sessions m1 !! session_id c = Some session) as L
    by (rewrite E; apply lookup_insert_eq).
  rewrite L. split; [reflexivity|]. split; [eauto|].
  split; [reflexivity|]. split; [reflexivity|].
  rewrite (stop_session_present _ _ _ L). simpl.
  rewrite E, delete_insert_eq. now apply delete_id.
Qed.

End Lifecycle.

Lemma start_then_stop_witness :
  let kernel := fun _ : string => failing_environment in
  let c := mkClient "s1" None false in
  let srv := mkManager "/w" ∅ (Fs.mkFs ∅ []) [] in
  let w1 := snd (Client.start kernel "0" (mkWorld c srv)) in
  cwd (client w1) = Some "/w/sessions/s1/cwd" /\
  fst (stop w1) = Ok tt /\
  _sessions (server (snd (stop w1))) = ∅.
Proof.
  intros kernel c srv w1.
  destruct (start_then_stop kernel "0" c srv eq_refl eq_refl eq_refl)
    as [_ [[session [L Hc]] [H3 [_ H5]]]].
  fold w1 in L, Hc, H3, H5.
  split; [|split; [exact H3|exact H5]].
  rewrite Hc. f_equal.
  assert (_sessions (server w1) !! "s1"
          = Some (mkServerSession "s1" failing_environment [] 0
                    "/w/sessions/s1/cwd" "/w/sessions/s1")) as L'
    by (vm_compute; reflexivity).
  change (session_id c) with "s1" in L. rewrite L' in L.
  injection L as <-. reflexivity.
Defined.

Section Files.

Variable b64encode : list Byte.byte -> string.
Variable b64decode : string -> result Server.exn (list Byte.byte).
Variable encode_utf8 : string -> result Server.exn (list Byte.byte).

Lemma upload_file_client_run c srv filename content :
  Client.upload_file b64encode b64decode encode_utf8 filename content
    (mkWorld c srv) =
    let (r, srv') :=
      upload_file_route b64decode encode_utf8 (session_id c) filename
        (b64encode content) "base64" srv in
    match _handle_response r with
    | Ok result =>
        (Ok (match dict_get "path" result with
             | Some path => path
             | None => ""
             end), mkWorld c srv')
    | Raise e => (Raise e, mkWorld c srv')
    end.
Proof.
  unfold Client.upload_file, bind, get, send, lift, ret.
  cbn [client server].
  destruct (upload_file_route _ _ _ _ _ _ srv) as [r srv'].
  destruct (_handle_response r); reflexivity.
Qed.

(** X24. An upload from the client to a session whose [cwd] is a directory,
    base 64 decoding what it encodes: either the client raises the error
    of status 500 and the disk of the server is as before, or it returns
    the path of the base name of the file under [cwd], and the file at
    that path holds the bytes the client was given. *)
Theorem client_upload_stores c srv filename content session d :
  Fs.well_formed (disk srv) ->
  get_session (session_id c) srv = Some session ->
  Fs.resolve (disk srv) (Server.cwd session) = Some d ->
  Fs.is_dir (disk srv) d = true ->
  b64decode (b64encode content) = Ok content ->
  let r := Client.upload_file b64encode b64decode encode_utf8 filename content
             (mkWorld c srv) in
  let path := Posix.join (Server.cwd session) [Posix.basename filename] in
  (exists message,
     fst r = Raise (ExecutionClientError message (Some 500)) /\
     disk (server (snd r)) = disk srv) \/
  (fst r = Ok path /\
   Fs.read_file (disk (server (snd r))) path = Some content).
Proof.
  intros W G R D B r path. subst r.
  rewrite upload_file_client_run. unfold upload_file_route.
  assert (session_exists (session_id c) srv = true) as ->
    by (apply session_exists_true; unfold get_session in G; rewrite G; eauto).
  simpl negb. cbv iota. rewrite String.eqb_refl, B.
  destruct (upload_file_run (session_id c) filename content srv session d
              W G R D) as [[e ->]|[_ [_ [_ [_ [-> Rd]]]]]].
  - left. eexists. split; reflexivity.
  - right. split; [reflexivity|exact Rd].
Qed.

End Files.

Lemma client_upload_stores_witness :
  let r := Client.upload_file (fun _ => "eA==") (fun _ => Ok [Byte.x78])
             (fun _ => Ok []) "../../etc/passwd" [Byte.x78]
             (mkWorld (mkClient "s1" None true) example_manager) in
  fst r = Ok "/w/sessions/s1/cwd/passwd" /\
  Fs.read_file (disk (server (snd r))) "/w/sessions/s1/cwd/passwd"
  = Some [Byte.x78].
Proof.
  intros r.
  assert (Fs.well_formed (disk example_manager)) as W
    by (apply PathProofs.well_formedb_spec; vm_compute; reflexivity).
  destruct (client_upload_stores (fun _ => "eA==") (fun _ => Ok [Byte.x78])
              (fun _ => Ok []) (mkClient "s1" None true) example_manager
              "../../etc/passwd" [Byte.x78] example_session
              ["w"; "sessions"; "s1"; "cwd"] W eq_refl eq_refl eq_refl eq_refl)
    as [[message [H _]]|H].
  - vm_compute in H. discriminate H.
  - exact H.
Defined.

End ClientProofs.

(** ** The streaming channel *)

Module StreamingProofs.
Import Streaming.

Section Execute.

Variable session_id : string.
Variable exec_id : string.
Variable base_url : string.

Local Abbreviation resume := (Streaming.resume session_id exec_id base_url).
Local Abbreviation loop_step := (Streaming.loop_step session_id exec_id base_url).
Local Abbreviation step := (Streaming.step session_id exec_id base_url).
Local Abbreviation next := (Streaming.next session_id exec_id base_url).
Local Abbreviation run := (Streaming.run session_id exec_id base_url).
Local Abbreviation expected := (Streaming.expected session_id exec_id base_url).

Definition items_of (h : handle) : list item :=
  match h with
  | HEnsureFuture it | HPutStep it => [it]
  | HSetState o | HWakeup o => resume o
  end.

(** The items still to come from the callbacks in the loop, in the order
    in which they will be put. *)
Definition pending (hs : list handle) : list item :=
  flat_map items_of (List.filter puts_now hs)
  ++ flat_map items_of (List.filter (fun h => negb (puts_now h)) hs).

(** The items still to come from the pool thread. *)
Definition to_come (t : option (list (string * string) * result string ExecutionResult))
  : list item :=
  match t with
  | Some (outs, o) => map output_item outs ++ resume o
  | None => []
  end.

(** The whole stream: what is in the queue, then what the loop holds,
    then what the thread will still cause. *)
Definition stream (s : state) : list item :=
  queue s ++ pending (ready s) ++ to_come (thread s).

Lemma pending_snoc_later hs h :
  puts_now h = false -> pending (hs ++ [h]) = pending hs ++ items_of h.
Proof.
  intros H. unfold pending. rewrite !List.filter_app. simpl. rewrite H. simpl.
  rewrite app_nil_r, flat_map_app. simpl. now rewrite app_nil_r, app_assoc.
Qed.

Lemma pending_cons_now hs h :
  puts_now h = true -> pending (h :: hs) = items_of h ++ pending hs.
Proof.
  intros H. unfold pending. simpl. rewrite H. simpl. now rewrite app_assoc.
Qed.

(** Running a callback of the first kind moves its items behind those
    of the callbacks that put at once, before all others. *)
Lemma pending_reschedule hs h h' :
  puts_now h = false -> puts_now h' = true -> items_of h' = items_of h ->
  pending (hs ++ [h']) = pending (h :: hs).
Proof.
  intros H H' E. unfold pending. rewrite !List.filter_app. simpl.
  rewrite H, H'. simpl. rewrite flat_map_app. simpl.
  now rewrite E, !app_nil_r, <- !app_assoc.
Qed.

Lemma stream_thread_step s s' : thread_step s = Some s' -> stream s' = stream s.
Proof.
  unfold thread_step, stream. destruct s as [[[[|o outs] end_]|] hs q];
    cbn [thread ready queue]; intros [= <-]; cbn [thread ready queue to_come].
  - rewrite pending_snoc_later by reflexivity. cbn [items_of map].
    now rewrite app_nil_r.
  - rewrite pending_snoc_later by reflexivity. cbn [items_of map].
    now rewrite <- !app_assoc.
Qed.

Lemma stream_loop_step s s' : loop_step s = Some s' -> stream s' = stream s.
Proof.
  unfold Streaming.loop_step, stream. destruct s as [t [|[it|it|o|o] hs] q];
    cbn [thread ready queue]; intros [= <-]; cbn [thread ready queue].
  - now rewrite (pending_reschedule hs (HEnsureFuture it) (HPutStep it)).
  - rewrite (pending_cons_now hs (HPutStep it)) by reflexivity.
    cbn [items_of]. now rewrite <- !app_assoc.
  - now rewrite (pending_reschedule hs (HSetState o) (HWakeup o)).
  - rewrite (pending_cons_now hs (HWakeup o)) by reflexivity.
    cbn [items_of]. now rewrite <- !app_assoc.
Qed.

Lemma stream_step s s' : step s s' -> stream s' = stream s.
Proof. intros [H|H]; [now apply stream_thread_step|now apply stream_loop_step]. Qed.

Lemma stream_init e : stream (init e) = expected e.
Proof. reflexivity. Qed.

Lemma stream_reachable e s : rtc step (init e) s -> stream s = expected e.
Proof.
  intros R. rewrite <- stream_init. induction R as [|s1 s2 s3 S _ IH];
    [reflexivity|]. rewrite IH. now apply stream_step.
Qed.

Lemma stream_terminal s : terminal s -> stream s = queue s.
Proof.
  intros [T R]. unfold stream. rewrite T, R. simpl. now rewrite app_nil_r.
Qed.

Lemma steps_left_thread_step s s' :
  thread_step s = Some s' -> S (steps_left s') = steps_left s.
Proof.
  unfold thread_step, steps_left. destruct s as [[[[|o outs] end_]|] hs q]; simpl;
    intros [= <-]; simpl; rewrite map_app, list_sum_app; simpl; lia.
Qed.

Lemma steps_left_loop_step s s' :
  loop_step s = Some s' -> S (steps_left s') = steps_left s.
Proof.
  unfold Streaming.loop_step, steps_left.
  destruct s as [t [|[it|it|o|o] hs] q]; simpl; intros [= <-]; simpl;
    rewrite ?map_app, ?list_sum_app; simpl; lia.
Qed.

Lemma steps_left_zero s : steps_left s = 0%nat -> terminal s.
Proof.
  unfold steps_left, terminal. destruct s as [[[outs end_]|] [|h hs] q]; simpl;
    try lia; auto. destruct h; simpl; lia.
Qed.

Lemma terminal_stuck s : terminal s -> thread_step s = None /\ loop_step s = None.
Proof.
  intros [T R]. unfold thread_step, Streaming.loop_step. now rewrite T, R.
Qed.

(** A state that is not terminal takes a step under either preference. *)
Lemma next_progress c s :
  (terminal s /\ next c s = s) \/
  (step s (next c s) /\ S (steps_left (next c s)) = steps_left s).
Proof.
  unfold Streaming.next.
  destruct (thread_step s) as [s1|] eqn:T, (loop_step s) as [s2|] eqn:L;
    destruct c; simpl;
    try (right; split;
         [ (left; assumption) || (right; assumption)
         | (now apply steps_left_thread_step) || (now apply steps_left_loop_step) ]).
  all: left; split; [|reflexivity].
  all: unfold thread_step in T; unfold Streaming.loop_step in L;
    destruct s as [[[[|o outs] end_]|] [|[it|it|o'|o'] hs] q]; simpl in *;
    try discriminate; split; reflexivity.
Qed.

Lemma run_reachable choices s : rtc step s (run choices s).
Proof.
  revert s. induction choices as [|c choices IH]; intros s; simpl; [constructor|].
  destruct (next_progress c s) as [[_ E]|[St _]].
  - rewrite E. apply IH.
  - eapply rtc_l; [exact St|apply IH].
Qed.

Lemma run_terminates choices s :
  (steps_left s <= length choices)%nat -> terminal (run choices s).
Proof.
  revert s. induction choices as [|c choices IH]; intros s H; simpl in *.
  - apply steps_left_zero. lia.
  - apply IH. destruct (next_progress c s) as [[T E]|[_ D]].
    + rewrite E. destruct T as [T R]. unfold steps_left. rewrite T, R. simpl. lia.
    + lia.
Qed.

(** C2. Whatever the interleaving of the pool thread and the loop: at
    every moment the queue holds a beginning of the stream made of one
    [output] item per call of [on_output], in order, then one [result]
    item, then one [done] item; when thread and loop have nothing left to
    do the queue holds exactly that stream; and they get there, under any
    scheduling, in a bounded number of steps. With no output the stream
    is [result], [done]; when the execution raises, the result says
    [is_success = false]. *)
Theorem streaming_event_order (e : execution) (s : state) :
  rtc step (init e) s ->
  (exists rest, expected e = queue s ++ rest) /\
  (terminal s -> queue s = expected e) /\
  (forall choices, (steps_left (init e) <= length choices)%nat ->
     terminal (run choices (init e)) /\
     queue (run choices (init e)) = expected e) /\
  expected e
    = map output_item (outputs e)
      ++ [result_item session_id exec_id base_url (outcome e); done_item] /\
  Forall (fun it => event it = "output") (map output_item (outputs e)) /\
  event (result_item session_id exec_id base_url (outcome e)) = "result" /\
  event done_item = "done" /\
  (outputs e = [] ->
     expected e = [result_item session_id exec_id base_url (outcome e); done_item]) /\
  (forall msg, outcome e = Raise msg ->
     item_data (result_item session_id exec_id base_url (outcome e))
     = ResultData exec_id false (Some msg) None [] [] [] [] []).
Proof.
  intros R. pose proof (stream_reachable e s R) as St.
  split; [|split; [|split; [|split; [|split; [|split; [|split; [|split]]]]]]].
  - rewrite <- St. unfold stream. eauto.
  - intros T. now rewrite <- St, stream_terminal.
  - intros choices H. pose proof (run_terminates choices (init e) H) as T.
    split; [exact T|].
    rewrite <- (stream_reachable e _ (run_reachable choices (init e))).
    now rewrite stream_terminal.
  - reflexivity.
  - apply Forall_forall. intros it Hin.
    apply list_elem_of_In, in_map_iff in Hin as [o [<- _]]. reflexivity.
  - destruct (outcome e); reflexivity.
  - reflexivity.
  - intros E. unfold Streaming.expected. now rewrite E.
  - intros msg E. now rewrite E.
Qed.

End Execute.

Section Stream.

Variable json_dumps : data -> string.

(** The SSE response to a consumer that finds every item in time: one
    frame per item of the stream, ending with that of [done]. *)
Lemma event_generator_expected session_id exec_id base_url e :
  event_generator json_dumps
    (map Some (Streaming.expected session_id exec_id base_url e))
  = map (sse json_dumps) (Streaming.expected session_id exec_id base_url e).
Proof.
  unfold Streaming.expected. induction (outputs e) as [|o outs IH]; simpl.
  - destruct (outcome e); reflexivity.
  - now rewrite IH.
Qed.

End Stream.

Lemma streaming_event_order_witness :
  let s := Streaming.run "s1" "e2" "http://h"
             [true; false; false; true; true; false; false; false; false; false]
             (init example_execution) in
  terminal s /\
  queue s =
    [ mkItem "output" (OutputData "stdout" (String "a" (String "010" "")));
      mkItem "output" (OutputData "stdout" (String "b" (String "010" "")));
      result_item "s1" "e2" "http://h" (Ok example_result);
      done_item ].
Proof.
  intros s.
  destruct (streaming_event_order "s1" "e2" "http://h" example_execution s
              (run_reachable "s1" "e2" "http://h" _ _)) as [_ [H _]].
  assert (terminal s) as T by (vm_compute; split; reflexivity).
  split; [exact T|]. rewrite (H T). reflexivity.
Defined.


(** *** Timeouts of [event_generator] *)

(** The items the successive [queue.get()] have found. *)
Definition found (gets : list (option item)) : list item := omap id gets.

(** The items up to the first [done], that one included. *)
Fixpoint until_done (items : list item) : list item :=
  match items with
  | [] => []
  | it :: rest =>
      it :: (if String.eqb (event it) "done" then [] else until_done rest)
  end.

Definition is_keepalive (frame : string) : bool := String.eqb frame keepalive.

Section Timeouts.

Variable json_dumps : data -> string.

Lemma sse_not_keepalive it : is_keepalive (sse json_dumps it) = false.
Proof.
  unfold is_keepalive, sse, keepalive.
  rewrite !PathProofs.append_cons. reflexivity.
Qed.

Lemma keepalive_is_keepalive : is_keepalive keepalive = true.
Proof. reflexivity. Qed.

Lemma event_generator_frames gets :
  List.filter (fun frame => negb (is_keepalive frame))
    (event_generator json_dumps gets)
  = map (sse json_dumps) (until_done (found gets)).
Proof.
  induction gets as [|[it|] rest IH].
  - reflexivity.
  - change (found (Some it :: rest)) with (it :: found rest).
    cbn [event_generator until_done List.filter map].
    rewrite sse_not_keepalive. cbn [negb].
    destruct (String.eqb (event it) "done"); [reflexivity|now rewrite IH].
  - change (found (None :: rest)) with (found rest).
    cbn [event_generator List.filter].
    rewrite keepalive_is_keepalive. exact IH.
Qed.

(** The stream of an execution has its only [done] at the end. *)
Lemma until_done_expected session_id exec_id base_url e :
  until_done (Streaming.expected session_id exec_id base_url e)
  = Streaming.expected session_id exec_id base_url e.
Proof.
  unfold Streaming.expected. induction (outputs e) as [|o outs IH]; simpl.
  - destruct (outcome e); reflexivity.
  - now rewrite IH.
Qed.

(** X25. A [queue.get()] that times out adds one keepalive comment and nothing
    else: without the keepalives, the response is the frames of the items
    found, in their order, up to the first [done]; nothing follows that
    one. When the items found are the stream of an execution, these are
    the frames of all of them. *)
Theorem timeouts_add_keepalives_only gets :
  List.filter (fun frame => negb (is_keepalive frame))
    (event_generator json_dumps gets)
  = map (sse json_dumps) (until_done (found gets)) /\
  (forall session_id exec_id base_url e,
     found gets = Streaming.expected session_id exec_id base_url e ->
     List.filter (fun frame => negb (is_keepalive frame))
       (event_generator json_dumps gets)
     = map (sse json_dumps)
         (Streaming.expected session_id exec_id base_url e)).
Proof.
  split; [apply event_generator_frames|].
  intros session_id exec_id base_url e H.
  now rewrite event_generator_frames, H, until_done_expected.
Qed.

End Timeouts.

End StreamingProofs.

(** ** Execution and inline artifacts *)

Module ExecutionProofs.
Import Posix Fs Server Streaming Execution PathProofs ServerProofs.

Section Kernel.

Variable env_execute_code :
  Environment -> string -> string -> string -> result exn ExecutionResult.
Variable b64decode : string -> result exn (list Byte.byte).

#[local] Abbreviation save_inline_artifact := (save_inline_artifact b64decode).
#[local] Abbreviation _save_inline_artifacts := (_save_inline_artifacts b64decode).
#[local] Abbreviation execute_code := (execute_code env_execute_code b64decode).
#[local] Abbreviation execute_code_route := (execute_code_route env_execute_code b64decode).

(** What one turn of the loop does to the manager: the registry is not
    touched and the regular files stay regular files. *)
Definition gentle (m m' : ServerSessionManager) : Prop :=
  work_dir m' = work_dir m /\ _sessions m' = _sessions m /\
  forall q, isfile (disk m) q = true -> isfile (disk m') q = true.

Lemma gentle_refl m : gentle m m.
Proof. repeat split; auto. Qed.

Lemma gentle_trans m1 m2 m3 : gentle m1 m2 -> gentle m2 m3 -> gentle m1 m3.
Proof.
  intros [A1 [B1 C1]] [A2 [B2 C2]]. repeat split; try congruence. auto.
Qed.

(** The artifact has inline content and no file yet: the case in which
    [_save_inline_artifacts] tries to write it. *)
Definition inline (a : ExecutionArtifact) : Prop :=
  truthy (art_file_content a) = true /\ truthy (art_file_name a) = false.

(** One turn of the loop never raises. It leaves the artifact as it is,
    or it has written the content under [cwd] and named the artifact
    after the file. *)
Lemma save_inline_artifact_run session a m :
  exists a' m',
    save_inline_artifact session a m = (Ok a', m') /\ gentle m m' /\
    (~ inline a -> a' = a /\ m' = m) /\
    (a' = a \/
     inline a /\ a' = named (inline_file_name a) a /\
     exists content,
       inline_content b64decode a = Ok content /\
       write_file (disk m) (join (cwd session) [inline_file_name a]) content
         = Ok (disk m')).
Proof.
  unfold save_inline_artifact, inline.
  destruct (truthy (art_file_content a)) eqn:C; simpl.
  2:{ exists a, m. split; [reflexivity|]. split; [apply gentle_refl|].
      split; auto. }
  destruct (truthy (art_file_name a)) eqn:N; simpl.
  { exists a, m. split; [reflexivity|]. split; [apply gentle_refl|].
    split; auto. }
  unfold try_except, bind, lift, get.
  destruct (inline_content b64decode a) as [content|e] eqn:D.
  2:{ unfold Server.log, modify, ret. simpl. eexists a, _.
      split; [reflexivity|]. split; [repeat split; auto|].
      split; [intros H; exfalso; apply H; auto|auto]. }
  destruct (write_file (disk m) _ content) as [d|e] eqn:Wr.
  2:{ unfold raise, Server.log, modify, ret. simpl. eexists a, _.
      split; [reflexivity|]. split; [repeat split; auto|].
      split; [intros H; exfalso; apply H; auto|auto]. }
  unfold set_disk, Server.log, modify, ret. simpl. eexists _, _.
  split; [reflexivity|].
  destruct (write_file_isfile _ _ _ _ Wr) as [_ [_ K]].
  split; [repeat split; auto|].
  split; [intros H; exfalso; apply H; auto|].
  right. split; [auto|]. split; [reflexivity|]. exists content. auto.
Qed.

Lemma save_inline_artifacts_run session artifacts m :
  exists saved m',
    _save_inline_artifacts session artifacts m = (Ok saved, m') /\
    work_dir m' = work_dir m /\ _sessions m' = _sessions m /\
    (forall q, isfile (disk m) q = true -> isfile (disk m') q = true) /\
    Forall2 (fun a a' =>
               (~ inline a -> a' = a) /\
               (a' = a \/
                a' = named (inline_file_name a) a /\
                isfile (disk m') (join (cwd session) [inline_file_name a]) = true))
            artifacts saved.
Proof.
  revert m. induction artifacts as [|a rest IH]; intros m; simpl.
  - exists [], m. repeat split; auto.
  - unfold bind.
    destruct (save_inline_artifact_run session a m)
      as [a' [m1 [E [G1 [Hn Ha]]]]].
    rewrite E.
    destruct (IH m1) as [saved [m2 [E2 [W2 [S2 [K2 F]]]]]]. rewrite E2.
    unfold ret. exists (a' :: saved), m2. split; [reflexivity|].
    destruct G1 as [W1 [S1 K1]].
    split; [congruence|]. split; [congruence|]. split; [auto|].
    constructor; [|exact F]. split; [intros H; now apply Hn|].
    destruct Ha as [->|[_ [-> [content [_ Wr]]]]]; [now left|]. right.
    split; [reflexivity|]. apply K2.
    now destruct (write_file_isfile _ _ _ _ Wr) as [I _].
Qed.

(** X18. [_save_inline_artifacts] never raises and leaves the registry alone.
    It returns as many artifacts as it got, in the same order: those
    without inline content or with a file already are returned as they
    are; an inline one is returned as it is or named
    [<name>_image<ext>], and in that case that name, under the [cwd] of
    the session, is a regular file when the loop is over. *)
Theorem inline_artifacts_saved session artifacts m :
  exists saved m',
    _save_inline_artifacts session artifacts m = (Ok saved, m') /\
    work_dir m' = work_dir m /\ _sessions m' = _sessions m /\
    (forall q, isfile (disk m) q = true -> isfile (disk m') q = true) /\
    Forall2 (fun a a' =>
               (~ inline a -> a' = a) /\
               (a' = a \/
                a' = named (inline_file_name a) a /\
                isfile (disk m') (join (cwd session) [inline_file_name a]) = true))
            artifacts saved.
Proof. apply save_inline_artifacts_run. Qed.

(** The run of [execute_code] on a session that exists. *)
Lemma execute_code_run session_id exec_id code m session :
  get_session session_id m = Some session ->
  execute_code session_id exec_id code m =
    match env_execute_code (environment session) session_id code exec_id with
    | Raise e => (Raise e, m)
    | Ok result =>
        let '(r, m1) := _save_inline_artifacts session (artifact result) m in
        match r with
        | Ok saved =>
            (Ok (with_artifacts saved result),
             mkManager (work_dir m1)
               (<[session_id := counted session]> (_sessions m1))
               (disk m1) (logged m1))
        | Raise e => (Raise e, m1)
        end
    end.
Proof.
  intros G. unfold Execution.execute_code, bind at 1, get. rewrite G.
  unfold bind at 1, lift.
  destruct (env_execute_code _ _ _ _) as [result|e]; [|reflexivity].
  unfold bind.
  destruct (_save_inline_artifacts session (artifact result) m) as [[s|e] m1];
    reflexivity.
Qed.

(** X19. [execute_code] on a session that exists: when the kernel raises, the
    exception goes through and the manager is as before; when it returns,
    the result comes back with its artifacts as the save loop left them
    and the session has one execution more. No other session changes. *)
Theorem execute_code_counts session_id exec_id code m session :
  get_session session_id m = Some session ->
  let r := execute_code session_id exec_id code m in
  (forall e,
     env_execute_code (environment session) session_id code exec_id = Raise e ->
     r = (Raise e, m)) /\
  (forall result,
     env_execute_code (environment session) session_id code exec_id = Ok result ->
     exists saved,
       fst r = Ok (with_artifacts saved result) /\
       length saved = length (artifact result) /\
       get_session session_id (snd r) = Some (counted session) /\
       execution_count (counted session) = execution_count session + 1 /\
       forall k, k <> session_id -> get_session k (snd r) = get_session k m).
Proof.
  intros G r. subst r. rewrite (execute_code_run _ _ _ _ _ G).
  destruct (env_execute_code _ _ _ _) as [result|e].
  2:{ split; [intros ? [= <-]; reflexivity|discriminate]. }
  split; [discriminate|]. intros ? [= <-].
  destruct (save_inline_artifacts_run session (artifact result) m)
    as [saved [m' [E [_ [S [_ F]]]]]].
  rewrite E. simpl.
  exists saved. split; [reflexivity|].
  split; [symmetry; exact (Forall2_length _ _ _ F)|].
  unfold get_session. simpl. rewrite S.
  split; [apply lookup_insert_eq|]. split; [reflexivity|].
  intros k Hk. now rewrite lookup_insert_ne.
Qed.

Section Download.

Variable guess_type : string -> option string.
Variable chat_manager : option (string -> option string).

(** X20. The download address the response gives for an inline artifact leads
    to the file: when the execute route answers, every artifact of the
    response that the kernel returned inline and without file either has
    no file name, or carries the address
    [<base>/api/v1/sessions/<id>/artifacts/<file_name>], and the download
    route of that session, asked for [<file_name>], serves the file under
    the [cwd] of the session. *)
Theorem inline_artifact_is_served session_id exec_id code base_url m session
  result response :
  get_session session_id m = Some session ->
  env_execute_code (environment session) session_id code exec_id = Ok result ->
  fst (execute_code_route session_id exec_id code base_url m) = Ok response ->
  let m' := snd (execute_code_route session_id exec_id code base_url m) in
  Forall2 (fun a model =>
             inline a ->
             file_name model = "" \/
             file_name model = inline_file_name a /\
             download_url model
               = Some (artifact_url base_url session_id (file_name model)) /\
             exists mime,
               download_artifact guess_type chat_manager session_id
                 (file_name model) m'
               = FileResponse (join (cwd session) [file_name model])
                   (basename (file_name model)) mime)
          (artifact result) (response_artifact response).
Proof.
  intros G K. unfold execute_code_route.
  assert (session_exists session_id m = true) as ->
    by (apply session_exists_true; unfold get_session in G; rewrite G; eauto).
  simpl negb. cbv iota.
  rewrite (execute_code_run _ _ _ _ _ G), K.
  destruct (save_inline_artifacts_run session (artifact result) m)
    as [saved [m1 [E [_ [_ [_ F]]]]]].
  rewrite E. simpl. intros [= <-]. simpl.
  apply Forall2_fmap_r. eapply Forall2_impl; [exact F|].
  simpl. intros a a' [Hn Ha] Hi.
  destruct Ha as [->|[-> I]].
  - left. destruct Hi as [_ N]. rewrite N. simpl.
    destruct (art_file_name a); [reflexivity|discriminate].
  - right. simpl.
    assert (truthy (inline_file_name a) = true) as T.
    { unfold inline_file_name. destruct (art_name a); reflexivity. }
    rewrite T. simpl. split; [reflexivity|]. split; [reflexivity|].
    unfold download_artifact.
    match goal with |- context [session_exists session_id ?mm] =>
      assert (session_exists session_id mm = true) as ->
        by (apply session_exists_true; simpl; rewrite lookup_insert_eq; eauto)
    end.
    unfold get_artifact_path, get_session. cbn [_sessions disk].
    rewrite lookup_insert_eq. cbn [cwd counted].
    change (isfile (disk m1) (join (cwd session) [inline_file_name a]) = true)
      in I.
    rewrite I. eexists. reflexivity.
Qed.

End Download.

(** X21. The result event of the streaming route carries what the response of
    the route without streaming carries, field by field, the artifact
    models with their download addresses included. *)
Theorem streamed_result_is_response r session_id exec_id base_url :
  let response := execution_result_to_response r session_id base_url in
  result_item session_id exec_id base_url (Ok r)
  = mkItem "result"
      (ResultData (response_execution_id response) (response_is_success response)
         (response_error response) (response_output response)
         (response_stdout response) (response_stderr response)
         (response_log response) (response_artifact response)
         (response_variables response)).
Proof.
  unfold result_item, execution_result_to_response. simpl. do 2 f_equal.
  apply map_ext. intros a.
  unfold convert_artifact, artifact_from_execution, with_download_url,
    artifact_url.
  now destruct (truthy (art_file_name a)).
Qed.

End Kernel.

Lemma execute_code_counts_witness :
  let r := execute_code example_kernel (fun _ => Ok [Byte.x78])
             "s1" "e1" "plt.show()" example_manager in
  exists saved,
    fst r = Ok (with_artifacts saved
                  (mkResult "e1" true None None [] [] [] [inline_png; inline_svg] []))
    /\ get_session "s1" (snd r) = Some (counted example_session).
Proof.
  intros r.
  destruct (execute_code_counts example_kernel (fun _ => Ok [Byte.x78])
              "s1" "e1" "plt.show()" example_manager example_session eq_refl)
    as [_ H].
  destruct (H _ eq_refl) as [saved [H1 [_ [H2 _]]]].
  exists saved. split; [exact H1|exact H2].
Defined.

Lemma inline_artifact_is_served_witness :
  let m' := snd (execute_code_route example_kernel (fun _ => Ok [Byte.x78])
                   "s1" "e1" "plt.show()" "http://h" example_manager) in
  download_artifact (fun _ => None) None "s1" "fig_image.png" m'
  = FileResponse "/w/sessions/s1/cwd/fig_image.png" "fig_image.png"
      "application/octet-stream".
Proof.
  intros m'.
  pose proof (inline_artifact_is_served example_kernel (fun _ => Ok [Byte.x78])
                (fun _ => None) None "s1" "e1" "plt.show()" "http://h"
                example_manager example_session _ _ eq_refl eq_refl eq_refl) as F.
  simpl in F. apply Forall2_cons_1 in F as [H _].
  destruct H as [H|[_ [_ [mime H]]]]; [split; reflexivity|discriminate H|].
  vm_compute. reflexivity.
Defined.

End ExecutionProofs.
(** ** Artifacts and output of the plugin context *)

Module ArtifactsProofs.
Import Posix Fs Artifacts PathProofs.

(** *** The identifiers of artifacts *)

Fixpoint has_underscore (s : string) : bool :=
  match s with
  | EmptyString => false
  | String c s' => Ascii.eqb c "_" || has_underscore s'
  end.

(** The number a text of hexadecimal digits stands for. *)
Definition of_hex (s : string) : option nat :=
  option_map Nat.of_hex_uint (HexadecimalString.NilEmpty.uint_of_string s).

Lemma of_hex_zeros k s : of_hex (zeros k +:+ s) = of_hex s.
Proof.
  induction k as [|k IH]; [reflexivity|].
  cbn [zeros]. rewrite append_cons. revert IH. unfold of_hex.
  cbn [HexadecimalString.NilEmpty.uint_of_string].
  destruct (HexadecimalString.NilEmpty.uint_of_string (zeros k +:+ s)) as [u|];
    intros <-; reflexivity.
Qed.

Lemma of_hex_digits n :
  of_hex (HexadecimalString.NilZero.string_of_uint (Nat.to_hex_uint n)) = Some n.
Proof.
  pose proof (HexadecimalNat.Unsigned.of_to n) as E.
  unfold of_hex. destruct (Nat.to_hex_uint n) as [|u|u|u|u|u|u|u|u|u|u|u|u|u|u|u|u] eqn:T.
  1: { simpl in *. now subst. }
  all: change (HexadecimalString.NilZero.string_of_uint ?d)
         with (HexadecimalString.NilEmpty.string_of_uint d);
       rewrite HexadecimalString.NilEmpty.usu; simpl option_map; now rewrite E.
Qed.

(** The four digits stand for the number: the format loses nothing. *)
Lemma of_hex_format n : of_hex (format_04x n) = Some n.
Proof. unfold format_04x. now rewrite of_hex_zeros, of_hex_digits. Qed.

Lemma of_hex_no_underscore s n : of_hex s = Some n -> has_underscore s = false.
Proof.
  unfold of_hex. revert n. induction s as [|c s IH]; intros n; [reflexivity|].
  cbn [HexadecimalString.NilEmpty.uint_of_string has_underscore].
  destruct (HexadecimalString.NilEmpty.uint_of_string s) as [u|];
    [|discriminate].
  rewrite (IH _ eq_refl), orb_false_r.
  destruct (Ascii.eqb c "_") eqn:E; [|reflexivity].
  apply Ascii.eqb_eq in E. subst c. discriminate.
Qed.

Lemma underscore_cons (h : string) : "_" +:+ h = String "_" h.
Proof. reflexivity. Qed.

Lemma has_underscore_app a b : has_underscore (a +:+ String "_" b) = true.
Proof.
  induction a as [|c a IH]; [reflexivity|].
  rewrite append_cons. cbn [has_underscore]. rewrite IH. apply orb_true_r.
Qed.

(** What follows the last underscore is determined by the text. *)
Lemma after_last_underscore a a' h h' :
  has_underscore h = false -> has_underscore h' = false ->
  a +:+ "_" +:+ h = a' +:+ "_" +:+ h' -> h = h'.
Proof.
  intros H H'. rewrite !underscore_cons. revert a'.
  induction a as [|c a IH]; intros [|c' a'].
  - change ("" +:+ ?x) with x. intros [= E]. exact E.
  - rewrite append_cons. change ("" +:+ ?x) with x. intros [= _ E].
    rewrite E, has_underscore_app in H. discriminate.
  - rewrite append_cons. change ("" +:+ ?x) with x. intros [= _ E].
    rewrite <- E, has_underscore_app in H'. discriminate.
  - rewrite !append_cons. intros [= _ E]. exact (IH _ E).
Qed.

Definition artifact_id (st : state) (type : string) : string :=
  "obj_" +:+ str_of_int (execution_idx st) +:+ "_" +:+ type +:+ "_"
  +:+ format_04x (length (artifact_list st)).

Lemma create_artifact_path_run name file_name type desc st :
  create_artifact_path name file_name type desc st =
    (Ok (artifact_id st type,
         join (executor_cwd st) [artifact_id st type +:+ "_" +:+ file_name]),
     with_artifact
       (mkArtifact name type file_name
          (artifact_id st type +:+ "_" +:+ file_name) desc) st).
Proof. reflexivity. Qed.

Lemma artifact_id_inj st1 type1 st2 type2 :
  artifact_id st1 type1 = artifact_id st2 type2 ->
  length (artifact_list st1) = length (artifact_list st2).
Proof.
  unfold artifact_id. intros E.
  assert (forall a b c d : string,
            a +:+ b +:+ "_" +:+ c +:+ "_" +:+ d
            = (a +:+ b +:+ "_" +:+ c) +:+ "_" +:+ d) as A.
  { intros. now rewrite !append_assoc. }
  rewrite !A in E.
  apply after_last_underscore in E;
    try (eapply of_hex_no_underscore, of_hex_format).
  apply (f_equal of_hex) in E. rewrite !of_hex_format in E. congruence.
Qed.

(** X27. Two artifacts made while [artifact_list] had different lengths have
    different identifiers, whatever the execution counts and the types;
    and making an artifact lengthens the list by one entry, so that the
    identifiers made from one context one after the other all differ. *)
Theorem artifact_ids_differ name1 file1 type1 desc1 st1
    name2 file2 type2 desc2 st2 :
  length (artifact_list st1) <> length (artifact_list st2) ->
  exists id1 path1 st1' id2 path2 st2',
    create_artifact_path name1 file1 type1 desc1 st1 = (Ok (id1, path1), st1') /\
    create_artifact_path name2 file2 type2 desc2 st2 = (Ok (id2, path2), st2') /\
    id1 <> id2 /\
    length (artifact_list st1') = S (length (artifact_list st1)) /\
    length (artifact_list st2') = S (length (artifact_list st2)).
Proof.
  intros N. rewrite !create_artifact_path_run.
  do 6 eexists. split; [reflexivity|]. split; [reflexivity|].
  split; [intros E; exact (N (artifact_id_inj _ _ _ _ E))|].
  cbn [with_artifact artifact_list]. rewrite !length_app. simpl. lia.
Qed.

Lemma artifact_ids_differ_witness :
  exists id1 id2 : string, id1 <> id2.
Proof.
  destruct (artifact_ids_differ "a" "a.txt" "txt" "" example_state
              "b" "b.txt" "txt" ""
              (snd (create_artifact_path "a" "a.txt" "txt" "" example_state)))
    as [id1 [_ [_ [id2 [_ [_ [_ [_ [N _]]]]]]]]].
  - simpl. lia.
  - exists id1, id2. exact N.
Defined.

(** *** [add_artifact] *)

Section Str.

Variable str_of_seq : pyobj -> string.

Local Abbreviation str := (Artifacts.str str_of_seq).
Local Abbreviation add_artifact := (Artifacts.add_artifact str_of_seq).
Local Abbreviation _get_preview_by_type :=
  (Artifacts._get_preview_by_type str_of_seq).
Local Abbreviation set_output := (Artifacts.set_output str_of_seq).
Local Abbreviation get_normalized_output :=
  (Artifacts.get_normalized_output str_of_seq).
Local Abbreviation normalize_tuple := (Artifacts.normalize_tuple str_of_seq).

(** The writing of [add_artifact], by the type. *)
Definition store (type path : string) (val : pyobj) : M state exn unit :=
  if String.eqb type "chart" then open_w path ;; f_write path val
  else if String.eqb type "df" then to_csv val path
  else if String.eqb type "file" || String.eqb type "txt"
          || String.eqb type "svg" || String.eqb type "html" then
    open_w path ;; f_write path val
  else raise (Exception "unsupported data type").

Definition entry_of (name file_name type preview : string) (st : state)
  : artifact :=
  mkArtifact name type file_name (artifact_id st type +:+ "_" +:+ file_name)
    preview.

Lemma add_artifact_run name file_name type val desc st :
  add_artifact name file_name type val desc st =
    match (match desc with
           | Some d => Ok d
           | None => _get_preview_by_type type val
           end) with
    | Raise e => (Raise e, st)
    | Ok preview =>
        match store type
                (join (executor_cwd st)
                   [artifact_id st type +:+ "_" +:+ file_name]) val
                (with_artifact (entry_of name file_name type preview st) st) with
        | (Ok _, st') => (Ok (artifact_id st type), st')
        | (Raise e, st') => (Raise e, st')
        end
    end.
Proof.
  unfold Artifacts.add_artifact, bind at 1.
  assert ((match desc with
           | Some d => ret d
           | None => lift (_get_preview_by_type type val)
           end) st
          = (match desc with
             | Some d => Ok d
             | None => _get_preview_by_type type val
             end, st)) as -> by (destruct desc; reflexivity).
  destruct (match desc with
            | Some d => Ok d
            | None => _get_preview_by_type type val
            end) as [preview|e]; [|reflexivity].
  unfold bind at 1. rewrite create_artifact_path_run. cbn [fst snd].
  unfold bind at 1. fold (store type
    (join (executor_cwd st) [artifact_id st type +:+ "_" +:+ file_name]) val).
  unfold entry_of.
  destruct (store type _ val _) as [[[]|e] st']; reflexivity.
Qed.

Lemma In_supported type :
  ~ In type ["chart"; "df"; "file"; "txt"; "svg"; "html"] ->
  String.eqb type "chart" = false /\ String.eqb type "df" = false /\
  String.eqb type "file" = false /\ String.eqb type "txt" = false /\
  String.eqb type "svg" = false /\ String.eqb type "html" = false.
Proof.
  intros N. repeat split; apply String.eqb_neq; intros ->; apply N; simpl; auto 10.
Qed.

Lemma unsupported_run name file_name type val desc st :
  ~ In type ["chart"; "df"; "file"; "txt"; "svg"; "html"] ->
  add_artifact name file_name type val desc st =
    (Raise (Exception "unsupported data type"),
     with_artifact
       (entry_of name file_name type
          (match desc with Some d => d | None => str val end) st) st).
Proof.
  intros N. apply In_supported in N as [E1 [E2 [E3 [E4 [E5 E6]]]]].
  rewrite add_artifact_run. unfold Artifacts._get_preview_by_type, store.
  rewrite E1, E2, E3, E4, E5, E6. simpl orb. cbv iota.
  destruct desc; reflexivity.
Qed.

(** X28. [add_artifact] with a type that is none of chart, df, file, txt, svg
    and html ("image", say) raises its "unsupported data type", but only
    after [create_artifact_path] has run: the entry of the artifact stays
    in [artifact_list], with the name of a file that was never written;
    the disk is as before. *)
Theorem unsupported_type_leaves_entry name file_name type val desc st :
  ~ In type ["chart"; "df"; "file"; "txt"; "svg"; "html"] ->
  exists st',
    add_artifact name file_name type val desc st
    = (Raise (Exception "unsupported data type"), st') /\
    artifact_list st' =
      artifact_list st ++
      [mkArtifact name type file_name
         ("obj_" +:+ str_of_int (execution_idx st) +:+ "_" +:+ type +:+ "_"
          +:+ format_04x (length (artifact_list st)) +:+ "_" +:+ file_name)
         (match desc with Some d => d | None => str val end)] /\
    disk st' = disk st /\ output st' = output st.
Proof.
  intros N. rewrite (unsupported_run _ _ _ _ _ _ N). eexists.
  split; [reflexivity|]. unfold entry_of, artifact_id.
  cbn [with_artifact artifact_list disk output].
  rewrite !append_assoc. auto.
Qed.

(** What [store] has written when it returns. *)
Lemma store_run type path val st st' :
  store type path val st = (Ok tt, st') ->
  exists text,
    (if String.eqb type "df" then exists d, val = PyFrame d /\ text = df_csv d
     else val = PyStr text) /\
    In type ["chart"; "df"; "file"; "txt"; "svg"; "html"] /\
    read_file (disk st') path = Some (Execution.utf8 text) /\
    artifact_list st' = artifact_list st /\
    executor_cwd st' = executor_cwd st /\ output st' = output st.
Proof.
  assert (forall s s', (open_w path ;; f_write path val) s = (Ok tt, s') ->
            exists text, val = PyStr text /\
              read_file (disk s') path = Some (Execution.utf8 text) /\
              artifact_list s' = artifact_list s /\
              executor_cwd s' = executor_cwd s /\ output s' = output s) as W.
  { intros s s'. unfold bind, open_w.
    destruct (write_file (disk s) path []) as [d|e]; [|discriminate].
    destruct val as [|text| | | |]; try discriminate.
    unfold f_write. cbn [with_disk disk].
    destruct (write_file d path (Execution.utf8 text)) as [d'|e] eqn:Wr;
      [|discriminate].
    intros [= <-]. exists text. split; [reflexivity|].
    destruct (ServerProofs.write_file_isfile _ _ _ _ Wr) as [_ [Rd _]].
    auto. }
  unfold store.
  destruct (String.eqb type "chart") eqn:E1.
  { apply String.eqb_eq in E1. subst type. intros H.
    destruct (W _ _ H) as [text [V K]]. exists text. simpl. tauto. }
  destruct (String.eqb type "df") eqn:E2.
  { apply String.eqb_eq in E2. subst type.
    destruct val as [| | | |d|]; try discriminate. unfold to_csv.
    destruct (write_file (disk st) path (Execution.utf8 (df_csv d)))
      as [d'|e] eqn:Wr; [|discriminate].
    intros [= <-]. exists (df_csv d).
    destruct (ServerProofs.write_file_isfile _ _ _ _ Wr) as [_ [Rd _]].
    simpl. split; [eauto|]. split; [auto|]. auto. }
  destruct (String.eqb type "file" || String.eqb type "txt"
            || String.eqb type "svg" || String.eqb type "html") eqn:E3;
    [|discriminate].
  intros H. destruct (W _ _ H) as [text [V K]]. exists text.
  split; [exact V|]. split; [|exact K].
  rewrite !orb_true_iff, !String.eqb_eq in E3.
  destruct E3 as [[[->| ->]| ->]| ->]; simpl; auto 10.
Qed.

(** X29. An [add_artifact] that returns has appended one entry to
    [artifact_list], whose file name is the returned identifier, an
    underscore and the given name; that file, in the working directory of
    the executor, holds the value as UTF-8: the string for the types
    chart, file, txt, svg and html, the CSV text for df. *)
Theorem added_artifact_is_stored name file_name type val desc st id st' :
  add_artifact name file_name type val desc st = (Ok id, st') ->
  exists preview text,
    artifact_list st' =
      artifact_list st ++
      [mkArtifact name type file_name (id +:+ "_" +:+ file_name) preview] /\
    (if String.eqb type "df" then exists d, val = PyFrame d /\ text = df_csv d
     else val = PyStr text) /\
    In type ["chart"; "df"; "file"; "txt"; "svg"; "html"] /\
    read_file (disk st') (join (executor_cwd st') [id +:+ "_" +:+ file_name])
    = Some (Execution.utf8 text).
Proof.
  rewrite add_artifact_run.
  destruct (match desc with
            | Some d => Ok d
            | None => _get_preview_by_type type val
            end) as [preview|e]; [|discriminate].
  destruct (store type _ val _) as [[[]|e] st1] eqn:S; [|discriminate].
  intros [= <- <-].
  destruct (store_run _ _ _ _ _ S) as [text [V [I [Rd [A [C _]]]]]].
  exists preview, text. rewrite A, C. cbn [with_artifact artifact_list executor_cwd].
  auto.
Qed.

(** *** [set_output] and [get_normalized_output] *)

Lemma to_str_bounded v : (String.length (to_str str_of_seq v) <= 5000)%nat.
Proof. apply ContextProofs.length_take. Qed.

Lemma normalize_tuple_bounded i v :
  (String.length (snd (normalize_tuple i v)) <= 5000)%nat.
Proof.
  unfold Artifacts.normalize_tuple, normalize_sequence.
  destruct v as [| |items|items| |]; cbn [snd]; try apply to_str_bounded.
  all: destruct (length items <=? 2)%nat; [|apply to_str_bounded].
  all: destruct items as [|? [|? ?]]; apply to_str_bounded.
Qed.

Lemma set_output_run out st :
  get_normalized_output (snd (set_output out st)) =
    get_normalized_output st ++
    match out with
    | PyList items =>
        imap (fun k => normalize_tuple (length (output st) + k)) items
    | _ => [(take 5000 (str out), "")]
    end.
Proof.
  unfold Artifacts.get_normalized_output.
  destruct out; cbn [Artifacts.set_output modify snd with_output output];
    rewrite imap_app; f_equal; cbn [imap].
  all: try (unfold Artifacts.normalize_tuple, normalize_sequence, to_str;
            reflexivity).
Qed.

(** X30. [set_output] adds to the end of the output and changes nothing of
    what [get_normalized_output] gave before. The items of a list are
    added one by one, and their default names count on from the items
    already there; anything else, a tuple too, is added as one item whose
    name is its [str], cut at 5000 characters, and whose value is empty.
    No value of the normalized output has more than 5000 characters. *)
Theorem set_output_extends out st :
  get_normalized_output (snd (set_output out st)) =
    get_normalized_output st ++
    match out with
    | PyList items =>
        imap (fun k => normalize_tuple (length (output st) + k)) items
    | _ => [(take 5000 (str out), "")]
    end /\
  fst (set_output out st) = Ok tt /\
  Forall (fun entry => (String.length (snd entry) <= 5000)%nat)
    (get_normalized_output st).
Proof.
  split; [apply set_output_run|]. split; [destruct out; reflexivity|].
  unfold Artifacts.get_normalized_output. generalize (output st).
  intros l. apply Forall_forall. intros [n v] H.
  apply elem_of_lookup_imap in H as [i [o [E _]]].
  rewrite E. apply normalize_tuple_bounded.
Qed.

End Str.

Lemma unsupported_type_leaves_entry_witness :
  exists st',
    Artifacts.add_artifact example_str "plot" "p.png" "image" (PyStr "x") None
      example_state
    = (Raise (Exception "unsupported data type"), st') /\
    length (artifact_list st') = 1%nat.
Proof.
  destruct (unsupported_type_leaves_entry example_str "plot" "p.png" "image"
              (PyStr "x") None example_state) as [st' [E [A _]]].
  - simpl. intuition discriminate.
  - exists st'. split; [exact E|]. now rewrite A.
Defined.

Lemma added_artifact_is_stored_witness :
  read_file
    (disk (snd (Artifacts.add_artifact example_str "c" "c.json" "chart"
                  (PyStr "{}") None example_state)))
    "/w/s1/cwd/obj_3_chart_0000_c.json"
  = Some (Execution.utf8 "{}").
Proof.
  destruct (added_artifact_is_stored example_str "c" "c.json" "chart"
              (PyStr "{}") None example_state "obj_3_chart_0000"
              (snd (Artifacts.add_artifact example_str "c" "c.json" "chart"
                      (PyStr "{}") None example_state)) eq_refl)
    as [preview [text [_ [V [_ Rd]]]]].
  simpl in V. injection V as <-. exact Rd.
Defined.

End ArtifactsProofs.
